(** * Order construction and price analytics: a shallow embedding

    The development follows the Python modules of the repository:

    - [lib/strategies/cf_strategy.py]   (module [CFStrategy]),
    - [lib/strategies/orders.py]        (module [Orders]),
    - [lib/calculations/price_calcs.py] (modules [PriceCalcs] and [Factor]).

    Conventions.  Python [int] is [Z].  Python and numpy floats are
    idealised as exact rationals [Q] (reals in [Factor], which takes
    square roots): there is no rounding error.  Where a result hangs on
    the rounding of a float (the whole cents of a pegged order), the
    function is embedded over binary64 as well (module [Doubles]); and
    the prices [smart_bracket] rounds are stated as the nearest whole
    cents, leaving open how a tie between two cents falls, since that
    depends on the binary digits of the float.  The non-finite values are
    kept apart: a Python float division by zero raises, and a numpy cell
    that is NaN is [None]; the values of cells are stated where no
    division is by zero.  Exceptions are values of the error monad
    [Py.result].  Code that saves orders through the brokerage client is
    a function of the orders saved so far.

    The models come first, then the vocabulary of the statements, then
    the facts, one section per function. *)

From Stdlib Require Import String ZArith QArith Qround Qabs List Bool Lia Lqa.
From Stdlib Require Import Permutation Sorted.
From Stdlib Require Reals Lra Floats.
Import ListNotations.

Set Implicit Arguments.

(** ** A small Python prelude *)

Module Py.

Inductive exn : Type :=
| ZeroDivisionError
| OverflowError
| KeyError
| IndexError
| ValueError
| UnboundLocalError.

Inductive result (A : Type) : Type :=
| Ok (a : A)
| Raise (e : exn).

Arguments Ok {A} a.
Arguments Raise {A} e.

Definition bind {A B : Type} (m : result A) (k : A -> result B) : result B :=
  match m with
  | Ok a => k a
  | Raise e => Raise e
  end.

Definition succeeds {A : Type} (m : result A) : bool :=
  match m with Ok _ => true | Raise _ => false end.

(** [int(x)] on a float: truncation toward zero. *)
Definition int_of (x : Q) : Z := Z.quot (Qnum x) (Zpos (Qden x)).

(** [a / b] on Python floats. *)
Definition truediv (a b : Q) : result Q :=
  if Qeq_bool b 0 then Raise ZeroDivisionError else Ok (a / b)%Q.

(** [range(a, b)]. *)
Definition range (a b : Z) : list Z :=
  map (fun k => (a + Z.of_nat k)%Z) (seq 0 (Z.to_nat (b - a))).

(** [sum] of a list of integers. *)
Definition sum (l : list Z) : Z := fold_right Z.add 0%Z l.

(** [sum] of a list of floats. *)
Definition fsum (l : list Q) : Q := fold_right Qplus 0%Q l.

(** [math.floor] and [math.ceil]. *)
Definition floor (x : Q) : Z := Qfloor x.
Definition ceil (x : Q) : Z := Qceiling x.

(** Round to the nearest integer, ties to the even one. *)
Definition round_half_even (y : Q) : Z :=
  let f := Qfloor y in
  match (y - inject_Z f ?= 1 # 2)%Q with
  | Lt => f
  | Gt => (f + 1)%Z
  | Eq => if Z.even f then f else (f + 1)%Z
  end.

(** [round(x, 2)] of the exact number: the nearest whole number of cents,
    a tie going to the even one.  (The interpreter rounds the float, which
    seldom sits on a tie exactly; away from ties the two agree.) *)
Definition round2 (x : Q) : Q := (inject_Z (round_half_even (x * 100)) / 100)%Q.

(** [int(a / b)] where the operands are numpy scalars: a zero divisor
    gives an infinity (or NaN for [0/0]) and [int] then raises. *)
Definition int_div (a b : Q) : result Z :=
  if Qeq_bool b 0
  then Raise (if Qeq_bool a 0 then ValueError else OverflowError)
  else Ok (int_of (a / b)).

(** [int(a / b)] where the operands are Python floats: a zero divisor
    raises. *)
Definition int_truediv (a b : Q) : result Z :=
  bind (truediv a b) (fun q => Ok (int_of q)).

(** The last [n] elements, [l[-n:]] for [n > 0]. *)
Definition lastn {A : Type} (n : nat) (l : list A) : list A :=
  skipn (length l - n) l.

(** [zip]. *)
Definition zip {A B : Type} (l : list A) (l' : list B) : list (A * B) :=
  combine l l'.

End Py.

Import Py.

Declare Scope py_scope.
Delimit Scope py_scope with py.
Notation "x <- m ;; k" := (Py.bind m (fun x => k))
(at level 61, m at next level, right associativity) : py_scope.
Open Scope py_scope.

(** ** The pandas operations the repository calls

    One float64 cell is [option Q]: [None] is NaN.  A division by a zero
    cell is not a finite number (numpy gives an infinity, NaN for 0/0)
    and is represented by [None] as well; the theorems that state or
    average such cells assume that no division is by zero. *)

Module Pandas.

Definition cell : Type := option Q.

Definition lift2 (f : Q -> Q -> Q) (a b : cell) : cell :=
  match a, b with
  | Some x, Some y => Some (f x y)
  | _, _ => None
  end.

Definition cadd : cell -> cell -> cell := lift2 Qplus.
Definition csub : cell -> cell -> cell := lift2 Qminus.

Definition cdiv (a b : cell) : cell :=
  match a, b with
  | Some x, Some y => if Qeq_bool y 0 then None else Some (x / y)%Q
  | _, _ => None
  end.

(** A frame is kept by columns: the row labels and, for every column, its
    label and its values (one per row). *)
Record DataFrame (L A : Type) : Type := mkFrame {
  index : list Z;
  columns : list (L * list A)
}.

(** A series: labelled values. *)
Definition Series (L A : Type) : Type := list (L * A).

Definition label : Type := (string * string)%type.

Definition label_eqb (a b : label) : bool :=
  (fst a =? fst b)%string && (snd a =? snd b)%string.

Fixpoint assoc {K A : Type} (eqb : K -> K -> bool) (k : K) (l : list (K * A))
  : option A :=
  match l with
  | [] => None
  | (k', a) :: l' => if eqb k k' then Some a else assoc eqb k l'
  end.

(** [s[k]] and [df[k]] for a label that may be absent. *)
Definition getitem {K A : Type} (eqb : K -> K -> bool) (k : K)
  (l : list (K * A)) : result A :=
  match assoc eqb k l with
  | Some a => Ok a
  | None => Raise KeyError
  end.

(** [df.loc[:, (slice(None), field)].values], by columns. *)
Definition loc_level1 {A : Type} (field : string) (df : DataFrame label A)
  : list (list A) :=
  map snd (filter (fun c => (snd (fst c) =? field)%string) (columns df)).

(** [df.xs(field, axis=1, level=1)]: the columns of one field, labelled by
    their symbol; a field that no column carries is a [KeyError]. *)
Definition xs_level1 {A : Type} (field : string) (df : DataFrame label A)
  : result (DataFrame string A) :=
  match filter (fun c => (snd (fst c) =? field)%string) (columns df) with
  | [] => Raise KeyError
  | cs => Ok (mkFrame (index df) (map (fun c => (fst (fst c), snd c)) cs))
  end.

(** [df[symbol]] on two-level columns: the columns of one symbol, labelled
    by their field. *)
Definition getitem_level0 {A : Type} (symbol : string) (df : DataFrame label A)
  : result (DataFrame string A) :=
  match filter (fun c => (fst (fst c) =? symbol)%string) (columns df) with
  | [] => Raise KeyError
  | cs => Ok (mkFrame (index df) (map (fun c => (snd (fst c), snd c)) cs))
  end.

(** [df.iloc[-n:]]. *)
Definition iloc_last {L A : Type} (n : nat) (df : DataFrame L A)
  : DataFrame L A :=
  mkFrame (lastn n (index df))
    (map (fun c => (fst c, lastn n (snd c))) (columns df)).

(** [df.columns.get_level_values(0).unique()]: first occurrences, in
    order. *)
Fixpoint unique (l : list string) : list string :=
  match l with
  | [] => []
  | x :: l' => x :: filter (fun y => negb (y =? x)%string) (unique l')
  end.

(** [s.pct_change()]: NaN first, then the relative change of each value
    against the one before it. *)
Fixpoint pct_change_from (prev : Q) (l : list Q) : list cell :=
  match l with
  | [] => []
  | p :: l' => cdiv (Some (p - prev)%Q) (Some prev) :: pct_change_from p l'
  end.

Definition pct_change (l : list Q) : list cell :=
  match l with
  | [] => []
  | p :: l' => None :: pct_change_from p l'
  end.

(** The valid (not NaN) values of a column. *)
Fixpoint valid (l : list cell) : list Q :=
  match l with
  | [] => []
  | Some x :: l' => x :: valid l'
  | None :: l' => valid l'
  end.

(** [s.sum()]: NaN skipped. *)
Definition nansum (l : list cell) : Q := fsum (valid l).

(** [s.mean()]: NaN skipped, NaN when nothing is left. *)
Definition mean (l : list cell) : cell :=
  match valid l with
  | [] => None
  | v => Some (fsum v / inject_Z (Z.of_nat (length v)))%Q
  end.

(** The sum of one window of [rolling(window=w).sum()]: NaN unless the
    window holds [w] valid values. *)
Definition window_sum (w : nat) (win : list cell) : cell :=
  if (length (valid win) =? w)%nat then Some (fsum (valid win)) else None.

(** [s.rolling(window=w).sum()]. *)
Definition rolling_sum (w : nat) (l : list cell) : list cell :=
  map (fun i => window_sum w (lastn w (firstn (S i) l))) (seq 0 (length l)).

(** [s.quantile(q)] with linear interpolation between order statistics:
    the sample is sorted, the position is [q * (n - 1)], and the value is
    interpolated between its two neighbours.  [q] outside [0, 1] is
    refused, an empty sample gives NaN. *)
Fixpoint insert_asc (x : Q) (l : list Q) : list Q :=
  match l with
  | [] => [x]
  | y :: l' => if Qle_bool x y then x :: l else y :: insert_asc x l'
  end.

Definition sort_asc (l : list Q) : list Q := fold_right insert_asc [] l.

(** The value at position [q * (n - 1)] of a sorted sample of [n] values. *)
Definition interpolate (sorted : list Q) (q : Q) : Q :=
  let pos := (q * inject_Z (Z.of_nat (length sorted) - 1))%Q in
  let lo := Z.to_nat (Qfloor pos) in
  let frac := (pos - inject_Z (Qfloor pos))%Q in
  let a := nth lo sorted 0%Q in
  let b := nth (S lo) sorted a in
  (a + (b - a) * frac)%Q.

Definition quantile (l : list Q) (q : Q) : result cell :=
  if negb (Qle_bool 0 q && Qle_bool q 1) then Raise ValueError
  else
    match sort_asc l with
    | [] => Ok None
    | sorted => Ok (Some (interpolate sorted q))
    end.

(** [s.sort_values(ascending=False)]: by value, largest first, NaN last.
    (pandas does not promise an order among equal values; the model keeps
    the one of an insertion sort.) *)
Fixpoint insert_desc {L : Type} (x : L * Q) (l : list (L * Q)) : list (L * Q) :=
  match l with
  | [] => [x]
  | y :: l' =>
      if Qle_bool (snd y) (snd x) then x :: l else y :: insert_desc x l'
  end.

Definition valid_items {L : Type} (s : Series L cell) : list (L * Q) :=
  flat_map
    (fun kv => match snd kv with Some x => [(fst kv, x)] | None => [] end) s.

Definition nan_items {L : Type} (s : Series L cell) : Series L cell :=
  filter (fun kv => match snd kv with Some _ => false | None => true end) s.

Definition sort_values_desc {L : Type} (s : Series L cell) : Series L cell :=
  map (fun kv => (fst kv, Some (snd kv)))
    (fold_right insert_desc [] (valid_items s))
  ++ nan_items s.

(** [s[[i, j]]] by position. *)
Definition take2 {A : Type} (i j : nat) (l : list A) : result (list A) :=
  match nth_error l i, nth_error l j with
  | Some a, Some b => Ok [a; b]
  | _, _ => Raise IndexError
  end.

(** [numpy.linspace(start, stop, num)]. *)
Definition linspace (start stop : Q) (num : nat) : list Q :=
  match num with
  | 0%nat => []
  | 1%nat => [start]
  | _ =>
      let step := ((stop - start) / inject_Z (Z.of_nat num - 1))%Q in
      map (fun i => (start + inject_Z (Z.of_nat i) * step)%Q) (seq 0 num)
  end.

End Pandas.

Import Pandas.

(** ** cf_strategy.py *)

Module CFStrategy.

(** Lines 131-136 of [create_sell_orders], repeated verbatim as lines
    164-169 of [create_buy_orders]: the quantity of each order. *)
Definition order_quantities (number_shares : Z) : result (list Z) :=
  let MAX_NUMBER_ORDERS := Z.min 20 number_shares in
  let quantities := map (fun x => (2 * x)%Z) (range 1 MAX_NUMBER_ORDERS) in
  scale <- truediv (inject_Z number_shares) (inject_Z (sum quantities)) ;;
  Ok (map (fun q => int_of (scale * inject_Z q))
        (filter (fun q => negb (int_of (scale * inject_Z q) =? 0)%Z)
           quantities)).

(** What [create_saved_order] receives. *)
Record saved_order : Type := mkOrder {
  so_symbol : string;
  so_price : Q;
  so_quantity : Z;
  so_instruction : string
}.

(** The brokerage client, as far as the strategy reads from it. *)
Record TDAmeritradeAPI : Type := mkAPI {
  askPrice : string -> Q;
  regularMarketLastPrice : string -> Q
}.

(** One row of the positions frame. *)
Record position : Type := mkPosition {
  symbol : string;
  currentDayProfitLossPercentage : Q;
  longQuantity : Z
}.

(** The attributes of a [CFStrategy] object. *)
Record strategy : Type := mkStrategy {
  _td_api : TDAmeritradeAPI;
  etf_bars : DataFrame label Q;
  etf_positions : list position;
  possible_etf_buys : list string
}.

(** Code that saves orders: it runs on the orders saved so far, and leaves
    them extended also when it ends in an exception. *)
Definition action : Type := list saved_order -> result unit * list saved_order.

Definition create_saved_order (o : saved_order) : action :=
  fun saved => (Ok tt, saved ++ [o]).

Definition raise (e : exn) : action := fun saved => (Raise e, saved).

(** A [for] loop whose body saves orders. *)
Fixpoint for_each {A : Type} (body : A -> action) (l : list A) : action :=
  fun saved =>
    match l with
    | [] => (Ok tt, saved)
    | x :: l' =>
        match body x saved with
        | (Ok _, saved') => for_each body l' saved'
        | (Raise e, saved') => (Raise e, saved')
        end
    end.

(** [s.mean()] of a series without NaN. *)
Definition fmean (l : list Q) : Q :=
  (fsum l / inject_Z (Z.of_nat (length l)))%Q.

Section Methods.

(** [Series.std]: a square root, taken from the numerical library. *)
Variable std : list Q -> Q.

Variable self : strategy.

(** [high - open_price] of one symbol, over the whole of [etf_bars]. *)
Definition open_to_high (sym : string) : result (list Q) :=
  high <- getitem label_eqb (sym, "high"%string) (columns (etf_bars self)) ;;
  open_price <- getitem label_eqb (sym, "open_price"%string)
                  (columns (etf_bars self)) ;;
  Ok (map (fun ho => (fst ho - snd ho)%Q) (zip high open_price)).

Definition create_sell_orders (sym : string) (number_shares : Z) : action :=
  match order_quantities number_shares with
  | Raise e => raise e
  | Ok quantities =>
      let current_price := askPrice (_td_api self) sym in
      match open_to_high sym with
      | Raise e => raise e
      | Ok o2h =>
          let avg := fmean o2h in
          let sd := std o2h in
          let lower_price := (current_price + 0.1 * avg)%Q in
          let upper_price := (current_price + (avg + 2 * sd))%Q in
          let prices := linspace lower_price upper_price (length quantities) in
          for_each
            (fun pq =>
               create_saved_order (mkOrder sym (fst pq) (snd pq) "SELL"))
            (zip prices quantities)
      end
  end.

Definition create_buy_orders (sym : string) (number_shares : Z) : action :=
  match order_quantities number_shares with
  | Raise e => raise e
  | Ok quantities =>
      let current_price := askPrice (_td_api self) sym in
      match open_to_high sym with
      | Raise e => raise e
      | Ok o2h =>
          let avg := fmean o2h in
          let sd := std o2h in
          let upper_price := (current_price - 0.1 * avg)%Q in
          let lower_price := (current_price - (avg + 2 * sd))%Q in
          let prices := linspace upper_price lower_price (length quantities) in
          for_each
            (fun pq =>
               create_saved_order (mkOrder sym (fst pq) (snd pq) "BUY"))
            (zip prices quantities)
      end
  end.

(** The rows that [run_sell_strategy] keeps:
    [sells[sells["currentDayProfitLossPercentage"] > .01]]. *)
Definition sells : list position :=
  filter (fun p => negb (Qle_bool (currentDayProfitLossPercentage p) 0.01))
    (etf_positions self).

Definition run_sell_strategy : action :=
  for_each (fun asset => create_sell_orders (symbol asset) (longQuantity asset))
    sells.

(** The score of one column of closing prices. *)
Definition score_30_day (P : list Q) : cell :=
  let dP := skipn 1 (pct_change P) in
  let avg_60 := mean (rolling_sum 60 dP) in
  let last_30 := nansum (lastn 30 dP) in
  csub avg_60 (Some last_30).

Fixpoint select_columns {A : Type} (names : list string)
  (cols : list (string * A)) : result (list (string * A)) :=
  match names with
  | [] => Ok []
  | n :: names' =>
      c <- getitem String.eqb n cols ;;
      cs <- select_columns names' cols ;;
      Ok ((n, c) :: cs)
  end.

Definition _estimate_30_day_return : result (Series string cell) :=
  closes <- xs_level1 "close_price" (etf_bars self) ;;
  P <- select_columns (possible_etf_buys self) (columns closes) ;;
  Ok (map (fun c => (fst c, score_30_day (snd c))) P).

Fixpoint map_result {A B : Type} (f : A -> result B) (l : list A)
  : result (list B) :=
  match l with
  | [] => Ok []
  | x :: l' => y <- f x ;; ys <- map_result f l' ;; Ok (y :: ys)
  end.

(** Lines 206-210 of [run_buy_strategy]: the (ticker, number of shares)
    pairs that the loop then hands to [create_buy_orders]. *)
Definition buy_orders : result (list (string * Z)) :=
  estimate <- _estimate_30_day_return ;;
  let buy_ranking := sort_values_desc estimate in
  tickers <- take2 0 10 (map fst buy_ranking) ;;
  let quotes := map (regularMarketLastPrice (_td_api self)) tickers in
  (* iterating the series hands out Python floats *)
  number_shares <- map_result (fun q => int_truediv 500 q) quotes ;;
  Ok (zip tickers number_shares).

Definition run_buy_strategy : action :=
  match buy_orders with
  | Raise e => raise e
  | Ok orders =>
      for_each (fun row => create_buy_orders (fst row) (snd row)) orders
  end.

End Methods.

End CFStrategy.

Import CFStrategy.

(** ** orders.py *)

Module Orders.

(** The dictionary a bracket order is returned as. *)
Record bracket_order : Type := mkBracket {
  bo_symbol : string;
  bo_instruction : string;
  bo_quantity : Z;
  bo_price : cell;
  bo_tif : string;
  bo_outside_rth : bool;
  bo_profit_price : cell;
  bo_stop_price : option Q
}.

(** The dictionary a pegged order is returned as. *)
Record pegged_order : Type := mkPegged {
  po_symbol : string;
  po_instruction : string;
  po_quantity : Z;
  po_starting_price : Q;
  po_outside_rth : bool;
  po_tif : string;
  po_peg_change_amount : Q;
  po_ref_change_amount : Q;
  po_ref_symbol : string;
  po_ref_price : Q;
  po_ref_lower_price : Q;
  po_ref_upper_price : Q
}.

(** Element-wise difference of two columns of one frame. *)
Definition series_sub (a b : list Q) : list Q :=
  map (fun xy => (fst xy - snd xy)%Q) (zip a b).

Definition smart_bracket (symbol instruction : string) (quantity : Z)
  (amount limit_prob profit_prob : Q)
  (bars : DataFrame label Q) (quotes : Series string Q)
  : result bracket_order :=
  let n_days := 50%nat in
  of_symbol <- getitem_level0 symbol bars ;;
  let prices := iloc_last n_days of_symbol in
  p_open <- getitem String.eqb "open_price"%string (columns prices) ;;
  p_low <- getitem String.eqb "low"%string (columns prices) ;;
  p_high <- getitem String.eqb "high"%string (columns prices) ;;
  let low := series_sub p_open p_low in
  let high := series_sub p_high p_open in
  let hilo := series_sub p_high p_low in
  quote <- getitem String.eqb symbol quotes ;;
  bound <-
    (if (instruction =? "BUY")%string then
       q1 <- quantile low (1 - limit_prob) ;;
       let limit_price := csub (Some quote) q1 in
       q2 <- quantile hilo (1 - profit_prob) ;;
       let profit_price := cadd limit_price q2 in
       Ok (Some (limit_price, profit_price))
     else if (instruction =? "SELL")%string then
       q1 <- quantile high (1 - limit_prob) ;;
       let limit_price := cadd (Some quote) q1 in
       q2 <- quantile hilo (1 - profit_prob) ;;
       let profit_price := csub limit_price q2 in
       Ok (Some (limit_price, profit_price))
     else Ok None) ;;
  (* the argument [quantity] is overwritten here *)
  quantity <- int_div amount quote ;;
  match bound with
  | None => Raise UnboundLocalError
  | Some (limit_price, profit_price) =>
      Ok (mkBracket symbol instruction quantity
            (option_map round2 limit_price) "DAY" true
            (option_map round2 profit_price) None)
  end.

Definition auto_pegged (symbol instruction : string) (amount : Q)
  (ref_symbol : string) (quotes : Series string Q) : result pegged_order :=
  quote <- getitem String.eqb symbol quotes ;;
  ref_quote <- getitem String.eqb ref_symbol quotes ;;
  quantity <- int_div amount quote ;;
  (* here [quote] is not zero.  On a zero reference quote the ratio is an
     infinity of the sign of [quote]: [math.floor] refuses the positive
     one, and for the negative one [math.ceil(1. / ratio)] is 0 *)
  changes <-
    (if Qeq_bool ref_quote 0 then
       if Qle_bool quote 0 then Ok (0.01, 0.01 * inject_Z 0)%Q
       else Raise OverflowError
     else
       let ratio := (quote / ref_quote)%Q in
       let changes1 :=
         if negb (Qle_bool ratio 1)
         then Some (0.01 * inject_Z (floor ratio), 0.01)%Q
         else None in
       let changes2 :=
         if Qle_bool ratio 1
         then Some (0.01, 0.01 * inject_Z (ceil (1 / ratio)))%Q
         else changes1 in
       match changes2 with
       | Some c => Ok c
       | None => Raise UnboundLocalError
       end) ;;
  let peg_change_amount := fst changes in
  let ref_change_amount := snd changes in
  let ref_price := ref_quote in
  let starting_price :=
    if (instruction =? "BUY")%string then Some (round2 (quote * 0.995))
    else if (instruction =? "SELL")%string then Some (round2 (quote * 1.005))
    else None in
  let ref_lower_price := round2 (0.9 * ref_quote) in
  let ref_upper_price := round2 (1.1 * ref_quote) in
  match starting_price with
  | None => Raise UnboundLocalError
  | Some starting_price =>
      Ok (mkPegged symbol instruction quantity starting_price false "DAY"
            peg_change_amount ref_change_amount ref_symbol ref_price
            ref_lower_price ref_upper_price)
  end.

End Orders.

Import Orders.

(** ** orders.py in binary floating point

    Where a whole cent hangs on the rounding of a quotient, the exact
    rationals are not the program: 3.3 / 1.1 is below 3 in binary64, and
    1. / (1. / 49.) is above 49.  [auto_pegged] is therefore embedded a
    second time, over the binary64 numbers the interpreter computes with
    (the primitive floats: IEEE 754 operations, rounded to nearest even);
    [Orders.auto_pegged] is its idealisation, used where only the order of
    the results matters. *)

Module Doubles.

Import Floats.
#[local] Open Scope float_scope.
#[local] Set Warnings "-inexact-float".

(** The number a float stands for, when it is one: not NaN, not an
    infinity. *)
Definition value (x : float) : option Q :=
  match Prim2SF x with
  | S754_zero _ => Some 0%Q
  | S754_finite s m e =>
      let v := Qred (inject_Z (Zpos m) * 2 ^ e)%Q in
      Some (if s then (- v)%Q else v)
  | S754_infinity _ => None
  | S754_nan => None
  end.

Definition is_nan (x : float) : bool :=
  match Prim2SF x with
  | S754_nan => true
  | _ => false
  end.

(** What [int], [math.floor] and [math.ceil] raise on a float that is
    not a number. *)
Definition refused (x : float) : exn :=
  if is_nan x then ValueError else OverflowError.

(** [int(x)]. *)
Definition int_of (x : float) : result Z :=
  match value x with
  | Some v => Ok (Py.int_of v)
  | None => Raise (refused x)
  end.

(** [math.floor(x)] and [math.ceil(x)]. *)
Definition floor (x : float) : result Z :=
  match value x with
  | Some v => Ok (Qfloor v)
  | None => Raise (refused x)
  end.

Definition ceil (x : float) : result Z :=
  match value x with
  | Some v => Ok (Qceiling v)
  | None => Raise (refused x)
  end.

(** The float an [int] becomes as an operand of a float operation: the
    nearest one. *)
Definition of_int (k : Z) : float :=
  SF2Prim (binary_normalize prec emax k 0 false).

(** The dictionary a pegged order is returned as. *)
Record pegged_order : Type := mkPegged {
  po_symbol : string;
  po_instruction : string;
  po_quantity : Z;
  po_starting_price : float;
  po_outside_rth : bool;
  po_tif : string;
  po_peg_change_amount : float;
  po_ref_change_amount : float;
  po_ref_symbol : string;
  po_ref_price : float;
  po_ref_lower_price : float;
  po_ref_upper_price : float
}.

Section Rounded.

(** [round(x, 2)], taken from the numerical library. *)
Variable round2 : float -> float.

Definition auto_pegged (symbol instruction : string) (amount : float)
  (ref_symbol : string) (quotes : Series string float)
  : result pegged_order :=
  quote <- getitem String.eqb symbol quotes ;;
  ref_quote <- getitem String.eqb ref_symbol quotes ;;
  quantity <- int_of (amount / quote) ;;
  let ratio := quote / ref_quote in
  changes1 <-
    (if 1 <? ratio
     then k <- floor ratio ;; Ok (Some (0.01 * of_int k, 0.01))
     else Ok None) ;;
  changes2 <-
    (if ratio <=? 1
     then k <- ceil (1 / ratio) ;; Ok (Some (0.01, 0.01 * of_int k))
     else Ok changes1) ;;
  let ref_price := ref_quote in
  let starting_price :=
    if (instruction =? "BUY")%string then Some (round2 (quote * 0.995))
    else if (instruction =? "SELL")%string then Some (round2 (quote * 1.005))
    else None in
  let ref_lower_price := round2 (0.9 * ref_quote) in
  let ref_upper_price := round2 (1.1 * ref_quote) in
  match starting_price, changes2 with
  | Some starting_price, Some (peg_change_amount, ref_change_amount) =>
      Ok (mkPegged symbol instruction quantity starting_price false "DAY"
            peg_change_amount ref_change_amount ref_symbol ref_price
            ref_lower_price ref_upper_price)
  | _, _ => Raise UnboundLocalError
  end.

End Rounded.

End Doubles.

(** ** price_calcs.py *)

Module PriceCalcs.

(** An element-wise operation on two numpy arrays with as many rows,
    kept by columns: equal widths combine column by column, a width of
    one is broadcast, any other pair of widths is refused. *)
Definition zip_with {A B C : Type} (f : A -> B -> C) (a : list A) (b : list B)
  : list C :=
  map (fun xy => f (fst xy) (snd xy)) (zip a b).

Definition array_op {A B C : Type} (f : A -> B -> C)
  (a : list (list A)) (b : list (list B)) : result (list (list C)) :=
  if (length a =? length b)%nat then Ok (zip_with (zip_with f) a b)
  else
    match a, b with
    | [ca], _ => Ok (map (fun cb => zip_with f ca cb) b)
    | _, [cb] => Ok (map (fun ca => zip_with f ca cb) a)
    | _, _ => Raise ValueError
    end.

(** [df.loc[:, (slice(None), field)]] for reading: a field no column has
    is a [KeyError]. *)
Definition loc_field {A : Type} (field : string) (df : DataFrame label A)
  : result (list (list A)) :=
  match loc_level1 field df with
  | [] => Raise KeyError
  | cs => Ok cs
  end.

(** [df.loc[:, (slice(None), field)] = values]: the columns of [field]
    take the columns of [values], in order. *)
Fixpoint assign_columns {A : Type} (field : string) (values : list (list A))
  (cols : list (label * list A)) : list (label * list A) :=
  match cols with
  | [] => []
  | c :: cols' =>
      if (snd (fst c) =? field)%string then
        match values with
        | v :: values' => (fst c, v) :: assign_columns field values' cols'
        | [] => c :: assign_columns field [] cols'
        end
      else c :: assign_columns field values cols'
  end.

Definition loc_field_set {A : Type} (field : string) (values : list (list A))
  (df : DataFrame label A) : result (DataFrame label A) :=
  let k := length (loc_level1 field df) in
  if (k =? 0)%nat then Raise KeyError
  else if (length values =? k)%nat
  then Ok (mkFrame (index df) (assign_columns field values (columns df)))
  else
    match values with
    | [v] =>
        Ok (mkFrame (index df)
              (assign_columns field (repeat v k) (columns df)))
    | _ => Raise ValueError
    end.

(** [pd.MultiIndex.from_product([symbols, fields])]. *)
Definition from_product (symbols fields : list string) : list label :=
  flat_map (fun s => map (fun f => (s, f)) fields) symbols.

Definition symbols_of {A : Type} (df : DataFrame label A) : list string :=
  unique (map (fun c => fst (fst c)) (columns df)).

Definition calc_differentials (bars : DataFrame label Q)
  : result (DataFrame label cell) :=
  o <- loc_field "open_price" bars ;;
  let open_price := map (skipn 1) o in
  c <- loc_field "close_price" bars ;;
  let close_price := map (skipn 1) c in
  h <- loc_field "high" bars ;;
  let high := map (skipn 1) h in
  l <- loc_field "low" bars ;;
  let low := map (skipn 1) l in
  pc <- loc_field "close_price" bars ;;
  let previous_close_price := map (@removelast Q) pc in
  let rel := fun x y => cdiv (Some (x - y)%Q) (Some y) in
  cc <- array_op rel close_price previous_close_price ;;
  co <- array_op rel open_price previous_close_price ;;
  oc <- array_op rel close_price open_price ;;
  high <- array_op rel high open_price ;;
  low <- array_op rel low open_price ;;
  let symbols := symbols_of bars in
  let rows := skipn 1 (index bars) in
  let data :=
    mkFrame rows
      (map (fun lab => (lab, repeat (@None Q) (length rows)))
         (from_product symbols ["cc"; "co"; "oc"; "high"; "low"]%string)) in
  data <- loc_field_set "cc" cc data ;;
  data <- loc_field_set "co" co data ;;
  data <- loc_field_set "oc" oc data ;;
  data <- loc_field_set "high" high data ;;
  data <- loc_field_set "low" low data ;;
  Ok data.

(** A frame that is filled row by row: the column labels and, for every
    row label, the values of the row. *)
Record RowFrame (L A : Type) : Type := mkRows {
  rf_columns : list L;
  rf_rows : list (Z * list A)
}.

(** [df.loc[i] = row] for a row label the frame has. *)
Fixpoint set_row {A : Type} (i : Z) (row : list A) (rows : list (Z * list A))
  : list (Z * list A) :=
  match rows with
  | [] => []
  | r :: rows' =>
      if (fst r =? i)%Z then (i, row) :: rows' else r :: set_row i row rows'
  end.

Definition scaled_price_change (prices : DataFrame string Q)
  : RowFrame string cell :=
  let dP :=
    map (fun c => rev (skipn 1 (pct_change (snd c)))) (columns prices) in
  let max_window_length :=
    int_of (inject_Z (Z.of_nat (length (index prices))) / 4) in
  let scaled_dP :=
    map (fun i => (i, map (fun _ => @None Q) (columns prices)))
      (range 1 max_window_length) in
  let body := fun scaled_dP i =>
    let avg := map (fun c => mean (rolling_sum (Z.to_nat i) c)) dP in
    (* [std], a square root, is computed here and never used *)
    let scaled_dP :=
      set_row i
        (zip_with csub (map (fun c => mean (firstn (Z.to_nat i) c)) dP) avg)
        scaled_dP in
    set_row i (map (fun c => mean (firstn (Z.to_nat i) c)) dP) scaled_dP in
  mkRows (map fst (columns prices))
    (fold_left body (range 1 max_window_length) scaled_dP).

End PriceCalcs.

Import PriceCalcs.

(** ** Factor decomposition

    [pca_analysis] works with square roots, so this part is over the real
    numbers.  A table is kept by columns, one list of values (over the
    dates) per column.  The principal component fit of scikit-learn is a
    parameter: for a table [X] of standardized columns it returns the
    scores, one column per component. *)

Module Factor.

Import Reals Lra.
Local Open Scope R_scope.

Definition rsum (x : list R) : R := fold_right Rplus 0 x.

(** [np.dot] of two vectors. *)
Definition dot (x y : list R) : R :=
  rsum (map (fun p => fst p * snd p) (combine x y)).

(** The L2 norm. *)
Definition l2 (x : list R) : R := sqrt (dot x x).

(** [x.mean()] and [x.std()] (the sample deviation, one degree of freedom
    removed). *)
Definition col_mean (x : list R) : R := rsum x / INR (length x).

Definition col_std (x : list R) : R :=
  sqrt (rsum (map (fun v => (v - col_mean x) * (v - col_mean x)) x)
        / (INR (length x) - 1)).

(** [(x - x.mean()) / x.std()]. *)
Definition standardize (x : list R) : list R :=
  map (fun v => (v - col_mean x) / col_std x) x.

(** [x / np.sqrt(np.dot(x, x))]. *)
Definition normalize (x : list R) : list R :=
  map (fun v => v / sqrt (dot x x)) x.

(** The row of a table at one position. *)
Definition row (i : nat) (m : list (list R)) : list R :=
  map (fun col => nth i col 0) m.

Record factor_result : Type := mkFactor {
  norm_loadings : list (list R);
  projections : list (list R)
}.

Section Analysis.

(** [PCA(n_components=n).fit(X).transform(X)]. *)
Variable pca_transform : nat -> list (list R) -> list (list R).

(** [DataFrame.apply] hands the function one column at a time: each
    symbol is standardized over the dates, and each component's scores
    are normalized over the dates.  The fit refuses a table of fewer than
    four dates or four symbols; the definition is the run on a table it
    accepts. *)
Definition pca_analysis (prices : list (list R)) : factor_result :=
  let X := map standardize prices in
  let n_components := 4%nat in
  let loadings := pca_transform n_components X in
  let norm_loadings := map normalize loadings in
  let proj := map (fun nl => map (fun p => dot nl p) prices) norm_loadings in
  mkFactor norm_loadings proj.

End Analysis.

(** *** A table of five dates and four symbols *)

(** The number of rows of a table. *)
Definition n_rows (m : list (list R)) : nat :=
  match m with
  | [] => 0%nat
  | col :: _ => length col
  end.

(** The scores of the rows of [X] along the direction [v]. *)
Definition transform (X : list (list R)) (v : list R) : list R :=
  map (fun i => dot (row i X) v) (seq 0 (n_rows X)).

Definition orthonormal (V : list (list R)) : Prop :=
  forall j k vj vk,
    nth_error V j = Some vj -> nth_error V k = Some vk ->
    dot vj vk = if Nat.eqb j k then 1 else 0.

(** What a principal component fit returns on a centred table [X]: the
    scores along orthonormal directions, uncorrelated with each other and
    in the order of decreasing variance. *)
Definition principal_scores (X T : list (list R)) : Prop :=
  exists V,
    Forall (fun v => length v = length X) V /\
    orthonormal V /\
    T = map (transform X) V /\
    (forall j k tj tk,
       j <> k -> nth_error T j = Some tj -> nth_error T k = Some tk ->
       dot tj tk = 0) /\
    (forall k tk tk',
       nth_error T k = Some tk -> nth_error T (S k) = Some tk' ->
       dot tk' tk' <= dot tk tk).

(** The property the specification states of the rows, for a fit that
    returns principal scores. *)
Definition rows_unit : Prop :=
  forall (pca_transform : nat -> list (list R) -> list (list R))
         (prices : list (list R)),
    principal_scores (map standardize prices)
      (pca_transform 4%nat (map standardize prices)) ->
    Forall (fun p => col_std p <> 0) prices ->
    forall i, (i < n_rows prices)%nat ->
      Rabs (l2 (row i (norm_loadings (pca_analysis pca_transform prices))) - 1)
      <= 1 / 1000000000.

Definition example_prices : list (list R) :=
  [[115; 95; 105; 90; 95];
   [105; 85; 110; 95; 105];
   [215 / 2; 175 / 2; 195 / 2; 225 / 2; 95];
   [225 / 2; 185 / 2; 175 / 2; 205 / 2; 105]].

Definition example_standardized : list (list R) :=
  [[3 / 2; - 1 / 2; 1 / 2; - 1; - 1 / 2];
   [1 / 2; - 3 / 2; 1; - 1 / 2; 1 / 2];
   [3 / 4; - 5 / 4; - 1 / 4; 5 / 4; - 1 / 2];
   [5 / 4; - 3 / 4; - 5 / 4; 1 / 4; 1 / 2]].

Definition example_directions : list (list R) :=
  [[1 / 2; 1 / 2; 1 / 2; 1 / 2];
   [1 / 2; 1 / 2; - 1 / 2; - 1 / 2];
   [1 / 2; - 1 / 2; - 1 / 2; 1 / 2];
   [1 / 2; - 1 / 2; 1 / 2; - 1 / 2]].

Definition example_scores : list (list R) :=
  [[2; - 2; 0; 0; 0];
   [0; 0; 3 / 2; - 3 / 2; 0];
   [3 / 4; 3 / 4; - 3 / 4; - 3 / 4; 0];
   [1 / 4; 1 / 4; 1 / 4; 1 / 4; - 1]].

End Factor.

(** ** The vocabulary of the statements

    What the theorems below speak of besides the code: the words of the
    specification, and the tables the examples run on. *)

(** The weights [2, 4, ..., 2*(cap-1)]. *)
Definition weights (cap : Z) : list Z :=
  map (fun x => (2 * x)%Z) (range 1 cap).

Section SellLadder.

Variable std : list Q -> Q.
Variable self : strategy.

(** The orders one call of [create_sell_orders] saves when nothing is
    raised. *)
Definition sell_ladder (sym : string) (number_shares : Z) : list saved_order :=
  match order_quantities number_shares, open_to_high self sym with
  | Ok quantities, Ok o2h =>
      let current_price := askPrice (_td_api self) sym in
      let avg := fmean o2h in
      let sd := std o2h in
      map (fun pq => mkOrder sym (fst pq) (snd pq) "SELL")
        (zip (linspace (current_price + 0.1 * avg)
                (current_price + (avg + 2 * sd)) (length quantities))
           quantities)
  | _, _ => []
  end.

End SellLadder.

(** A snapshot with two positions over the threshold, the first of a
    single share. *)
Definition two_sellable : strategy :=
  mkStrategy
    (mkAPI (fun _ => 10) (fun _ => 10))
    (mkFrame [0; 1]%Z
       [(("AAA", "high"), [11; 12]); (("AAA", "open_price"), [10; 10]);
        (("BBB", "high"), [21; 22]); (("BBB", "open_price"), [20; 20])]%string)
    [mkPosition "AAA" 0.02 1; mkPosition "BBB" 0.02 100]
    [].

(** The outcome of a quantile is the number [x], up to the representation
    of fractions. *)
Definition is_value (r : result cell) (x : Q) : Prop :=
  match r with
  | Ok (Some y) => (y == x)%Q
  | _ => False
  end.

(** The history of one field of one symbol: the column [(symbol, field)]
    of the bars. *)
Definition history (bars : DataFrame label Q) (symbol field : string)
  : result (list Q) :=
  getitem label_eqb (symbol, field) (columns bars).

(** [quantile(x, q)], linear-interpolated between order statistics, of a
    sample that is not empty. *)
Definition quantile_linear (x : list Q) (q : Q) : Q :=
  interpolate (sort_asc x) q.

(** Three bars of one symbol, and its quote. *)
Definition example_bars : DataFrame label Q :=
  mkFrame [0; 1; 2]%Z
    [(("XYZ", "open_price"), [10; 10; 10]);
     (("XYZ", "high"), [11; 12; 13]);
     (("XYZ", "low"), [9; 8; 7]);
     (("XYZ", "close_price"), [10; 11; 12])]%string.

Definition example_quotes : Series string Q := [("XYZ"%string, 10)].

(** Sixty bars of one symbol, open at 10 throughout.  The ten oldest are
    wide (low 1, high 100); the fifty after them repeat, in this order,
    the lows 7, 9, 8, 5, 6 and the highs 11, 11, 12, 12, 13. *)
Definition sixty_bars : DataFrame label Q :=
  mkFrame (range 0 60)
    [(("XYZ", "open_price"), repeat 10 60);
     (("XYZ", "high"),
      (repeat 100 10
       ++ flat_map (fun _ => [11; 11; 12; 12; 13]) (seq 0 10))%list);
     (("XYZ", "low"),
      (repeat 1 10 ++ flat_map (fun _ => [7; 9; 8; 5; 6]) (seq 0 10))%list);
     (("XYZ", "close_price"), repeat 10 60)]%string.

(** The words of the specification of a bracket order.  [recent] holds
    the last [n] values of [x], or all of them when there are fewer. *)
Definition last_values (n : nat) (x recent : list Q) : Prop :=
  exists older, x = (older ++ recent)%list /\
                length recent = Nat.min n (length x).

(** Bar by bar, the first field less the second. *)
Definition differences (a b : list Q) : list Q :=
  map (fun p => (fst p - snd p)%Q) (combine a b).

(** [v] is the quantile [q] of the sample [x] by linear interpolation:
    with the sample in ascending order, [v] lies at position
    [q * (n - 1)], between the order statistics [i] and [i + 1] around
    that position. *)
Definition linear_quantile (x : list Q) (q v : Q) : Prop :=
  exists (s : list Q) (i : nat) (t : Q),
    Permutation s x /\ StronglySorted Qle s /\
    (inject_Z (Z.of_nat i) + t
     == q * (inject_Z (Z.of_nat (length x)) - 1))%Q /\
    (0 <= t < 1)%Q /\
    (v == (1 - t) * nth i s 0 + t * nth (S i) s 0)%Q.

(** The cell [c] holds [x] rounded to two decimals: a whole number of
    cents, none nearer to [x]. *)
Definition rounds_to_cents (x : Q) (c : cell) : Prop :=
  exists (p : Q) (k : Z),
    c = Some p /\ (p == inject_Z k / 100)%Q /\
    (- (1 # 200) <= p - x <= 1 # 200)%Q.

(** The fifty recent bars of the table below: lows and highs around an
    open of 10, the highs with four tenths of a cent. *)
Definition recent_lows : list Q :=
  flat_map (fun _ => [7; 9; 8; 5; 6]) (seq 0 10).

Definition recent_highs : list Q :=
  flat_map (fun _ => [11.004; 11.004; 12.004; 12.004; 13.004]) (seq 0 10).

(** Sixty bars of one symbol, open at 10 throughout; the ten oldest are
    wide (low 1, high 100).  The quote is 10.004. *)
Definition fine_bars : DataFrame label Q :=
  mkFrame (range 0 60)
    [(("XYZ", "open_price"), repeat 10 60);
     (("XYZ", "high"), (repeat 100 10 ++ recent_highs)%list);
     (("XYZ", "low"), (repeat 1 10 ++ recent_lows)%list);
     (("XYZ", "close_price"), repeat 10 60)]%string.

Definition fine_quotes : Series string Q := [("XYZ"%string, 10.004)].

Section RankingOrder.

Context {L : Type}.

(** Largest value first. *)
Definition desc (a b : L * Q) : Prop := (snd b <= snd a)%Q.

Definition some_item (kv : L * Q) : L * cell := (fst kv, Some (snd kv)).

End RankingOrder.

(** The daily returns of a column of prices, oldest first. *)
Fixpoint returns_from (prev : Q) (l : list Q) : list Q :=
  match l with
  | [] => []
  | p :: l' => ((p - prev) / prev)%Q :: returns_from p l'
  end.

Definition returns (P : list Q) : list Q :=
  match P with
  | [] => []
  | p :: l => returns_from p l
  end.



Definition nonzero (x : Q) : Prop := ~ (x == 0)%Q.


(** Twelve candidates with 62 closing prices each: the price is 1 on all
    days but the last, where candidate number [k] closes at [k + 1]; its
    score is [- k / 2]. *)
Definition twelve_names : list string :=
  ["A"; "B"; "C"; "D"; "E"; "F"; "G"; "H"; "I"; "J"; "K"; "L"]%string.

Definition twelve_candidates : strategy :=
  mkStrategy
    (mkAPI (fun _ => 10) (fun s => if (s =? "A")%string then 100 else 40))
    (mkFrame (range 0 62)
       (map (fun nk => ((fst nk, "close_price"%string),
                        repeat 1%Q 61 ++ [inject_Z (snd nk + 1)]))
          (zip twelve_names (range 0 12))))
    []
    twelve_names.

(** The sum of a list of numbers. *)
Fixpoint total (l : list Q) : Q :=
  match l with
  | [] => 0
  | x :: l' => x + total l'
  end.

(** The plain mean of the [w] most recent returns: the first [w] of the
    series reversed, added up and divided by [w]. *)
Definition mean_recent (w : nat) (r : list Q) : Q :=
  (total (firstn w (rev r)) / inject_Z (Z.of_nat w))%Q.

(** The plain mean of a list of numbers: their sum divided by their
    count. *)
Definition plain_mean (l : list Q) : Q :=
  (total l / inject_Z (Z.of_nat (length l)))%Q.

(** Sixteen prices of two symbols: three rows, for the windows 1 to 3.
    The last returns are 1, 1/2, 1 for XYZ and -1/2, 1/4, -1/5 for ABC,
    whose oldest price is zero. *)
Definition sixteen_prices : DataFrame string Q :=
  mkFrame (range 0 16)
    [("XYZ"%string, (repeat 1 13 ++ [2; 3; 6])%list);
     ("ABC"%string, (0 :: repeat 8 12 ++ [4; 5; 4])%list)].

(** The cell of a frame filled by rows, at a row label and a column
    position. *)
Definition row_cell {A : Type} (out : RowFrame string A) (w : Z) (j : nat)
  : option A :=
  match assoc Z.eqb w (rf_rows out) with
  | Some row => nth_error row j
  | None => None
  end.

(** The relative change [(x - y) / y]; not a finite number when [y] is
    zero. *)
Definition rel (x y : Q) : cell := cdiv (Some (x - y)%Q) (Some y).

(** The cell of a frame at a column label and a row position. *)
Definition cell_at {A : Type} (df : DataFrame label A) (lab : label) (i : nat)
  : option A :=
  match assoc label_eqb lab (columns df) with
  | Some col => nth_error col i
  | None => None
  end.

Definition is_field (f : string) (lab : label) : bool := (snd lab =? f)%string.

(** The symbols of the columns of one field, in the order of the columns. *)
Definition field_symbols (f : string) (labels : list label) : list string :=
  map fst (filter (is_field f) labels).

Definition price_types : list string :=
  ["open_price"; "high"; "low"; "close_price"]%string.

(** A price table: every column has one value per date, and every price
    type lists the same symbols in the same order. *)
Definition price_table (bars : DataFrame label Q) : Prop :=
  Forall (fun c => length (snd c) = length (index bars)) (columns bars) /\
  symbols_of bars <> [] /\
  Forall (fun f => field_symbols f (map fst (columns bars)) = symbols_of bars)
    price_types.

Definition differential_fields : list string :=
  ["cc"; "co"; "oc"; "high"; "low"]%string.

Section FilledTable.

Variable bars : DataFrame label Q.

(** The array of one differential: column by column, the relative change
    of the rows after the first of field [fa] against the rows of field
    [fb] that [g] keeps. *)
Definition differential (g : list Q -> list Q) (fa fb : string)
  : list (list cell) :=
  zip_with (fun a b => zip_with rel (skipn 1 a) (g b))
    (loc_level1 fa bars) (loc_level1 fb bars).

Definition blank_columns : list (label * list cell) :=
  map (fun lab => (lab, repeat (@None Q) (length (skipn 1 (index bars)))))
    (from_product (symbols_of bars) differential_fields).

Definition filled_columns : list (label * list cell) :=
  assign_columns "low" (differential (skipn 1) "low" "open_price")
    (assign_columns "high" (differential (skipn 1) "high" "open_price")
       (assign_columns "oc" (differential (skipn 1) "close_price" "open_price")
          (assign_columns "co"
             (differential (@removelast Q) "open_price" "close_price")
             (assign_columns "cc"
                (differential (@removelast Q) "close_price" "close_price")
                blank_columns)))).

End FilledTable.

(** Two dates of two symbols. *)
Definition two_bars : DataFrame label Q :=
  mkFrame [0; 1]%Z
    [(("AAA", "open_price"), [100; 105]); (("AAA", "high"), [101; 112]);
     (("AAA", "low"), [99; 104]); (("AAA", "close_price"), [100; 110]);
     (("BBB", "open_price"), [20; 21]); (("BBB", "high"), [22; 23]);
     (("BBB", "low"), [19; 20]); (("BBB", "close_price"), [20; 22])]%string.

(** Three dates of two symbols. *)
Definition three_bars : DataFrame label Q :=
  mkFrame [0; 1; 2]%Z
    [(("AAA", "open_price"), [100; 105; 120]);
     (("AAA", "high"), [101; 112; 126]);
     (("AAA", "low"), [99; 104; 114]);
     (("AAA", "close_price"), [100; 110; 121]);
     (("BBB", "open_price"), [20; 21; 24]);
     (("BBB", "high"), [22; 26; 25]);
     (("BBB", "low"), [19; 20; 22]);
     (("BBB", "close_price"), [20; 25; 23])]%string.

(** The cell is there and holds the number [x], up to the representation
    of fractions. *)
Definition holds (c : option cell) (x : Q) : Prop :=
  match c with
  | Some (Some y) => (y == x)%Q
  | _ => False
  end.

Section BuyLadder.

Variable std : list Q -> Q.
Variable self : strategy.

(** The orders one call of [create_buy_orders] saves when nothing is
    raised. *)
Definition buy_ladder (sym : string) (number_shares : Z) : list saved_order :=
  match order_quantities number_shares, open_to_high self sym with
  | Ok quantities, Ok o2h =>
      let current_price := askPrice (_td_api self) sym in
      let avg := fmean o2h in
      let sd := std o2h in
      map (fun pq => mkOrder sym (fst pq) (snd pq) "BUY")
        (zip (linspace (current_price - 0.1 * avg)
                (current_price - (avg + 2 * sd)) (length quantities))
           quantities)
  | _, _ => []
  end.

End BuyLadder.

(** A snapshot with one position over the threshold and one under it. *)
Definition one_sellable : strategy :=
  mkStrategy
    (mkAPI (fun _ => 10) (fun _ => 10))
    (mkFrame [0; 1]%Z
       [(("AAA", "high"), [11; 12]); (("AAA", "open_price"), [10; 10]);
        (("BBB", "high"), [21; 22]); (("BBB", "open_price"), [20; 20])]%string)
    [mkPosition "AAA" 0.02 5; mkPosition "BBB" 0.005 100]
    [].

(** Sell orders: a higher price never comes with a smaller quantity. *)
Definition rising (o o' : saved_order) : Prop :=
  (so_price o <= so_price o')%Q /\ (so_quantity o <= so_quantity o')%Z.

(** Buy orders: a lower price never comes with a smaller quantity. *)
Definition falling (o o' : saved_order) : Prop :=
  (so_price o' <= so_price o)%Q /\ (so_quantity o <= so_quantity o')%Z.

(** Twelve candidates as above, with the high and the opening price of
    every day as well. *)
Definition twelve_buyable : strategy :=
  mkStrategy
    (_td_api twelve_candidates)
    (mkFrame (range 0 62)
       (flat_map
          (fun nk =>
             [((fst nk, "close_price"%string),
               repeat 1%Q 61 ++ [inject_Z (snd nk + 1)]);
              ((fst nk, "high"%string), repeat 2%Q 62);
              ((fst nk, "open_price"%string), repeat 1%Q 62)])
          (zip twelve_names (range 0 12))))
    []
    twelve_names.

(** Three candidates only. *)
Definition three_candidates : strategy :=
  mkStrategy (_td_api twelve_candidates) (etf_bars twelve_candidates) []
    ["A"; "B"; "C"]%string.

(** ** orders.py: [easy_bracket], and strategies.py

    [easy_bracket] can end in a [TypeError] (arithmetic on a percentage
    that is still [None]), and so do the calls of strategies.py, so the
    outcome of these functions says so. *)

Module EasyOrders.

Inductive outcome (A : Type) : Type :=
| Returns (a : A)
| Raises (e : exn)
| RaisesTypeError.

Arguments Returns {A} a.
Arguments Raises {A} e.
Arguments RaisesTypeError {A}.

Definition of_result {A : Type} (r : result A) : outcome A :=
  match r with
  | Ok a => Returns a
  | Raise e => Raises e
  end.

Definition and_then {A B : Type} (m : outcome A) (k : A -> outcome B)
  : outcome B :=
  match m with
  | Returns a => k a
  | Raises e => Raises e
  | RaisesTypeError => RaisesTypeError
  end.

(** [1 + percent/100.]: a [TypeError] on [None]. *)
Definition change_factor (percent : option Q) : outcome Q :=
  match percent with
  | Some p => Returns (1 + p / 100)%Q
  | None => RaisesTypeError
  end.

Definition easy_bracket (symbol instruction : string) (quantity : option Z)
  (amount : Q) (limit_percent profit_percent : option Q)
  (quotes : Series string Q) : outcome bracket_order :=
  let limit_percent :=
    match limit_percent with
    | None =>
        let limit_percent :=
          if (instruction =? "BUY")%string then Some (- 0.3)%Q else None in
        if (instruction =? "SELL")%string then Some 0.3%Q else limit_percent
    | Some _ => limit_percent
    end in
  let profit_percent :=
    match profit_percent with
    | None =>
        let profit_percent :=
          if (instruction =? "BUY")%string then Some 0.3%Q else None in
        if (instruction =? "SELL")%string then Some (- 0.3)%Q
        else profit_percent
    | Some _ => profit_percent
    end in
  and_then (of_result (getitem String.eqb symbol quotes)) (fun quote =>
  and_then (change_factor limit_percent) (fun f =>
  let limit_price := round2 (quote * f) in
  and_then (change_factor profit_percent) (fun g =>
  let profit_price := round2 (limit_price * g) in
  and_then
    (match quantity with
     | None =>
         and_then (of_result (getitem String.eqb symbol quotes)) (fun quote =>
         of_result (int_div amount quote))
     | Some q => Returns q
     end) (fun quantity =>
  Returns (mkBracket symbol instruction quantity (Some limit_price) "DAY" true
             (Some profit_price) None))))).

End EasyOrders.

Import EasyOrders.

Module Strategies.

(** The parameters of the two functions of orders.py that strategies.py
    calls. *)
Definition easy_bracket_parameters : list string :=
  ["symbol"; "instruction"; "quantity"; "amount"; "limit_percent";
   "profit_percent"; "quotes"]%string.

Definition smart_bracket_parameters : list string :=
  ["symbol"; "instruction"; "quantity"; "amount"; "limit_prob";
   "profit_prob"; "bars"; "quotes"]%string.

(** A call by keywords: a keyword that names no parameter of the function
    is a [TypeError], raised before the body runs. *)
Definition call {A : Type} (parameters keywords : list string)
  (body : outcome A) : outcome A :=
  if forallb (fun k => existsb (String.eqb k) parameters) keywords
  then body
  else RaisesTypeError.

(** The loop [for p in params: bracket_orders.append(f(p))]. *)
Fixpoint collect {P A : Type} (f : P -> outcome A) (params : list P)
  : outcome (list A) :=
  match params with
  | [] => Returns []
  | p :: params' =>
      and_then (f p) (fun o =>
      and_then (collect f params') (fun os => Returns (o :: os)))
  end.

(** One element of [params]: instruction, amount and percentage or
    probability. *)
Definition param : Type := (string * Q * Q)%type.

(** The call of [orders.easy_bracket] that the three easy strategies
    make: the keywords are those of the source; the arguments reach the
    parameters of the same name, the other parameters keep their
    defaults. *)
Definition call_easy_bracket (symbol : string) (quotes : Series string Q)
  (p : param) : outcome bracket_order :=
  call easy_bracket_parameters
    ["symbol"; "instruction"; "amount"; "percent"; "bars"; "quotes"]%string
    (easy_bracket symbol (fst (fst p)) None (snd (fst p)) None None quotes).

Definition easy_volatility (symbol : string) (bars : DataFrame label Q)
  (quotes : Series string Q) : outcome (list bracket_order) :=
  let params :=
    [("BUY", 1000, - 0.2); ("BUY", 2000, - 0.5);
     ("SELL", 1000, 0.2); ("SELL", 2000, 0.5)]%string%Q in
  collect (call_easy_bracket symbol quotes) params.

Definition long_brackets (symbol : string) (bars : DataFrame label Q)
  (quotes : Series string Q) : outcome (list bracket_order) :=
  let params :=
    [("BUY", 1000, - 0.1); ("BUY", 1500, - 0.3);
     ("BUY", 2000, - 0.5)]%string%Q in
  collect (call_easy_bracket symbol quotes) params.

Definition short_brackets (symbol : string) (bars : DataFrame label Q)
  (quotes : Series string Q) : outcome (list bracket_order) :=
  let params :=
    [("SELL", 1000, 0.1); ("SELL", 1500, 0.3);
     ("SELL", 2000, 0.5)]%string%Q in
  collect (call_easy_bracket symbol quotes) params.

Definition smart_volatility (symbol : string) (bias : Q)
  (bars : DataFrame label Q) (quotes : Series string Q)
  : outcome (list bracket_order) :=
  let params :=
    [("BUY"%string, 1000, 0.7 + bias); ("BUY"%string, 2000, 0.3 + bias);
     ("SELL"%string, 1000, 0.7 - bias); ("SELL"%string, 2000, 0.3 - bias)]%Q in
  collect
    (fun p : param =>
       call smart_bracket_parameters
         ["symbol"; "instruction"; "amount"; "probability"; "bars";
          "quotes"]%string
         (of_result
            (smart_bracket symbol (fst (fst p)) 100 (snd (fst p)) 0.5 0.5
               bars quotes)))
    params.

End Strategies.

Import Strategies.

(** ** cf_strategy.py: how a strategy object is filled, and the script

    The frames the brokerage client returns are kept by their rows, and
    one snapshot of the account answers all the calls of [__init__].
    The sets the code builds are kept as lists; the order of a Python
    set is not specified, and the theorems on them speak of membership
    only.  The bars are those read from the HDF file. *)

Module Account.

(** One row of the trades frame. *)
Record trade : Type := mkTrade {
  tr_symbol : string;
  tr_instruction : string
}.

(** The positions, the trades of the last 35 days, and the symbol column
    of the open orders. *)
Record snapshot : Type := mkSnapshot {
  get_positions : list position;
  get_trades : list trade;
  get_simple_open_orders : list string
}.

(** [s in set(l)]. *)
Definition mem (s : string) (l : list string) : bool :=
  existsb (String.eqb s) l.

(** [set(self.etf_bars.columns.get_level_values(0))]. *)
Definition etfs (bars : DataFrame label Q) : list string :=
  unique (map (fun c => fst (fst c)) (columns bars)).

Definition _get_sellable_etf_positions (acct : snapshot)
  (bars : DataFrame label Q) : list position :=
  let positions := get_positions acct in
  let trades :=
    filter (fun t => (tr_instruction t =? "BUY")%string) (get_trades acct) in
  let etfs := etfs bars in
  filter
    (fun p =>
       mem (symbol p) (map symbol positions) && mem (symbol p) etfs
       && negb (mem (symbol p) (map tr_symbol trades)))
    positions.

Definition _get_possible_etf_buys (acct : snapshot)
  (bars : DataFrame label Q) : list string :=
  let etfs := etfs bars in
  let positions :=
    if (0 <? length (get_positions acct))%nat
    then map symbol (get_positions acct) else [] in
  let orders :=
    if (0 <? length (get_simple_open_orders acct))%nat
    then get_simple_open_orders acct else [] in
  filter (fun s => negb (mem s positions))
    (filter (fun s => negb (mem s orders)) etfs).

(** [CFStrategy(td_api=td_api, hdf_file=...)], [bars] being the table
    stored in the file. *)
Definition __init__ (td_api : TDAmeritradeAPI) (acct : snapshot)
  (bars : DataFrame label Q) : strategy :=
  mkStrategy td_api bars (_get_sellable_etf_positions acct bars)
    (_get_possible_etf_buys acct bars).

(** The script: [strategy.run_buy_strategy()], then
    [strategy.run_sell_strategy()]. *)
Definition main (std : list Q -> Q) (self : strategy) : action :=
  fun saved =>
    match run_buy_strategy std self saved with
    | (Ok _, saved') => run_sell_strategy std self saved'
    | (Raise e, saved') => (Raise e, saved')
    end.

End Account.

Import Account.

(** An account that holds AAA, BBB and ZZZ, bought BBB last week, and has
    an open order for CCC; the bars know AAA to DDD. *)
Definition example_account : snapshot :=
  mkSnapshot
    [mkPosition "AAA" 0.02 5; mkPosition "BBB" 0.02 100;
     mkPosition "ZZZ" 0.02 10]
    [mkTrade "BBB" "BUY"; mkTrade "AAA" "SELL"]
    ["CCC"%string].

Definition example_etf_bars : DataFrame label Q :=
  mkFrame [0; 1]%Z
    [(("AAA", "high"), [11; 12]); (("AAA", "open_price"), [10; 10]);
     (("BBB", "high"), [21; 22]); (("BBB", "open_price"), [20; 20]);
     (("CCC", "high"), [21; 22]); (("CCC", "open_price"), [20; 20]);
     (("DDD", "high"), [21; 22]); (("DDD", "open_price"), [20; 20])]%string.

(** An account that holds five shares of A, over the twelve symbols with
    bars: the eleven others are the possible buys. *)
Definition twelve_account : snapshot :=
  mkSnapshot [mkPosition "A" 0.02 5] [] [].

Definition twelve_strategy : strategy :=
  __init__ (_td_api twelve_buyable) twelve_account (etf_bars twelve_buyable).

(** ** The order quantities of a ladder *)

Example order_quantities_100 :
  order_quantities 100 =
  Ok [1; 1; 2; 2; 3; 3; 4; 4; 5; 5; 6; 6; 7; 7; 8; 8; 9; 10]%Z.
Proof. vm_compute. reflexivity. Qed.

Section LadderFacts.

Lemma range_length (a b : Z) : length (range a b) = Z.to_nat (b - a).
Proof. unfold range. now rewrite length_map, length_seq. Qed.

Lemma range_In (a b x : Z) : In x (range a b) -> (a <= x < b)%Z.
Proof.
  unfold range. rewrite in_map_iff. intros [k [<- Hk]].
  apply in_seq in Hk. lia.
Qed.

Lemma range_cons (a b : Z) :
  (a < b)%Z -> range a b = a :: range (a + 1) b.
Proof.
  intros Hab. unfold range.
  replace (Z.to_nat (b - a)) with (S (Z.to_nat (b - (a + 1)))) by lia.
  cbn [seq map]. f_equal; [lia|].
  rewrite <- seq_shift, map_map. apply map_ext. intros k. lia.
Qed.

Lemma range_nil (a b : Z) : (b <= a)%Z -> range a b = [].
Proof.
  intros Hab. unfold range.
  replace (Z.to_nat (b - a)) with 0%nat by lia. reflexivity.
Qed.

Lemma sum_cons (x : Z) (l : list Z) : sum (x :: l) = (x + sum l)%Z.
Proof. reflexivity. Qed.

Lemma sum_nonneg (l : list Z) :
  Forall (fun w => 0 <= w)%Z l -> (0 <= sum l)%Z.
Proof. induction 1; [reflexivity|]. rewrite sum_cons. lia. Qed.

(** Dropping the entries that [f] sends to zero does not change the
    total. *)
Lemma sum_map_filter_nonzero (f : Z -> Z) (l : list Z) :
  sum (map f (filter (fun q => negb (f q =? 0)%Z) l)) = sum (map f l).
Proof.
  induction l as [|q l IH]; [reflexivity|]. cbn [filter map].
  destruct (Z.eqb_spec (f q) 0) as [E|E]; cbn [negb map].
  - rewrite sum_cons, IH. lia.
  - rewrite !sum_cons, IH. reflexivity.
Qed.

(** Flooring each share of [n] cannot allocate more than [n]. *)
Lemma floor_shares_le (n d : Z) (ws : list Z) :
  (0 < d)%Z -> (0 <= n)%Z ->
  (d * sum (map (fun w => n * w / d) ws) <= n * sum ws)%Z.
Proof.
  intros Hd Hn. induction ws as [|w ws IH]; [cbn; lia|].
  cbn [map]. rewrite !sum_cons.
  pose proof (Z.mul_div_le (n * w) d Hd). lia.
Qed.

(** The float expression [int(scale*q)] with [scale = n / s], on
    non-negative operands, is the integer quotient [n*q / s]. *)
Lemma int_of_scale (n s q : Z) :
  (0 <= n)%Z -> (0 < s)%Z -> (0 <= q)%Z ->
  int_of ((inject_Z n / inject_Z s) * inject_Z q) = (n * q / s)%Z.
Proof.
  intros Hn Hs Hq. destruct s as [|p|p]; try lia.
  unfold int_of, Qdiv, Qinv, Qmult, inject_Z. cbn [Qnum Qden].
  rewrite Z.mul_1_r, Pos.mul_1_r. cbn [Pos.mul].
  apply Z.quot_div_nonneg; lia.
Qed.

Lemma truediv_Z (n s : Z) :
  (s <> 0)%Z ->
  truediv (inject_Z n) (inject_Z s) = Ok (inject_Z n / inject_Z s).
Proof.
  intros Hs. unfold truediv.
  destruct (Qeq_bool (inject_Z s) 0) eqn:E; [|reflexivity].
  apply Qeq_bool_iff in E. unfold Qeq, inject_Z in E. cbn in E. lia.
Qed.

Lemma truediv_zero (a : Q) : truediv a (inject_Z 0) = Raise ZeroDivisionError.
Proof. reflexivity. Qed.

Lemma weights_pos (cap : Z) : Forall (fun w => 0 < w)%Z (weights cap).
Proof.
  apply Forall_forall. intros w Hw. unfold weights in Hw.
  apply in_map_iff in Hw. destruct Hw as [x [<- Hx]].
  apply range_In in Hx. lia.
Qed.

End LadderFacts.

Section LadderInvariants.

Lemma weights_nonempty_sum (cap : Z) :
  (2 <= cap)%Z -> (0 < sum (weights cap))%Z.
Proof.
  intros Hc. unfold weights. rewrite (@range_cons 1 cap) by lia.
  cbn [map]. rewrite sum_cons.
  assert (H : (0 <= sum (map (fun x => 2 * x) (range (1 + 1) cap)))%Z).
  { apply sum_nonneg, Forall_forall. intros w Hw.
    apply in_map_iff in Hw. destruct Hw as [x [<- Hx]].
    apply range_In in Hx. lia. }
  lia.
Qed.

(** On two shares or more the quantities are computed, and they are the
    non-zero integer quotients [n * w / s] over the weights. *)
Lemma order_quantities_eq (n : Z) :
  (2 <= n)%Z ->
  let ws := weights (Z.min 20 n) in
  let f := fun w => (n * w / sum ws)%Z in
  order_quantities n = Ok (map f (filter (fun w => negb (f w =? 0)%Z) ws)).
Proof.
  intros Hn ws f. unfold order_quantities. fold (weights (Z.min 20 n)). fold ws.
  assert (Hs : (0 < sum ws)%Z) by (apply weights_nonempty_sum; lia).
  rewrite truediv_Z by lia. cbn [bind]. f_equal.
  assert (Hf : forall w, In w ws ->
             int_of (inject_Z n / inject_Z (sum ws) * inject_Z w) = f w).
  { intros w Hw. apply int_of_scale; try lia.
    pose proof (weights_pos (Z.min 20 n)) as Hp.
    rewrite Forall_forall in Hp. specialize (Hp w Hw). lia. }
  rewrite (filter_ext_in _ (fun w => negb (f w =? 0)%Z)).
  - apply map_ext_in. intros w Hw. apply Hf.
    apply filter_In in Hw. tauto.
  - intros w Hw. now rewrite Hf.
Qed.

Lemma range_snoc (a b : Z) :
  (a <= b)%Z -> range a (b + 1) = range a b ++ [b].
Proof.
  intros Hab. unfold range.
  replace (Z.to_nat (b + 1 - a)) with (S (Z.to_nat (b - a))) by lia.
  rewrite seq_S, map_app. cbn [map Nat.add]. do 2 f_equal. lia.
Qed.

Lemma sum_app (l l' : list Z) : sum (l ++ l') = (sum l + sum l')%Z.
Proof.
  induction l as [|x l IH]; [reflexivity|].
  cbn [app]. rewrite !sum_cons, IH. lia.
Qed.

(** The weights add up to [cap * (cap - 1)]. *)
Lemma weights_sum (k : nat) :
  sum (weights (Z.of_nat k + 1)) = (Z.of_nat k * (Z.of_nat k + 1))%Z.
Proof.
  induction k as [|k IH].
  - reflexivity.
  - unfold weights in *.
    replace (Z.of_nat (S k) + 1)%Z with ((Z.of_nat k + 1) + 1)%Z by lia.
    rewrite range_snoc by lia. rewrite map_app, sum_app, IH.
    cbn [map]. rewrite sum_cons. cbn [sum fold_right]. lia.
Qed.

Lemma weights_sum_closed (cap : Z) :
  (1 <= cap)%Z -> sum (weights cap) = (cap * (cap - 1))%Z.
Proof.
  intros Hc. replace cap with (Z.of_nat (Z.to_nat (cap - 1)) + 1)%Z at 1 by lia.
  rewrite weights_sum, Z2Nat.id by lia. ring.
Qed.

Lemma weights_last (cap : Z) :
  (2 <= cap)%Z -> In (2 * (cap - 1))%Z (weights cap).
Proof.
  intros Hc. unfold weights. apply in_map.
  replace cap with ((cap - 1) + 1)%Z at 2 by lia.
  rewrite range_snoc by lia. apply in_or_app. right. now left.
Qed.

(** The invariants of the quantities, on two shares or more: they are
    computed, none is empty, there is at least one and at most [cap - 1]
    of them, and together they do not exceed the shares to place. *)
Lemma order_quantities_invariants (n : Z) :
  (2 <= n)%Z ->
  exists l,
    order_quantities n = Ok l /\
    Forall (fun q => 0 < q)%Z l /\
    (0 < length l <= Z.to_nat (Z.min 20 n - 1))%nat /\
    (sum l <= n)%Z.
Proof.
  intros Hn. pose proof (order_quantities_eq Hn) as E. cbv zeta in E.
  set (cap := Z.min 20 n) in *. set (ws := weights cap) in *.
  set (f := fun w => (n * w / sum ws)%Z) in *.
  assert (Hs : (0 < sum ws)%Z) by (apply weights_nonempty_sum; lia).
  assert (Hf0 : forall w, In w ws -> (0 <= f w)%Z).
  { intros w Hw. pose proof (weights_pos cap) as Hp.
    rewrite Forall_forall in Hp. specialize (Hp w Hw).
    apply Z.div_pos; nia. }
  eexists. split; [exact E|]. repeat split.
  - apply Forall_forall. intros q Hq. apply in_map_iff in Hq.
    destruct Hq as [w [<- Hw]]. apply filter_In in Hw. destruct Hw as [Hw Hnz].
    specialize (Hf0 w Hw). destruct (Z.eqb_spec (f w) 0); [discriminate|lia].
  - rewrite length_map.
    assert (Hin : In (2 * (cap - 1))%Z
                    (filter (fun w => negb (f w =? 0)%Z) ws)).
    { apply filter_In. split; [apply weights_last; lia|].
      assert (1 <= f (2 * (cap - 1)))%Z;
        [|destruct (Z.eqb_spec (f (2 * (cap - 1))%Z) 0); [lia|reflexivity]].
      unfold f. apply Z.div_le_lower_bound; [lia|].
      unfold ws. rewrite weights_sum_closed by lia. nia. }
    destruct (filter _ ws); [destruct Hin|cbn; lia].
  - rewrite length_map.
    etransitivity; [apply filter_length_le|].
    unfold ws, weights. rewrite length_map, range_length. lia.
  - rewrite sum_map_filter_nonzero.
    pose proof (@floor_shares_le n (sum ws) ws Hs ltac:(lia)) as H.
    fold f in H. nia.
Qed.

End LadderInvariants.

(** ** Claims on the quantity ladder *)

(** C1.  For every positive number of shares the quantities are positive
    integers, at most [cap - 1] of them with [cap = min(20, n)], and
    their sum does not exceed the number of shares -- on two shares or
    more.  On exactly one share the list of weights is empty, the scale
    divides by its sum, and the computation raises [ZeroDivisionError]
    instead of producing the (empty) ladder. *)
Theorem order_quantities_positive (n : Z) :
  (0 < n)%Z ->
  (n = 1%Z /\ order_quantities n = Raise ZeroDivisionError) \/
  ((2 <= n)%Z /\
   exists l,
     order_quantities n = Ok l /\
     Forall (fun q => 0 < q)%Z l /\
     (length l <= Z.to_nat (Z.min 20 n - 1))%nat /\
     (sum l <= n)%Z).
Proof.
  intros Hn. destruct (Z.eq_dec n 1) as [->|Hne].
  - left. split; reflexivity.
  - right. split; [lia|].
    destruct (@order_quantities_invariants n) as [l [E [Hp [Hl Hs]]]]; [lia|].
    exists l. repeat split; try assumption; lia.
Qed.

Lemma order_quantities_positive_witness :
  (0 < 1)%Z /\
  ((1 = 1 /\ order_quantities 1 = Raise ZeroDivisionError) \/
   ((2 <= 1)%Z /\
    exists l,
      order_quantities 1 = Ok l /\
      Forall (fun q => 0 < q)%Z l /\
      (length l <= Z.to_nat (Z.min 20 1 - 1))%nat /\
      (sum l <= 1)%Z))%Z.
Proof.
  split; [reflexivity|]. apply (@order_quantities_positive 1). reflexivity.
Defined.

(** C4.  The quantities on zero, one and two shares: zero and one share
    raise [ZeroDivisionError] (no weight, so the scale divides by zero);
    two shares give the single quantity 2. *)
Theorem order_quantities_degenerate :
  order_quantities 0 = Raise ZeroDivisionError /\
  order_quantities 1 = Raise ZeroDivisionError /\
  order_quantities 2 = Ok [2%Z].
Proof. repeat split. Qed.

(** ** The sell strategy *)

Section SellStrategy.

Variable std : list Q -> Q.
Variable self : strategy.

Lemma for_each_create {A : Type} (g : A -> saved_order) (l : list A)
  (saved : list saved_order) :
  for_each (fun x => create_saved_order (g x)) l saved
  = (Ok tt, saved ++ map g l).
Proof.
  revert saved. induction l as [|x l IH]; intros saved; cbn [for_each map].
  - now rewrite app_nil_r.
  - unfold create_saved_order at 1. rewrite IH, <- app_assoc. reflexivity.
Qed.

Lemma for_each_ok {A : Type} (body : A -> action) (out : A -> list saved_order)
  (l : list A) :
  (forall x saved, In x l -> body x saved = (Ok tt, saved ++ out x)) ->
  forall saved, for_each body l saved = (Ok tt, saved ++ flat_map out l).
Proof.
  induction l as [|x l IH]; intros H saved; cbn [for_each flat_map].
  - now rewrite app_nil_r.
  - rewrite H by now left. rewrite IH, app_assoc; [reflexivity|].
    intros y s Hy. apply H. now right.
Qed.

(** The first exception ends the loop: what was saved before stays, the
    rest of the list is not visited. *)
Lemma for_each_raise {A : Type} (body : A -> action)
  (out : A -> list saved_order) (l1 l2 : list A) (x : A) (e : exn) :
  (forall y saved, In y l1 -> body y saved = (Ok tt, saved ++ out y)) ->
  (forall saved, body x saved = (Raise e, saved)) ->
  forall saved,
    for_each body (l1 ++ x :: l2) saved = (Raise e, saved ++ flat_map out l1).
Proof.
  induction l1 as [|y l1 IH]; intros H Hx saved; cbn [app for_each flat_map].
  - now rewrite Hx, app_nil_r.
  - rewrite H by now left. rewrite IH, app_assoc; [reflexivity| |assumption].
    intros z s Hz. apply H. now right.
Qed.

Lemma linspace_length (a b : Q) (k : nat) : length (linspace a b k) = k.
Proof.
  destruct k as [|[|k]]; [reflexivity|reflexivity|].
  unfold linspace. now rewrite length_map, length_seq.
Qed.

Lemma create_sell_orders_ok (sym : string) (n : Z) (saved : list saved_order) :
  (2 <= n)%Z -> succeeds (open_to_high self sym) = true ->
  create_sell_orders std self sym n saved
  = (Ok tt, saved ++ sell_ladder std self sym n)
  /\ sell_ladder std self sym n <> []
  /\ Forall (fun o => so_symbol o = sym) (sell_ladder std self sym n).
Proof.
  intros Hn Hbars.
  destruct (@order_quantities_invariants n Hn) as [l [E [_ [[Hl _] _]]]].
  unfold create_sell_orders, sell_ladder. rewrite E.
  destruct (open_to_high self sym) as [o2h|]; [|discriminate]. cbv zeta.
  split; [apply for_each_create|]. split.
  - intros Hnil. apply (f_equal (@length _)) in Hnil.
    unfold zip in Hnil.
    rewrite length_map, length_combine, linspace_length in Hnil.
    cbn in Hnil. lia.
  - apply Forall_forall. intros o Ho. apply in_map_iff in Ho.
    now destruct Ho as [pq [<- _]].
Qed.

Lemma create_sell_orders_raise (sym : string) (n : Z)
  (saved : list saved_order) :
  (n <= 1)%Z ->
  create_sell_orders std self sym n saved = (Raise ZeroDivisionError, saved).
Proof.
  intros Hn. unfold create_sell_orders, order_quantities.
  rewrite range_nil by lia. reflexivity.
Qed.

Lemma sells_spec (p : position) :
  In p (sells self) <->
  In p (etf_positions self) /\ (0.01 < currentDayProfitLossPercentage p)%Q.
Proof.
  unfold sells. rewrite filter_In.
  destruct (Qle_bool (currentDayProfitLossPercentage p) 0.01) eqn:E; cbn [negb].
  - apply Qle_bool_iff in E. split; [intros [_ H]; discriminate|].
    intros [_ H]. exfalso. apply (Qlt_not_le _ _ H E).
  - split; intros [H _]; (split; [exact H|]); [|reflexivity].
    apply Qnot_le_lt. intros H'. apply Qle_bool_iff in H'. congruence.
Qed.

(** X5: when every position over the threshold holds two shares or more (and
    has its bars), the sell strategy ends normally and the symbols it
    saved orders for are exactly those of the positions over +1%. *)
Lemma run_sell_strategy_selects (saved : list saved_order) :
  (forall p, In p (sells self) ->
     (2 <= longQuantity p)%Z /\
     succeeds (open_to_high self (symbol p)) = true) ->
  exists orders,
    run_sell_strategy std self saved = (Ok tt, saved ++ orders) /\
    forall s,
      In s (map so_symbol orders) <->
      exists p, In p (etf_positions self) /\ symbol p = s /\
                (0.01 < currentDayProfitLossPercentage p)%Q.
Proof.
  intros H.
  exists (flat_map (fun p => sell_ladder std self (symbol p) (longQuantity p))
            (sells self)).
  split.
  - unfold run_sell_strategy. apply for_each_ok. intros p sv Hp.
    destruct (H p Hp) as [H2 Hb]. now apply create_sell_orders_ok.
  - intros s. rewrite in_map_iff. split.
    + intros [o [<- Ho]]. apply in_flat_map in Ho. destruct Ho as [p [Hp Ho]].
      exists p. destruct (H p Hp) as [H2 Hb].
      destruct (@create_sell_orders_ok (symbol p) (longQuantity p) saved H2 Hb)
        as [_ [_ Hall]].
      rewrite Forall_forall in Hall. apply sells_spec in Hp.
      destruct Hp as [Hp1 Hp2]. repeat split; [assumption| |assumption].
      symmetry. now apply Hall.
    + intros [p [Hp [<- Hpl]]].
      assert (Hs : In p (sells self)) by (apply sells_spec; tauto).
      destruct (H p Hs) as [H2 Hb].
      destruct (@create_sell_orders_ok (symbol p) (longQuantity p) saved H2 Hb)
        as [_ [Hne Hall]].
      rewrite Forall_forall in Hall.
      destruct (sell_ladder std self (symbol p) (longQuantity p))
        as [|o os] eqn:El;
        [congruence|].
      exists o. split; [apply Hall; now left|].
      apply in_flat_map. exists p. split; [assumption|]. rewrite El. now left.
Qed.

End SellStrategy.

(** C8.  On a snapshot whose two positions are both over +1%, the first
    holding one share, the sell strategy selects both, raises
    [ZeroDivisionError] at the first and has saved no order at all --
    neither for the first position nor for the second. *)
Theorem run_sell_strategy_one_share (std : list Q -> Q) :
  map symbol (sells two_sellable) = ["AAA"; "BBB"]%string /\
  run_sell_strategy std two_sellable [] = (Raise ZeroDivisionError, []).
Proof. split; reflexivity. Qed.

(** ** Bracket and pegged orders *)

Example quantile_examples :
  is_value (quantile [4; 1; 3; 2] 0.5) 2.5 /\
  is_value (quantile [4; 1; 3; 2] 0.25) 1.75 /\
  is_value (quantile [4; 1; 3; 2] 0) 1 /\
  is_value (quantile [4; 1; 3; 2] 1) 4 /\
  is_value (quantile [5; 1; 3] 0.5) 3 /\
  quantile [] 0.5 = Ok None /\
  quantile [1; 2] 1.5 = Raise ValueError.
Proof. repeat split. Qed.

Example round2_half_even :
  (round2 (1 # 8) == 0.12)%Q /\ (round2 (3 # 8) == 0.38)%Q /\
  (round2 (-(1 # 8)) == -0.12)%Q /\ (round2 (10499 # 1000) == 10.5)%Q.
Proof. repeat split. Qed.

Section BracketOrders.

Lemma assoc_level0 {A B : Type} (g : A -> B) (symbol f : string)
  (cols : list (label * A)) :
  assoc String.eqb f
    (map (fun c => (snd (fst c), g (snd c)))
       (filter (fun c => (fst (fst c) =? symbol)%string) cols))
  = option_map g (assoc label_eqb (symbol, f) cols).
Proof.
  induction cols as [|[[s' f'] a] cols IH]; [reflexivity|].
  cbn [filter fst snd assoc]. unfold label_eqb at 1. cbn [fst snd].
  rewrite (String.eqb_sym symbol s').
  destruct (s' =? symbol)%string; cbn [andb map fst snd assoc].
  - destruct (f =? f')%string; [reflexivity|exact IH].
  - exact IH.
Qed.

Lemma getitem_level0_history (bars : DataFrame label Q) (symbol f : string)
  (col : list Q) :
  history bars symbol f = Ok col ->
  getitem_level0 symbol bars
  = Ok (mkFrame (index bars)
          (map (fun c => (snd (fst c), snd c))
             (filter (fun c => (fst (fst c) =? symbol)%string) (columns bars)))).
Proof.
  unfold history, getitem, getitem_level0. intros H.
  pose proof (assoc_level0 (fun x : list Q => x) symbol f (columns bars)) as E.
  match goal with
  | |- context [filter ?p (columns bars)] =>
      destruct (filter p (columns bars)) as [|c cs]; [|reflexivity]
  end.
  cbn in E. destruct (assoc label_eqb (symbol, f) (columns bars));
    [discriminate E|discriminate H].
Qed.

Lemma getitem_window (bars : DataFrame label Q) (symbol f : string) (n : nat)
  (col : list Q) :
  history bars symbol f = Ok col ->
  getitem String.eqb f
    (columns
       (iloc_last n
          (mkFrame (index bars)
             (map (fun c => (snd (fst c), snd c))
                (filter (fun c => (fst (fst c) =? symbol)%string)
                   (columns bars))))))
  = Ok (lastn n col).
Proof.
  unfold history, getitem. intros H. cbn [iloc_last columns].
  rewrite map_map. cbn [fst snd].
  rewrite (assoc_level0 (lastn n) symbol f (columns bars)).
  destruct (assoc label_eqb (symbol, f) (columns bars)); [|discriminate H].
  now inversion H.
Qed.

Lemma insert_asc_nonempty (x : Q) (l : list Q) : insert_asc x l <> [].
Proof. destruct l as [|y l]; cbn; [|destruct (Qle_bool x y)]; discriminate. Qed.

Lemma quantile_nonempty (x : list Q) (q : Q) :
  x <> [] -> (0 <= q <= 1)%Q ->
  quantile x q = Ok (Some (quantile_linear x q)).
Proof.
  intros Hx [H0 H1]. unfold quantile, quantile_linear.
  apply Qle_bool_iff in H0, H1. rewrite H0, H1. cbn [andb negb].
  destruct x as [|a x]; [congruence|]. cbn [sort_asc fold_right].
  pose proof (insert_asc_nonempty a (fold_right insert_asc [] x)) as Hne.
  destruct (insert_asc a (fold_right insert_asc [] x));
    [congruence|reflexivity].
Qed.

Lemma lastn_nonempty {A : Type} (n : nat) (l : list A) :
  (0 < n)%nat -> l <> [] -> lastn n l <> [].
Proof.
  intros Hn Hl Hnil. apply (f_equal (@length _)) in Hnil.
  unfold lastn in Hnil. rewrite length_skipn in Hnil.
  destruct l as [|a l]; [congruence|]. cbn [length] in Hnil. lia.
Qed.

Lemma series_sub_nonempty (a b : list Q) :
  a <> [] -> b <> [] -> series_sub a b <> [].
Proof. destruct a, b; cbn; congruence. Qed.

Lemma int_div_nonzero (a b : Q) :
  ~ (b == 0)%Q -> int_div a b = Ok (int_of (a / b)).
Proof.
  intros Hb. unfold int_div. destruct (Qeq_bool b 0) eqn:E; [|reflexivity].
  apply Qeq_bool_iff in E. contradiction.
Qed.

(** The outcome of [smart_bracket] in the terms of the code: the window
    is [lastn 50], the quantile interpolates over [sort_asc], and
    [round2] is applied to the prices last. *)
Lemma smart_bracket_outcome
  (symbol : string) (quantity : Z) (amount limit_prob profit_prob : Q)
  (bars : DataFrame label Q) (quotes : Series string Q)
  (o h l : list Q) (quote : Q) :
  history bars symbol "open_price" = Ok o ->
  history bars symbol "high" = Ok h ->
  history bars symbol "low" = Ok l ->
  o <> [] -> length h = length o -> length l = length o ->
  getitem String.eqb symbol quotes = Ok quote -> ~ (quote == 0)%Q ->
  (0 <= 1 - limit_prob <= 1)%Q -> (0 <= 1 - profit_prob <= 1)%Q ->
  let low := series_sub (lastn 50 o) (lastn 50 l) in
  let high := series_sub (lastn 50 h) (lastn 50 o) in
  let hilo := series_sub (lastn 50 h) (lastn 50 l) in
  smart_bracket symbol "BUY" quantity amount limit_prob profit_prob bars quotes
  = Ok (mkBracket symbol "BUY" (int_of (amount / quote))
          (Some (round2 (quote - quantile_linear low (1 - limit_prob))))
          "DAY" true
          (Some (round2 (quote - quantile_linear low (1 - limit_prob)
                         + quantile_linear hilo (1 - profit_prob))))
          None) /\
  smart_bracket symbol "SELL" quantity amount limit_prob profit_prob bars quotes
  = Ok (mkBracket symbol "SELL" (int_of (amount / quote))
          (Some (round2 (quote + quantile_linear high (1 - limit_prob))))
          "DAY" true
          (Some (round2 (quote + quantile_linear high (1 - limit_prob)
                         - quantile_linear hilo (1 - profit_prob))))
          None).
Proof.
  intros Ho Hh Hl Hne Hlh Hll Hq Hq0 Hlp Hpp low high hilo.
  assert (Hh_ne : h <> [])
    by (destruct h; [destruct o; [congruence|discriminate]|discriminate]).
  assert (Hl_ne : l <> [])
    by (destruct l; [destruct o; [congruence|discriminate]|discriminate]).
  assert (Hn : (0 < 50)%nat) by lia.
  assert (Elow : quantile low (1 - limit_prob)
                 = Ok (Some (quantile_linear low (1 - limit_prob)))).
  { apply quantile_nonempty; [|assumption].
    apply series_sub_nonempty; now apply lastn_nonempty. }
  assert (Ehigh : quantile high (1 - limit_prob)
                  = Ok (Some (quantile_linear high (1 - limit_prob)))).
  { apply quantile_nonempty; [|assumption].
    apply series_sub_nonempty; now apply lastn_nonempty. }
  assert (Ehilo : quantile hilo (1 - profit_prob)
                  = Ok (Some (quantile_linear hilo (1 - profit_prob)))).
  { apply quantile_nonempty; [|assumption].
    apply series_sub_nonempty; now apply lastn_nonempty. }
  split; unfold smart_bracket;
    rewrite (@getitem_level0_history bars symbol _ _ Ho); cbn [bind];
    rewrite (@getitem_window bars symbol _ 50 _ Ho),
            (@getitem_window bars symbol _ 50 _ Hl),
            (@getitem_window bars symbol _ 50 _ Hh); cbn [bind];
    rewrite Hq; cbn [bind].
  - change (("BUY" =? "BUY")%string) with true. cbv iota.
    fold low. fold hilo. rewrite Elow. cbn [bind]. rewrite Ehilo. cbn [bind].
    rewrite (@int_div_nonzero amount quote Hq0). reflexivity.
  - change (("SELL" =? "BUY")%string) with false.
    change (("SELL" =? "SELL")%string) with true. cbv iota.
    fold high. fold hilo. rewrite Ehigh. cbn [bind]. rewrite Ehilo. cbn [bind].
    rewrite (@int_div_nonzero amount quote Hq0). reflexivity.
Qed.



End BracketOrders.

(** ** The pegged order, in the floats of the interpreter *)

Section PeggedChanges.

Import Floats.
#[local] Set Warnings "-inexact-float".






(** What the rounding of the two quotients does to whole cents: 3.3
    against 1.1 gives 0.02, the quotient being below 3, and 1 against 49
    gives 0.5, the inverse of the quotient being above 49. *)
Example auto_pegged_rounded_quotients :
  (forall round2 : float -> float,
   exists order,
     Doubles.auto_pegged round2 "PEG" "BUY" 1000 "REF"
       [("PEG"%string, 3.3%float); ("REF"%string, 1.1%float)]
     = Ok order /\
     Doubles.po_peg_change_amount order = 0.02%float) /\
  (forall round2 : float -> float,
   exists order,
     Doubles.auto_pegged round2 "PEG" "BUY" 1000 "REF"
       [("PEG"%string, 1%float); ("REF"%string, 49%float)]
     = Ok order /\
     Doubles.po_ref_change_amount order = 0.5%float) /\
  Doubles.auto_pegged (fun x => x) "PEG" "BUY" 1000 "REF"
    [("PEG"%string, 10%float); ("REF"%string, 0%float)]
  = Raise OverflowError /\
  (exists order,
     Doubles.auto_pegged (fun x => x) "PEG" "BUY" (-1000) "REF"
       [("PEG"%string, (-10)%float); ("REF"%string, 0%float)]
     = Ok order /\
     Doubles.po_ref_change_amount order = 0%float).
Proof.
  split; [|split; [|split]];
    try (intros round2); try eexists;
    try (split; [vm_compute; reflexivity|]); vm_compute; reflexivity.
Qed.

End PeggedChanges.

(** ** The buy strategy *)

Section Ranking.

Context {L : Type}.

Lemma insert_desc_perm (x : L * Q) (l : list (L * Q)) :
  Permutation (insert_desc x l) (x :: l).
Proof.
  induction l as [|y l IH]; cbn [insert_desc]; [reflexivity|].
  destruct (Qle_bool (snd y) (snd x)); [reflexivity|].
  rewrite IH. apply perm_swap.
Qed.

Lemma insert_desc_hd (x : L * Q) (l : list (L * Q)) (a : L * Q) :
  desc a x -> HdRel desc a l -> HdRel desc a (insert_desc x l).
Proof.
  intros Hax Hal. destruct l as [|y l]; cbn [insert_desc].
  - now constructor.
  - destruct (Qle_bool (snd y) (snd x)); constructor;
      [assumption|now inversion Hal].
Qed.

Lemma insert_desc_sorted (x : L * Q) (l : list (L * Q)) :
  Sorted desc l -> Sorted desc (insert_desc x l).
Proof.
  induction 1 as [|y l Hs IH Hhd]; cbn [insert_desc].
  - repeat constructor.
  - destruct (Qle_bool (snd y) (snd x)) eqn:E.
    + apply Qle_bool_iff in E. repeat constructor; assumption.
    + constructor; [exact IH|]. apply insert_desc_hd; [|assumption].
      unfold desc. apply Qlt_le_weak, Qnot_le_lt. intros H.
      apply Qle_bool_iff in H. congruence.
Qed.

Lemma sort_desc_sorted (l : list (L * Q)) :
  Sorted desc (fold_right insert_desc [] l).
Proof.
  induction l as [|x l IH]; cbn [fold_right]; [constructor|].
  now apply insert_desc_sorted.
Qed.

Lemma sort_desc_perm (l : list (L * Q)) :
  Permutation (fold_right insert_desc [] l) l.
Proof.
  induction l as [|x l IH]; cbn [fold_right]; [reflexivity|].
  rewrite insert_desc_perm. now constructor.
Qed.

Lemma valid_nan_perm (s : Series L cell) :
  Permutation (map some_item (valid_items s) ++ nan_items s) s.
Proof.
  induction s as [|[k [x|]] s IH]; [reflexivity| |].
  - cbn. now constructor.
  - cbn [valid_items nan_items flat_map filter fst snd app].
    rewrite <- Permutation_middle. now constructor.
Qed.

(** The ranking holds the scored symbols, largest score first, and after
    them the symbols without a score. *)
Lemma sort_values_desc_spec (s : Series L cell) :
  exists ranked,
    sort_values_desc s = map some_item ranked ++ nan_items s /\
    Sorted desc ranked /\
    Permutation (sort_values_desc s) s.
Proof.
  exists (fold_right insert_desc [] (valid_items s)). split; [reflexivity|].
  split; [apply sort_desc_sorted|].
  unfold sort_values_desc. fold (@some_item L).
  rewrite (sort_desc_perm (valid_items s)). apply valid_nan_perm.
Qed.

End Ranking.

Section Score.

Lemma pct_change_returns (P : list Q) :
  Forall nonzero P -> skipn 1 (pct_change P) = map Some (returns P).
Proof.
  destruct P as [|p l]; [reflexivity|]. cbn [pct_change skipn returns].
  revert p. induction l as [|x l IH]; intros p H; [reflexivity|].
  cbn [pct_change_from returns_from map cdiv].
  inversion H as [|? ? Hp Hl]; subst.
  destruct (Qeq_bool p 0) eqn:E; [apply Qeq_bool_iff in E; contradiction|].
  f_equal. now apply IH.
Qed.

Lemma valid_map_Some (x : list Q) : valid (map Some x) = x.
Proof. induction x as [|a x IH]; cbn; [|rewrite IH]; reflexivity. Qed.








End Score.

Section BuyStrategy.

Variable self : strategy.

Lemma assoc_level1 {A : Type} (s f : string) (cols : list (label * A)) :
  assoc String.eqb s
    (map (fun c => (fst (fst c), snd c))
       (filter (fun c => (snd (fst c) =? f)%string) cols))
  = assoc label_eqb (s, f) cols.
Proof.
  induction cols as [|[[s' f'] a] cols IH]; [reflexivity|].
  cbn [filter fst snd assoc]. unfold label_eqb at 1. cbn [fst snd].
  rewrite (String.eqb_sym f f').
  destruct (f' =? f)%string; cbn [map fst snd assoc].
  - rewrite andb_true_r. destruct (s =? s')%string; [reflexivity|exact IH].
  - rewrite andb_false_r. exact IH.
Qed.

(** The columns of a cross-section that is there. *)
Lemma xs_level1_columns {A : Type} (f : string) (df : DataFrame label A)
  (x : DataFrame string A) :
  xs_level1 f df = Ok x ->
  columns x
  = map (fun c => (fst (fst c), snd c))
      (filter (fun c => (snd (fst c) =? f)%string) (columns df)).
Proof.
  unfold xs_level1.
  match goal with
  | |- context [filter ?p (columns df)] =>
      destruct (filter p (columns df)) as [|c cs]
  end; [discriminate|].
  intros H. inversion H. reflexivity.
Qed.

Lemma select_columns_spec {A : Type} (names : list string)
  (cols P : list (string * A)) :
  select_columns names cols = Ok P ->
  map fst P = names /\
  forall n c, In (n, c) P -> getitem String.eqb n cols = Ok c.
Proof.
  revert P. induction names as [|n names IH]; intros P H; cbn in H.
  - inversion H. split; [reflexivity|]. intros ? ? [].
  - destruct (getitem String.eqb n cols) as [c|] eqn:E; [|discriminate H].
    cbn [bind] in H.
    destruct (select_columns names cols) as [cs|]; [|discriminate H].
    cbn [bind] in H. inversion H; subst P. clear H.
    destruct (IH cs eq_refl) as [IH1 IH2]. split.
    + cbn. now rewrite IH1.
    + intros n' c' [Heq|Hin]; [inversion Heq; subst; exact E|now apply IH2].
Qed.

(** What [_estimate_30_day_return] returns: one score per possible buy,
    in their order, computed from the closing prices of the symbol. *)
Lemma estimate_spec (estimate : Series string cell) :
  _estimate_30_day_return self = Ok estimate ->
  map fst estimate = possible_etf_buys self /\
  forall sym sc, In (sym, sc) estimate ->
    exists P, history (etf_bars self) sym "close_price" = Ok P /\
              sc = score_30_day P.
Proof.
  unfold _estimate_30_day_return. intros H.
  destruct (xs_level1 "close_price" (etf_bars self)) as [closes|] eqn:Ex;
    [|discriminate H].
  cbn [bind] in H.
  destruct (select_columns (possible_etf_buys self) (columns closes))
    as [P|] eqn:E; [|discriminate H].
  cbn [bind] in H. inversion H; subst estimate. clear H.
  destruct (select_columns_spec _ _ E) as [H1 H2]. split.
  - rewrite map_map. cbn [fst]. exact H1.
  - intros sym sc Hin. apply in_map_iff in Hin.
    destruct Hin as [[n c] [Heq Hin]]. cbn [fst snd] in Heq.
    inversion Heq; subst. exists c. split; [|reflexivity].
    specialize (H2 _ _ Hin). unfold history, getitem in *.
    rewrite (@xs_level1_columns _ _ _ _ Ex) in H2. now rewrite assoc_level1 in H2.
Qed.

Lemma int_of_floor (x : Q) : (0 <= x)%Q -> int_of x = Qfloor x.
Proof.
  intros H. unfold int_of, Qfloor. destruct x as [num den]. cbn [Qnum Qden].
  apply Z.quot_div_nonneg; [|lia]. unfold Qle in H. cbn in H. lia.
Qed.


Lemma int_div_positive (a b : Q) :
  (0 <= a)%Q -> (0 < b)%Q -> int_div a b = Ok (Qfloor (a / b)).
Proof.
  intros Ha Hb. rewrite int_div_nonzero.
  - rewrite int_of_floor; [reflexivity|].
    apply Qle_shift_div_l; [assumption|]. now rewrite Qmult_0_l.
  - intros E. rewrite E in Hb. discriminate Hb.
Qed.

End BuyStrategy.

Example twelve_candidates_ranking :
  match _estimate_30_day_return twelve_candidates with
  | Ok estimate =>
      map fst (sort_values_desc estimate) = twelve_names /\
      Forall2 (fun sc k => match sc with
                           | Some x => (x == - inject_Z k / 2)%Q
                           | None => False
                           end)
        (map snd estimate) (range 0 12)
  | Raise _ => False
  end.
Proof. vm_compute. split; [reflexivity|]. repeat constructor. Qed.




(** ** The windowed return analyzer *)

Section ScaledPriceChange.

Lemma set_row_app {A : Type} (i : Z) (r x : list A) (a b : list (Z * list A)) :
  ~ In i (map fst a) ->
  set_row i r (a ++ (i, x) :: b) = a ++ (i, r) :: b.
Proof.
  induction a as [|[j y] a IH]; intros Hi; cbn [app set_row fst].
  - now rewrite Z.eqb_refl.
  - destruct (Z.eqb_spec j i) as [->|Hne]; [exfalso; apply Hi; now left|].
    f_equal. apply IH. intros H. apply Hi. now right.
Qed.

(** A loop that writes the row of every label, in the order of the
    labels, twice over: the second value is the one that stays. *)
Lemma fold_set_rows {A : Type} (f g : Z -> list A) (blank : list A)
  (todo done : list Z) :
  NoDup (done ++ todo) ->
  fold_left (fun rows i => set_row i (f i) (set_row i (g i) rows)) todo
    (map (fun i => (i, f i)) done ++ map (fun i => (i, blank)) todo)
  = map (fun i => (i, f i)) (done ++ todo).
Proof.
  revert done.
  induction todo as [|i todo IH]; intros done Hnd; cbn [fold_left map].
  - now rewrite !app_nil_r.
  - assert (Hi : ~ In i (map fst (map (fun i => (i, f i)) done))).
    { rewrite map_map. cbn [fst]. rewrite map_id.
      apply NoDup_remove_2 in Hnd. intros H. apply Hnd.
      apply in_or_app. now left. }
    rewrite !set_row_app by exact Hi.
    replace (done ++ i :: todo) with ((done ++ [i]) ++ todo)
      by now rewrite <- app_assoc.
    rewrite <- IH.
    + now rewrite map_app, <- app_assoc.
    + now rewrite <- app_assoc.
Qed.

Lemma range_NoDup (a b : Z) : NoDup (range a b).
Proof.
  unfold range. apply Finite.Injective_map_NoDup; [|apply seq_NoDup].
  intros x y H. lia.
Qed.

Lemma int_of_quarter (n : nat) :
  int_of (inject_Z (Z.of_nat n) / 4) = (Z.of_nat n / 4)%Z.
Proof.
  unfold int_of, Qdiv, Qinv, Qmult, inject_Z. cbn [Qnum Qden].
  rewrite Z.mul_1_r. apply Z.quot_div_nonneg; lia.
Qed.

(** The rows of the result, as the loop leaves them. *)
Lemma scaled_price_change_rows (prices : DataFrame string Q) :
  rf_rows (scaled_price_change prices)
  = map (fun i =>
           (i, map (fun c => mean (firstn (Z.to_nat i)
                                     (rev (skipn 1 (pct_change (snd c))))))
                 (columns prices)))
      (range 1 (Z.of_nat (length (index prices)) / 4)).
Proof.
  unfold scaled_price_change. cbv zeta. cbn [rf_rows]. rewrite int_of_quarter.
  set (todo := range 1 (Z.of_nat (length (index prices)) / 4)).
  set (dP := map (fun c => rev (skipn 1 (pct_change (snd c)))) (columns prices)).
  pose proof (@fold_set_rows cell
                (fun i => map (fun c => mean (firstn (Z.to_nat i) c)) dP)
                (fun i => zip_with csub
                            (map (fun c => mean (firstn (Z.to_nat i) c)) dP)
                            (map (fun c => mean (rolling_sum (Z.to_nat i) c)) dP))
                (map (fun _ => @None Q) (columns prices)) todo []
                (range_NoDup _ _)) as H.
  cbn [app map] in H. etransitivity; [exact H|]. apply map_ext. intros i.
  unfold dP. now rewrite map_map.
Qed.

Lemma returns_length (P : list Q) : length (returns P) = (length P - 1)%nat.
Proof.
  destruct P as [|p l]; [reflexivity|]. cbn [returns length].
  rewrite Nat.sub_succ, Nat.sub_0_r.
  revert p. induction l as [|x l IH]; intros p; [reflexivity|].
  cbn [returns_from length]. now rewrite IH.
Qed.

Lemma fsum_total (l : list Q) : fsum l = total l.
Proof.
  induction l as [|x l IH]; [reflexivity|]. cbn [total]. now rewrite <- IH.
Qed.

Lemma mean_firstn_recent (P : list Q) (w : nat) :
  Forall nonzero P -> (1 <= w <= length (returns P))%nat ->
  mean (firstn w (rev (skipn 1 (pct_change P))))
  = Some (mean_recent w (returns P)).
Proof.
  intros Hnz Hw. rewrite (pct_change_returns Hnz).
  rewrite <- map_rev, firstn_map. unfold mean, mean_recent.
  rewrite valid_map_Some, <- fsum_total.
  assert (Hlen : length (firstn w (rev (returns P))) = w).
  { rewrite length_firstn, length_rev. lia. }
  destruct (firstn w (rev (returns P))) as [|x l] eqn:E.
  - cbn in Hlen. lia.
  - now rewrite Hlen.
Qed.

Lemma assoc_map_key {A : Type} (F : Z -> A) (w : Z) (l : list Z) :
  In w l -> assoc Z.eqb w (map (fun i => (i, F i)) l) = Some (F w).
Proof.
  induction l as [|i l IH]; intros Hin; [destruct Hin|]. cbn [map assoc].
  destruct (Z.eqb_spec w i) as [->|Hne]; [reflexivity|].
  apply IH. destruct Hin; [congruence|assumption].
Qed.

Lemma range_In_iff (a b x : Z) : In x (range a b) <-> (a <= x < b)%Z.
Proof.
  split; [apply range_In|]. intros H. unfold range. apply in_map_iff.
  exists (Z.to_nat (x - a)). split; [lia|]. apply in_seq. lia.
Qed.

Lemma pct_change_from_app (a x : Q) (l1 l2 : list Q) :
  pct_change_from a (l1 ++ x :: l2)
  = pct_change_from a (l1 ++ [x]) ++ pct_change_from x l2.
Proof.
  revert a. induction l1 as [|y l1 IH]; intros a; [reflexivity|].
  cbn [app pct_change_from]. now rewrite IH.
Qed.

Lemma pct_change_from_window (p : Q) (l : list Q) :
  Forall nonzero (removelast (p :: l)) ->
  pct_change_from p l = map Some (returns_from p l).
Proof.
  revert p. induction l as [|x l IH]; intros p H; [reflexivity|].
  cbn [pct_change_from returns_from map cdiv].
  change (removelast (p :: x :: l)) with (p :: removelast (x :: l)) in H.
  inversion H as [|? ? Hp Hl]; subst.
  destruct (Qeq_bool p 0) eqn:E; [apply Qeq_bool_iff in E; contradiction|].
  f_equal. now apply IH.
Qed.

Lemma returns_from_length (p : Q) (l : list Q) :
  length (returns_from p l) = length l.
Proof.
  revert p. induction l as [|x l IH]; intros p; [reflexivity|].
  cbn [returns_from length]. now rewrite IH.
Qed.

Lemma pct_change_from_length (p : Q) (l : list Q) :
  length (pct_change_from p l) = length l.
Proof.
  revert p. induction l as [|x l IH]; intros p; [reflexivity|].
  cbn [pct_change_from length]. now rewrite IH.
Qed.

(** The most recent changes of a column are those of its last prices. *)
Lemma recent_changes (older recent : list Q) (w : nat) :
  length recent = S w ->
  firstn w (rev (skipn 1 (pct_change (older ++ recent))))
  = rev (skipn 1 (pct_change recent)).
Proof.
  intros Hlen. destruct recent as [|r0 rest]; [discriminate Hlen|].
  cbn [length] in Hlen. injection Hlen as Hlen.
  assert (Hw : firstn w (rev (pct_change_from r0 rest))
               = rev (pct_change_from r0 rest)).
  { apply firstn_all2. rewrite length_rev, pct_change_from_length. lia. }
  destruct older as [|a older].
  - cbn [app pct_change skipn]. exact Hw.
  - cbn [app pct_change skipn]. rewrite pct_change_from_app, rev_app_distr.
    rewrite firstn_app, length_rev, pct_change_from_length, Hlen.
    rewrite Nat.sub_diag, firstn_O, app_nil_r. exact Hw.
Qed.

Lemma total_app (a b : list Q) : (total (a ++ b) == total a + total b)%Q.
Proof.
  induction a as [|x a IH]; cbn [app total]; [ring|]. rewrite IH. ring.
Qed.

Lemma total_rev (l : list Q) : (total (rev l) == total l)%Q.
Proof.
  induction l as [|x l IH]; cbn [rev total]; [reflexivity|].
  rewrite total_app, IH. cbn [total]. ring.
Qed.

(** The mean of the window, from the prices it spans. *)
Lemma mean_window (older recent : list Q) (w : nat) :
  (1 <= w)%nat -> length recent = S w ->
  Forall nonzero (removelast recent) ->
  holds (Some (mean (firstn w (rev (skipn 1 (pct_change (older ++ recent)))))))
    (plain_mean (returns recent)).
Proof.
  intros Hw Hlen Hnz. rewrite (@recent_changes older recent w Hlen).
  destruct recent as [|r0 rest]; [discriminate Hlen|].
  cbn [length] in Hlen. injection Hlen as Hlen.
  cbn [pct_change skipn returns]. rewrite (@pct_change_from_window r0 rest Hnz).
  rewrite <- map_rev. unfold mean, plain_mean. rewrite valid_map_Some.
  pose proof (returns_from_length r0 rest) as L.
  destruct (rev (returns_from r0 rest)) as [|x l] eqn:E.
  - apply (f_equal (@length _)) in E. rewrite length_rev, L in E.
    cbn in E. lia.
  - rewrite <- E. cbn [holds].
    rewrite fsum_total, total_rev, length_rev. reflexivity.
Qed.


Lemma holds_eq (c : option cell) (x y : Q) :
  holds c x -> (x == y)%Q -> holds c y.
Proof.
  destruct c as [[v|]|]; cbn [holds]; [|contradiction|contradiction].
  intros H E. now rewrite H.
Qed.

Lemma nth_error_row (prices : DataFrame string Q) (w : Z) (j : nat)
  (name : string) (P : list Q) :
  (1 <= w < Z.of_nat (length (index prices)) / 4)%Z ->
  nth_error (columns prices) j = Some (name, P) ->
  row_cell (scaled_price_change prices) w j
  = Some (mean (firstn (Z.to_nat w) (rev (skipn 1 (pct_change P))))).
Proof.
  intros Hw Hj. unfold row_cell. rewrite scaled_price_change_rows.
  rewrite assoc_map_key by (apply range_In_iff; lia).
  rewrite nth_error_map, Hj. reflexivity.
Qed.

(** The rows of the result, from the returns of the columns: the frame
    has the columns of the prices and the row labels 1 to the maximum
    window length less one, and where no price is zero the row [w] is,
    symbol by symbol, the mean of the first [w] returns reversed. *)
Lemma scaled_price_change_frame (prices : DataFrame string Q) :
  let rows := length (index prices) in
  let max_window_length := (Z.of_nat rows / 4)%Z in
  let out := scaled_price_change prices in
  rf_columns out = map fst (columns prices) /\
  map fst (rf_rows out) = range 1 max_window_length /\
  ((max_window_length < 2)%Z -> rf_rows out = []) /\
  (Forall (fun c => length (snd c) = rows /\ Forall nonzero (snd c))
     (columns prices) ->
   forall w, (1 <= w < max_window_length)%Z ->
     assoc Z.eqb w (rf_rows out)
     = Some (map (fun c => Some (mean_recent (Z.to_nat w) (returns (snd c))))
               (columns prices))).
Proof.
  intros rows max_window_length out. unfold out.
  rewrite scaled_price_change_rows. fold rows. fold max_window_length.
  split; [reflexivity|]. split; [|split].
  - rewrite map_map. cbn [fst]. apply map_id.
  - intros H. now rewrite range_nil by lia.
  - intros Hwf w Hw. rewrite assoc_map_key by (apply range_In_iff; lia).
    f_equal. apply map_ext_in. intros c Hc.
    rewrite Forall_forall in Hwf. destruct (Hwf c Hc) as [Hlen Hnz].
    apply mean_firstn_recent; [assumption|].
    rewrite returns_length, Hlen.
    assert (4 * max_window_length <= Z.of_nat rows)%Z
      by (apply Z.mul_div_le; lia).
    lia.
Qed.

(** C9.  From a table of [M + 1] prices the analyzer returns one row per
    window length [w] from 1 to [(M + 1) / 4 - 1] (integer division), and
    the row holds, for every symbol, the plain mean of its [w] most
    recent returns: the returns of its last [w + 1] prices, added up and
    divided by [w], whenever the prices these returns divide by are not
    zero.  Where no price of the table is zero the row is, symbol by
    symbol, the mean of the first [w] of the returns reversed.  When the
    maximum window length is below 2 the result has no row.  The
    function has no failing path. *)
Theorem scaled_price_change_spec (prices : DataFrame string Q) :
  let rows := length (index prices) in
  let max_window_length := (Z.of_nat rows / 4)%Z in
  let out := scaled_price_change prices in
  rf_columns out = map fst (columns prices) /\
  map fst (rf_rows out) = range 1 max_window_length /\
  ((max_window_length < 2)%Z -> rf_rows out = []) /\
  (Forall (fun c => length (snd c) = rows /\ Forall nonzero (snd c))
     (columns prices) ->
   forall w, (1 <= w < max_window_length)%Z ->
     assoc Z.eqb w (rf_rows out)
     = Some (map (fun c => Some (mean_recent (Z.to_nat w) (returns (snd c))))
               (columns prices))) /\
  (forall (w : Z) (j : nat) (name : string) (older recent : list Q),
     (1 <= w < max_window_length)%Z ->
     nth_error (columns prices) j = Some (name, (older ++ recent)%list) ->
     length recent = S (Z.to_nat w) ->
     Forall nonzero (removelast recent) ->
     holds (row_cell out w j) (plain_mean (returns recent))).
Proof.
  intros rows max_window_length out.
  destruct (scaled_price_change_frame prices) as [H1 [H2 [H3 H4]]].
  repeat (split; [assumption|]).
  intros w j name older recent Hw Hj Hlen Hnz. unfold out.
  rewrite (@nth_error_row prices w j name _ Hw Hj).
  apply mean_window; [lia|exact Hlen|exact Hnz].
Qed.

Lemma scaled_price_change_spec_witness :
  map fst (rf_rows (scaled_price_change sixteen_prices)) = [1; 2; 3]%Z /\
  holds (row_cell (scaled_price_change sixteen_prices) 1 0) 1 /\
  holds (row_cell (scaled_price_change sixteen_prices) 2 0) 0.75 /\
  holds (row_cell (scaled_price_change sixteen_prices) 3 0) (5 # 6) /\
  holds (row_cell (scaled_price_change sixteen_prices) 1 1) (-0.2) /\
  holds (row_cell (scaled_price_change sixteen_prices) 2 1) 0.025 /\
  holds (row_cell (scaled_price_change sixteen_prices) 3 1) (-0.15).
Proof.
  destruct (@scaled_price_change_spec sixteen_prices) as [_ [I [_ [_ H]]]].
  split; [exact I|].
  assert (Hw : forall w : Z, (1 <= w <= 3)%Z ->
            (1 <= w < Z.of_nat (length (index sixteen_prices)) / 4)%Z)
    by (intros w Hw; change (Z.of_nat (length (index sixteen_prices)) / 4)%Z
          with 4%Z; lia).
  assert (Hnz : forall l : list Q, Forall (fun x => Qnum x <> 0%Z) l ->
                                   Forall nonzero l).
  { intros l Hl. eapply Forall_impl; [|exact Hl].
    intros x Hx E. apply Hx. unfold Qeq in E. cbn in E. lia. }
  split.
  { refine (@holds_eq _ _ _ (H 1%Z 0%nat "XYZ"%string (repeat 1 13 ++ [2])%list
                        [3; 6] (Hw 1%Z _) eq_refl eq_refl (Hnz _ _)) _);
      [lia|repeat constructor; discriminate|reflexivity]. }
  split.
  { refine (@holds_eq _ _ _ (H 2%Z 0%nat "XYZ"%string (repeat 1 13)
                        [2; 3; 6] (Hw 2%Z _) eq_refl eq_refl (Hnz _ _)) _);
      [lia|repeat constructor; discriminate|reflexivity]. }
  split.
  { refine (@holds_eq _ _ _ (H 3%Z 0%nat "XYZ"%string (repeat 1 12)
                        [1; 2; 3; 6] (Hw 3%Z _) eq_refl eq_refl (Hnz _ _)) _);
      [lia|repeat constructor; discriminate|reflexivity]. }
  split.
  { refine (@holds_eq _ _ _ (H 1%Z 1%nat "ABC"%string (0 :: repeat 8 12 ++ [4])%list
                        [5; 4] (Hw 1%Z _) eq_refl eq_refl (Hnz _ _)) _);
      [lia|repeat constructor; discriminate|reflexivity]. }
  split.
  { refine (@holds_eq _ _ _ (H 2%Z 1%nat "ABC"%string (0 :: repeat 8 12)%list
                        [4; 5; 4] (Hw 2%Z _) eq_refl eq_refl (Hnz _ _)) _);
      [lia|repeat constructor; discriminate|reflexivity]. }
  refine (@holds_eq _ _ _ (H 3%Z 1%nat "ABC"%string (0 :: repeat 8 11)%list
                        [8; 4; 5; 4] (Hw 3%Z _) eq_refl eq_refl (Hnz _ _)) _);
      [lia|repeat constructor; discriminate|reflexivity].
Defined.

End ScaledPriceChange.

(** ** Price differentials *)

Section Differentials.

Lemma filter_labels {A : Type} (f : string) (cols : list (label * A)) :
  map fst (filter (fun c => (snd (fst c) =? f)%string) cols)
  = filter (is_field f) (map fst cols).
Proof.
  induction cols as [|[lab a] cols IH]; [reflexivity|].
  cbn [filter map fst]. unfold is_field at 1.
  destruct (snd lab =? f)%string; cbn [map fst]; now rewrite IH.
Qed.

Lemma loc_level1_length {A : Type} (f : string) (df : DataFrame label A) :
  length (loc_level1 f df) = length (field_symbols f (map fst (columns df))).
Proof.
  unfold loc_level1, field_symbols.
  now rewrite !length_map, <- filter_labels, length_map.
Qed.

(** Reading a column by its label is reading, among the columns of its
    field, the one of its symbol. *)
Lemma assoc_by_field {A : Type} (s f : string) (df : DataFrame label A) :
  assoc label_eqb (s, f) (columns df)
  = assoc String.eqb s
      (zip (field_symbols f (map fst (columns df))) (loc_level1 f df)).
Proof.
  rewrite <- (assoc_level1 s f (columns df)). f_equal.
  unfold field_symbols, loc_level1. rewrite <- filter_labels.
  match goal with
  | |- context [filter ?p (columns df)] => generalize (filter p (columns df))
  end.
  intros l. induction l as [|c l IH]; [reflexivity|].
  cbn [map zip combine]. f_equal. exact IH.
Qed.

Lemma assign_columns_labels {A : Type} (f : string) (values : list (list A))
  (cols : list (label * list A)) :
  map fst (assign_columns f values cols) = map fst cols.
Proof.
  revert values. induction cols as [|c cols IH]; intros values; [reflexivity|].
  cbn [assign_columns]. destruct (snd (fst c) =? f)%string.
  - destruct values; cbn [map fst]; now rewrite IH.
  - cbn [map]. now rewrite IH.
Qed.

Lemma assign_columns_other {A : Type} (f g s : string) (values : list (list A))
  (cols : list (label * list A)) :
  g <> f ->
  assoc label_eqb (s, g) (assign_columns f values cols)
  = assoc label_eqb (s, g) cols.
Proof.
  intros Hgf. revert values.
  induction cols as [|[[s' f'] a] cols IH]; intros values; [reflexivity|].
  cbn [assign_columns fst snd].
  destruct (String.eqb_spec f' f) as [->|Hne].
  - destruct values as [|v values]; cbn [assoc]; unfold label_eqb at 1;
      cbn [fst snd]; unfold label_eqb at 2; cbn [fst snd];
      (destruct (String.eqb_spec g f) as [E|_]; [contradiction|]);
      rewrite andb_false_r; apply IH.
  - cbn [assoc]. now rewrite IH.
Qed.

Lemma field_symbols_cons (f s' f' : string) (labels : list label) :
  field_symbols f ((s', f') :: labels)
  = if (f' =? f)%string then s' :: field_symbols f labels
    else field_symbols f labels.
Proof.
  unfold field_symbols. cbn [filter]. unfold is_field at 1. cbn [snd].
  now destruct (f' =? f)%string.
Qed.

Lemma assign_columns_same {A : Type} (f s : string) (values : list (list A))
  (cols : list (label * list A)) :
  length values = length (field_symbols f (map fst cols)) ->
  assoc label_eqb (s, f) (assign_columns f values cols)
  = assoc String.eqb s (zip (field_symbols f (map fst cols)) values).
Proof.
  revert values.
  induction cols as [|[[s' f'] a] cols IH]; intros values.
  - destruct values; intros Hlen; [reflexivity|discriminate Hlen].
  - cbn [assign_columns fst snd map]. rewrite field_symbols_cons.
    destruct (String.eqb_spec f' f) as [->|Hne]; intros Hlen.
    + destruct values as [|v values]; [discriminate Hlen|].
      cbn [zip combine assoc]. unfold label_eqb at 1. cbn [fst snd].
      rewrite String.eqb_refl, andb_true_r.
      destruct (s =? s')%string; [reflexivity|].
      apply IH. now inversion Hlen.
    + cbn [assoc]. unfold label_eqb at 1. cbn [fst snd].
      destruct (String.eqb_spec f f') as [E|_]; [congruence|].
      rewrite andb_false_r. now apply IH.
Qed.

Lemma assoc_zip_with {A B C : Type} (G : A -> B -> C) (s : string)
  (syms : list string) (a : list A) (b : list B) (x : A) (y : B) :
  length a = length syms -> length b = length syms ->
  assoc String.eqb s (zip syms a) = Some x ->
  assoc String.eqb s (zip syms b) = Some y ->
  assoc String.eqb s (zip syms (zip_with G a b)) = Some (G x y).
Proof.
  revert a b. induction syms as [|t syms IH]; intros a b Ha Hb Hx Hy.
  - destruct a; [discriminate Hx|discriminate Ha].
  - destruct a as [|a0 a]; [discriminate Ha|].
    destruct b as [|b0 b]; [discriminate Hb|].
    cbn [zip combine assoc zip_with map fst snd] in *.
    destruct (s =? t)%string.
    + now inversion Hx; inversion Hy; subst.
    + apply IH; try assumption; [now inversion Ha|now inversion Hb].
Qed.

Lemma zip_with_map {A A' B B' C : Type} (G : A' -> B' -> C)
  (fa : A -> A') (fb : B -> B') (a : list A) (b : list B) :
  zip_with G (map fa a) (map fb b) = zip_with (fun x y => G (fa x) (fb y)) a b.
Proof.
  unfold zip_with, zip. revert b.
  induction a as [|x a IH]; intros b; [reflexivity|].
  destruct b as [|y b]; [reflexivity|]. cbn [map combine fst snd].
  f_equal. apply IH.
Qed.

Lemma zip_with_length {A B C : Type} (G : A -> B -> C)
  (a : list A) (b : list B) :
  length (zip_with G a b) = Nat.min (length a) (length b).
Proof. unfold zip_with, zip. now rewrite length_map, length_combine. Qed.

Lemma nth_error_zip_with {A B C : Type} (G : A -> B -> C)
  (a : list A) (b : list B) (j : nat) (x : A) (y : B) :
  nth_error a j = Some x -> nth_error b j = Some y ->
  nth_error (zip_with G a b) j = Some (G x y).
Proof.
  revert a b. induction j as [|j IH]; intros [|a0 a] [|b0 b] Hx Hy;
    try discriminate.
  - now inversion Hx; inversion Hy.
  - cbn in Hx, Hy. unfold zip_with, zip in *. cbn [combine map nth_error].
    now apply IH.
Qed.

Lemma nth_error_removelast {A : Type} (l : list A) (j : nat) :
  (S j < length l)%nat -> nth_error (removelast l) j = nth_error l j.
Proof.
  revert j. induction l as [|x l IH]; intros j Hj; [cbn in Hj; lia|].
  destruct l as [|y l]; [cbn in Hj; lia|].
  cbn [removelast]. destruct j as [|j]; [reflexivity|].
  cbn [nth_error]. apply IH. cbn [length] in *. lia.
Qed.

Lemma assoc_In {K A : Type} (eqb : K -> K -> bool) (k : K) (l : list (K * A))
  (a : A) :
  assoc eqb k l = Some a -> exists k', In (k', a) l.
Proof.
  induction l as [|[k' a'] l IH]; [discriminate|]. cbn [assoc].
  destruct (eqb k k').
  - intros H. inversion H; subst. exists k'. now left.
  - intros H. destruct (IH H) as [k'' Hin]. exists k''. now right.
Qed.

Lemma assoc_zip_In {A : Type} (s : string) (syms : list string) (a : list A) :
  In s syms -> length a = length syms ->
  exists x, assoc String.eqb s (zip syms a) = Some x.
Proof.
  revert a. induction syms as [|t syms IH]; intros a Hin Hlen; [destruct Hin|].
  destruct a as [|a0 a]; [discriminate Hlen|]. cbn [zip combine assoc].
  destruct (String.eqb_spec s t) as [->|Hne]; [now exists a0|].
  apply IH; [destruct Hin; congruence|now inversion Hlen].
Qed.

Lemma field_symbols_app (f : string) (a b : list label) :
  field_symbols f (a ++ b) = field_symbols f a ++ field_symbols f b.
Proof. unfold field_symbols. now rewrite filter_app, map_app. Qed.

Lemma field_symbols_product (f : string) (symbols : list string) :
  In f differential_fields ->
  field_symbols f (from_product symbols differential_fields) = symbols.
Proof.
  intros Hf. unfold from_product.
  induction symbols as [|s symbols IH]; [reflexivity|].
  cbn [flat_map]. rewrite field_symbols_app, IH.
  cbn in Hf. destruct Hf as [<-|[<-|[<-|[<-|[<-|[]]]]]]; reflexivity.
Qed.

Lemma array_op_same_width {A B C : Type} (G : A -> B -> C)
  (a : list (list A)) (b : list (list B)) :
  length a = length b ->
  array_op G a b = Ok (zip_with (zip_with G) a b).
Proof. intros H. unfold array_op. now rewrite H, Nat.eqb_refl. Qed.

Lemma loc_field_set_same_width {A : Type} (f : string) (values : list (list A))
  (df : DataFrame label A) :
  values <> [] ->
  length values = length (field_symbols f (map fst (columns df))) ->
  loc_field_set f values df
  = Ok (mkFrame (index df) (assign_columns f values (columns df))).
Proof.
  intros Hne Hlen. unfold loc_field_set. rewrite loc_level1_length, <- Hlen.
  destruct values as [|v values]; [congruence|].
  cbn [length Nat.eqb]. now rewrite Nat.eqb_refl.
Qed.

Section Table.

Variable bars : DataFrame label Q.
Hypothesis Hwf : price_table bars.

Lemma price_field_width (f : string) :
  In f price_types ->
  length (loc_level1 f bars) = length (symbols_of bars).
Proof.
  intros Hf. destruct Hwf as [_ [_ Hal]]. rewrite Forall_forall in Hal.
  now rewrite loc_level1_length, (Hal f Hf).
Qed.

Lemma loc_field_price (f : string) :
  In f price_types -> loc_field f bars = Ok (loc_level1 f bars).
Proof.
  intros Hf. unfold loc_field. pose proof (@price_field_width f Hf) as Hlen.
  destruct Hwf as [_ [Hne _]].
  destruct (loc_level1 f bars); [|reflexivity].
  destruct (symbols_of bars); [congruence|discriminate Hlen].
Qed.

(** Every symbol has a column of every price type, with one value per
    date; it is the column of the symbol among those of the price type. *)
Lemma price_column (s f : string) :
  In s (symbols_of bars) -> In f price_types ->
  exists col,
    assoc label_eqb (s, f) (columns bars) = Some col /\
    assoc String.eqb s (zip (symbols_of bars) (loc_level1 f bars)) = Some col /\
    length col = length (index bars).
Proof.
  intros Hs Hf.
  destruct (@assoc_zip_In _ s (symbols_of bars) (loc_level1 f bars) Hs
              (@price_field_width f Hf)) as [col Hcol].
  exists col. destruct Hwf as [Hrect [_ Hal]].
  rewrite Forall_forall in Hal, Hrect.
  assert (E : assoc label_eqb (s, f) (columns bars) = Some col)
    by now rewrite assoc_by_field, (Hal f Hf).
  repeat split; try assumption.
  destruct (assoc_In _ _ _ E) as [k Hin]. exact (Hrect _ Hin).
Qed.

Lemma differential_width (g : list Q -> list Q) (fa fb : string) :
  In fa price_types -> In fb price_types ->
  length (differential bars g fa fb) = length (symbols_of bars).
Proof.
  intros Ha Hb. unfold differential.
  rewrite zip_with_length, !price_field_width by assumption. lia.
Qed.

Lemma blank_labels : map fst (blank_columns bars)
                     = from_product (symbols_of bars) differential_fields.
Proof. unfold blank_columns. rewrite map_map. cbn [fst]. apply map_id. Qed.

Lemma differential_array (g : list Q -> list Q) (fa fb : string) :
  In fa price_types -> In fb price_types ->
  array_op rel (map (skipn 1) (loc_level1 fa bars)) (map g (loc_level1 fb bars))
  = Ok (differential bars g fa fb).
Proof.
  intros Ha Hb. rewrite array_op_same_width.
  - now rewrite zip_with_map.
  - now rewrite !length_map, !price_field_width.
Qed.

Lemma assign_differential (g : list Q -> list Q) (fa fb f : string)
  (idx : list Z) (cols : list (label * list cell)) :
  In fa price_types -> In fb price_types -> In f differential_fields ->
  map fst cols = from_product (symbols_of bars) differential_fields ->
  loc_field_set f (differential bars g fa fb) (mkFrame idx cols)
  = Ok (mkFrame idx (assign_columns f (differential bars g fa fb) cols)).
Proof.
  intros Ha Hb Hf Hlab. apply loc_field_set_same_width.
  - intros E. apply (f_equal (@length _)) in E.
    rewrite differential_width in E by assumption.
    destruct Hwf as [_ [Hne _]].
    destruct (symbols_of bars); [congruence|discriminate E].
  - cbn [columns]. rewrite Hlab, field_symbols_product by assumption.
    now apply differential_width.
Qed.

Lemma calc_differentials_eq :
  calc_differentials bars
  = Ok (mkFrame (skipn 1 (index bars)) (filled_columns bars)).
Proof.
  assert (Ho : In "open_price"%string price_types) by (cbn; tauto).
  assert (Hh : In "high"%string price_types) by (cbn; tauto).
  assert (Hl : In "low"%string price_types) by (cbn; tauto).
  assert (Hc : In "close_price"%string price_types) by (cbn; tauto).
  unfold calc_differentials.
  rewrite !loc_field_price by assumption. cbn [bind].
  rewrite !differential_array by assumption. cbn [bind].
  fold differential_fields. fold (blank_columns bars).
  pose proof blank_labels as L0.
  rewrite (@assign_differential _ _ _ "cc") by (assumption || (cbn; tauto)).
  cbn [bind].
  rewrite (@assign_differential _ _ _ "co")
    by (assumption || (cbn; tauto) || now rewrite assign_columns_labels).
  cbn [bind].
  rewrite (@assign_differential _ _ _ "oc")
    by (assumption || (cbn; tauto) || now rewrite !assign_columns_labels).
  cbn [bind].
  rewrite (@assign_differential _ _ _ "high")
    by (assumption || (cbn; tauto) || now rewrite !assign_columns_labels).
  cbn [bind].
  rewrite (@assign_differential _ _ _ "low")
    by (assumption || (cbn; tauto) || now rewrite !assign_columns_labels).
  reflexivity.
Qed.

Lemma lookup_differential (g : list Q -> list Q) (fa fb s : string) :
  In s (symbols_of bars) -> In fa price_types -> In fb price_types ->
  exists ca cb,
    assoc label_eqb (s, fa) (columns bars) = Some ca /\
    assoc label_eqb (s, fb) (columns bars) = Some cb /\
    length ca = length (index bars) /\
    length cb = length (index bars) /\
    assoc String.eqb s (zip (symbols_of bars) (differential bars g fa fb))
    = Some (zip_with rel (skipn 1 ca) (g cb)).
Proof.
  intros Hs Ha Hb.
  destruct (@price_column s fa Hs Ha) as [ca [Ea [Za La]]].
  destruct (@price_column s fb Hs Hb) as [cb [Eb [Zb Lb]]].
  exists ca, cb. repeat split; try assumption.
  unfold differential.
  apply (assoc_zip_with (fun a b => zip_with rel (skipn 1 a) (g b)));
    try assumption; now apply price_field_width.
Qed.

Lemma filled_labels :
  map fst (filled_columns bars)
  = from_product (symbols_of bars) differential_fields.
Proof.
  unfold filled_columns. rewrite !assign_columns_labels. apply blank_labels.
Qed.

Ltac skip_later_fields :=
  repeat (rewrite assign_columns_other by discriminate).

Ltac product_symbols :=
  rewrite ?assign_columns_labels; rewrite blank_labels;
  rewrite field_symbols_product by (cbn; tauto).

Ltac read_own_field :=
  rewrite assign_columns_same;
  [ product_symbols; reflexivity
  | product_symbols; apply differential_width; cbn; tauto ].

Lemma filled_cc (s : string) :
  assoc label_eqb (s, "cc"%string) (filled_columns bars)
  = assoc String.eqb s
      (zip (symbols_of bars)
         (differential bars (@removelast Q) "close_price" "close_price")).
Proof. unfold filled_columns. skip_later_fields. read_own_field. Qed.

Lemma filled_co (s : string) :
  assoc label_eqb (s, "co"%string) (filled_columns bars)
  = assoc String.eqb s
      (zip (symbols_of bars)
         (differential bars (@removelast Q) "open_price" "close_price")).
Proof. unfold filled_columns. skip_later_fields. read_own_field. Qed.

Lemma filled_oc (s : string) :
  assoc label_eqb (s, "oc"%string) (filled_columns bars)
  = assoc String.eqb s
      (zip (symbols_of bars)
         (differential bars (skipn 1) "close_price" "open_price")).
Proof. unfold filled_columns. skip_later_fields. read_own_field. Qed.

Lemma filled_high (s : string) :
  assoc label_eqb (s, "high"%string) (filled_columns bars)
  = assoc String.eqb s
      (zip (symbols_of bars) (differential bars (skipn 1) "high" "open_price")).
Proof. unfold filled_columns. skip_later_fields. read_own_field. Qed.

Lemma filled_low (s : string) :
  assoc label_eqb (s, "low"%string) (filled_columns bars)
  = assoc String.eqb s
      (zip (symbols_of bars) (differential bars (skipn 1) "low" "open_price")).
Proof. unfold filled_columns. skip_later_fields. read_own_field. Qed.

Lemma nth_error_in_range {A : Type} (l : list A) (i : nat) :
  (i < length l)%nat -> exists x, nth_error l i = Some x.
Proof.
  intros H. destruct (nth_error l i) eqn:E; [now eexists|].
  apply nth_error_None in E. lia.
Qed.

Lemma removelast_length {A : Type} (l : list A) :
  length (removelast l) = (length l - 1)%nat.
Proof. rewrite removelast_firstn_len, length_firstn. lia. Qed.

Lemma nth_error_tail {A : Type} (l : list A) (j : nat) :
  nth_error (skipn 1 l) j = nth_error l (S j).
Proof. now destruct l; [destruct j|]. Qed.

(** The cells of the table returned, as the code divides them. *)
Lemma calc_differentials_cells :
  (2 <= length (index bars))%nat ->
  exists data,
    calc_differentials bars = Ok data /\
    index data = skipn 1 (index bars) /\
    length (index data) = (length (index bars) - 1)%nat /\
    map fst (columns data)
    = from_product (symbols_of bars) differential_fields /\
    forall s, In s (symbols_of bars) ->
      (forall f, In f differential_fields ->
         exists col, assoc label_eqb (s, f) (columns data) = Some col /\
                     length col = (length (index bars) - 1)%nat) /\
      forall i, (1 <= i < length (index bars))%nat ->
        exists o h l c pc,
          cell_at bars (s, "open_price"%string) i = Some o /\
          cell_at bars (s, "high"%string) i = Some h /\
          cell_at bars (s, "low"%string) i = Some l /\
          cell_at bars (s, "close_price"%string) i = Some c /\
          cell_at bars (s, "close_price"%string) (i - 1) = Some pc /\
          cell_at data (s, "cc"%string) (i - 1) = Some (rel c pc) /\
          cell_at data (s, "co"%string) (i - 1) = Some (rel o pc) /\
          cell_at data (s, "oc"%string) (i - 1) = Some (rel c o) /\
          cell_at data (s, "high"%string) (i - 1) = Some (rel h o) /\
          cell_at data (s, "low"%string) (i - 1) = Some (rel l o).
Proof.
  intros HN. exists (mkFrame (skipn 1 (index bars)) (filled_columns bars)).
  split; [apply calc_differentials_eq|]. cbn [index columns].
  split; [reflexivity|]. split; [now rewrite length_skipn|].
  split; [apply filled_labels|].
  assert (Ho : In "open_price"%string price_types) by (cbn; tauto).
  assert (Hh : In "high"%string price_types) by (cbn; tauto).
  assert (Hl : In "low"%string price_types) by (cbn; tauto).
  assert (Hc : In "close_price"%string price_types) by (cbn; tauto).
  intros s Hs.
  destruct (@lookup_differential (@removelast Q) _ _ s Hs Hc Hc)
    as [c [c' [Ec [Ec' [Lc [_ Dcc]]]]]].
  rewrite Ec in Ec'. inversion Ec'; subst c'. clear Ec'.
  destruct (@lookup_differential (@removelast Q) _ _ s Hs Ho Hc)
    as [o [c' [Eo [Ec' [Lo [_ Dco]]]]]].
  rewrite Ec in Ec'. inversion Ec'; subst c'. clear Ec'.
  destruct (@lookup_differential (skipn 1) _ _ s Hs Hc Ho)
    as [c' [o' [Ec' [Eo' [_ [_ Doc]]]]]].
  rewrite Ec in Ec'. rewrite Eo in Eo'.
  inversion Ec'; inversion Eo'; subst c' o'. clear Ec' Eo'.
  destruct (@lookup_differential (skipn 1) _ _ s Hs Hh Ho)
    as [h [o' [Eh [Eo' [Lh [_ Dhigh]]]]]].
  rewrite Eo in Eo'. inversion Eo'; subst o'. clear Eo'.
  destruct (@lookup_differential (skipn 1) _ _ s Hs Hl Ho)
    as [l [o' [El [Eo' [Ll [_ Dlow]]]]]].
  rewrite Eo in Eo'. inversion Eo'; subst o'. clear Eo'.
  split.
  - intros f Hf. cbn in Hf.
    destruct Hf as [<-|[<-|[<-|[<-|[<-|[]]]]]];
      [rewrite filled_cc, Dcc|rewrite filled_co, Dco|rewrite filled_oc, Doc
      |rewrite filled_high, Dhigh|rewrite filled_low, Dlow];
      eexists; (split; [reflexivity|]);
      rewrite zip_with_length, ?length_skipn, ?removelast_length; lia.
  - intros i Hi. unfold cell_at. cbn [columns].
    rewrite Eo, Eh, El, Ec, filled_cc, Dcc, filled_co, Dco, filled_oc, Doc,
      filled_high, Dhigh, filled_low, Dlow.
    destruct (@nth_error_in_range _ o i ltac:(lia)) as [oi Hoi].
    destruct (@nth_error_in_range _ h i ltac:(lia)) as [hi Hhi].
    destruct (@nth_error_in_range _ l i ltac:(lia)) as [li Hli].
    destruct (@nth_error_in_range _ c i ltac:(lia)) as [ci Hci].
    destruct (@nth_error_in_range _ c (i - 1) ltac:(lia)) as [pc Hpc].
    exists oi, hi, li, ci, pc.
    assert (Hskip : forall (x : list Q) v, nth_error x i = Some v ->
                      nth_error (skipn 1 x) (i - 1) = Some v).
    { intros x v Hx. rewrite nth_error_tail.
      now replace (S (i - 1)) with i by lia. }
    assert (Hprev : nth_error (removelast c) (i - 1) = Some pc).
    { rewrite nth_error_removelast by lia. exact Hpc. }
    repeat split; try assumption;
      apply nth_error_zip_with; auto.
Qed.

Lemma rel_nonzero (x y : Q) :
  ~ (y == 0)%Q -> rel x y = Some ((x - y) / y)%Q.
Proof.
  intros Hy. unfold rel, cdiv. destruct (Qeq_bool y 0) eqn:E; [|reflexivity].
  apply Qeq_bool_iff in E. contradiction.
Qed.

(** C3.  On a price table of N >= 2 dated rows the differentials are
    computed, the table returned has the dates after the first (N - 1
    rows, in every column), and at every date i >= 1 and for every symbol
    cc = (close_i - close_prev) / close_prev, co = (open_i - close_prev) /
    close_prev, oc = (close_i - open_i) / open_i, high = (high_i - open_i)
    / open_i and low = (low_i - open_i) / open_i, with prev = i - 1: each
    cell is that number wherever its denominator is not zero. *)
Theorem calc_differentials_spec :
  (2 <= length (index bars))%nat ->
  exists data,
    calc_differentials bars = Ok data /\
    index data = skipn 1 (index bars) /\
    length (index data) = (length (index bars) - 1)%nat /\
    map fst (columns data)
    = from_product (symbols_of bars) differential_fields /\
    forall s, In s (symbols_of bars) ->
      (forall f, In f differential_fields ->
         exists col, assoc label_eqb (s, f) (columns data) = Some col /\
                     length col = (length (index bars) - 1)%nat) /\
      forall i, (1 <= i < length (index bars))%nat ->
        exists o h l c pc,
          cell_at bars (s, "open_price"%string) i = Some o /\
          cell_at bars (s, "high"%string) i = Some h /\
          cell_at bars (s, "low"%string) i = Some l /\
          cell_at bars (s, "close_price"%string) i = Some c /\
          cell_at bars (s, "close_price"%string) (i - 1) = Some pc /\
          (~ (pc == 0)%Q ->
           cell_at data (s, "cc"%string) (i - 1)
           = Some (Some ((c - pc) / pc)%Q) /\
           cell_at data (s, "co"%string) (i - 1)
           = Some (Some ((o - pc) / pc)%Q)) /\
          (~ (o == 0)%Q ->
           cell_at data (s, "oc"%string) (i - 1)
           = Some (Some ((c - o) / o)%Q) /\
           cell_at data (s, "high"%string) (i - 1)
           = Some (Some ((h - o) / o)%Q) /\
           cell_at data (s, "low"%string) (i - 1)
           = Some (Some ((l - o) / o)%Q)).
Proof.
  intros HN. destruct (calc_differentials_cells HN)
    as [data [E [I [L [C H]]]]].
  exists data. repeat (split; [assumption|]).
  intros s Hs. destruct (H s Hs) as [Hcol Hcell]. split; [exact Hcol|].
  intros i Hi.
  destruct (Hcell i Hi)
    as [o [h [l [c [pc [Ho [Hh [Hl [Hc [Hpc [Hcc [Hco [Hoc [Hhi Hlo]]]]]]]]]]]]]].
  exists o, h, l, c, pc. repeat (split; [assumption|]). split.
  - intros Hz. rewrite Hcc, Hco, !(rel_nonzero _ Hz). now split.
  - intros Hz. rewrite Hoc, Hhi, Hlo, !(rel_nonzero _ Hz). now repeat split.
Qed.

End Table.

Lemma two_bars_price_table : price_table two_bars.
Proof.
  split; [repeat constructor|]. split; [discriminate|]. repeat constructor.
Qed.

Lemma three_bars_price_table : price_table three_bars.
Proof.
  split; [repeat constructor|]. split; [discriminate|]. repeat constructor.
Qed.

Lemma calc_differentials_spec_witness :
  exists data,
    calc_differentials three_bars = Ok data /\
    index data = [1; 2]%Z /\
    holds (cell_at data ("AAA", "cc")%string 1) 0.1 /\
    holds (cell_at data ("AAA", "co")%string 1) (1 # 11) /\
    holds (cell_at data ("AAA", "oc")%string 1) (1 # 120) /\
    holds (cell_at data ("AAA", "high")%string 1) 0.05 /\
    holds (cell_at data ("AAA", "low")%string 1) (-0.05) /\
    holds (cell_at data ("BBB", "cc")%string 0) 0.25 /\
    holds (cell_at data ("BBB", "co")%string 0) 0.05 /\
    holds (cell_at data ("BBB", "oc")%string 0) (4 # 21) /\
    holds (cell_at data ("BBB", "high")%string 0) (5 # 21) /\
    holds (cell_at data ("BBB", "low")%string 0) (- (1 # 21)).
Proof.
  destruct (@calc_differentials_spec three_bars three_bars_price_table)
    as [data [E [I [_ [_ H]]]]]; [cbn; lia|].
  exists data. split; [exact E|]. split; [exact I|].
  destruct (H "AAA"%string) as [_ HA]; [now left|].
  destruct (HA 2%nat) as [o [h [l [c [pc [Ho [Hh [Hl [Hc [Hpc [A1 A2]]]]]]]]]]];
    [cbn; lia|].
  vm_compute in Ho, Hh, Hl, Hc, Hpc.
  inversion Ho; inversion Hh; inversion Hl; inversion Hc; inversion Hpc.
  subst o h l c pc.
  destruct A1 as [Acc Aco]; [discriminate|].
  destruct A2 as [Aoc [Ahi Alo]]; [discriminate|].
  destruct (H "BBB"%string) as [_ HB]; [right; now left|].
  destruct (HB 1%nat) as [o [h [l [c [pc [Ho' [Hh' [Hl' [Hc' [Hpc' [B1 B2]]]]]]]]]]];
    [cbn; lia|].
  vm_compute in Ho', Hh', Hl', Hc', Hpc'.
  inversion Ho'; inversion Hh'; inversion Hl'; inversion Hc'; inversion Hpc'.
  subst o h l c pc.
  destruct B1 as [Bcc Bco]; [discriminate|].
  destruct B2 as [Boc [Bhi Blo]]; [discriminate|].
  change (2 - 1)%nat with 1%nat in Acc, Aco, Aoc, Ahi, Alo.
  change (1 - 1)%nat with 0%nat in Bcc, Bco, Boc, Bhi, Blo.
  rewrite Acc, Aco, Aoc, Ahi, Alo, Bcc, Bco, Boc, Bhi, Blo.
  repeat split.
Defined.

End Differentials.

(** ** Factor decomposition: facts *)

Section FactorFacts.

Import Reals Lra Factor.
Local Open Scope R_scope.

Section Fit.

Variable pca_transform : nat -> list (list R) -> list (list R).

Lemma dot_nonneg (x : list R) : 0 <= dot x x.
Proof.
  unfold dot. induction x as [|v x IH]; cbn; [lra|].
  unfold rsum in IH. nra.
Qed.

Lemma dot_scale (x y : list R) (s : R) :
  s <> 0 ->
  dot (map (fun v => v / s) x) (map (fun v => v / s) y) = dot x y / (s * s).
Proof.
  intros Hs. unfold dot. revert y.
  induction x as [|v x IH]; intros [|w y]; cbn; try (field; assumption).
  unfold rsum in *. rewrite IH. field. assumption.
Qed.

(** A vector that is not null, divided by its norm, has norm 1. *)
Lemma normalize_unit (x : list R) : dot x x <> 0 -> l2 (normalize x) = 1.
Proof.
  intros Hx. pose proof (dot_nonneg x) as H0.
  assert (Hs : sqrt (dot x x) <> 0).
  { intros E. apply sqrt_eq_0 in E; [contradiction|assumption]. }
  unfold l2, normalize. rewrite dot_scale by assumption.
  rewrite sqrt_sqrt by assumption.
  replace (dot x x / dot x x) with 1 by (field; assumption).
  apply sqrt_1.
Qed.

(** C6, amended.  Every column of [norm_loadings] -- the scores of one
    component over the dates -- has L2 norm 1 (exactly, so within 1e-9),
    as soon as the scores of the component are not all zero. *)
Theorem norm_loadings_columns_unit (prices : list (list R)) (k : nat)
  (scores : list R) :
  nth_error (pca_transform 4 (map standardize prices)) k = Some scores ->
  dot scores scores <> 0 ->
  exists column,
    nth_error (norm_loadings (pca_analysis pca_transform prices)) k
    = Some column /\
    column = normalize scores /\
    l2 column = 1 /\
    Rabs (l2 column - 1) <= 1 / 1000000000.
Proof.
  intros Hk Hnz. exists (normalize scores). cbn [pca_analysis norm_loadings].
  rewrite nth_error_map, Hk. split; [reflexivity|]. split; [reflexivity|].
  rewrite (normalize_unit scores Hnz). split; [reflexivity|].
  replace (1 - 1) with 0 by lra. rewrite Rabs_R0. lra.
Qed.

End Fit.

Ltac unfold_vectors :=
  cbv [dot rsum row transform n_rows col_mean map combine fold_right fst snd
       nth seq length INR example_scores example_standardized
       example_directions example_prices].

Lemma standardize_known (p : list R) (m s : R) :
  col_mean p = m -> col_std p = s ->
  standardize p = map (fun v => (v - m) / s) p.
Proof. intros <- <-. reflexivity. Qed.

Lemma col_std_known (p : list R) (m s : R) :
  col_mean p = m -> 0 <= s ->
  rsum (map (fun v => (v - m) * (v - m)) p) / (INR (length p) - 1) = s * s ->
  col_std p = s.
Proof.
  intros Hm Hs H. unfold col_std. rewrite Hm, H. now apply sqrt_square.
Qed.

Lemma example_std (p : list R) :
  In p example_prices -> col_mean p = 100 /\ col_std p = 10.
Proof.
  intros Hp.
  assert (Hm : col_mean p = 100).
  { cbn in Hp. destruct Hp as [<-|[<-|[<-|[<-|[]]]]]; unfold_vectors; field. }
  split; [exact Hm|]. apply (@col_std_known p 100 10 Hm); [lra|].
  cbn in Hp. destruct Hp as [<-|[<-|[<-|[<-|[]]]]]; unfold_vectors; field.
Qed.

Lemma example_standardize :
  map standardize example_prices = example_standardized.
Proof.
  unfold example_prices at 1. cbn [map].
  repeat match goal with
         | |- context [standardize ?p] =>
             rewrite (@standardize_known p 100 10)
               by (apply example_std; cbn; auto 6)
         end.
  unfold example_standardized. cbn [map].
  repeat (f_equal; try lra).
Qed.

Ltac pick_column H :=
  repeat match type of H with
         | nth_error _ ?j = Some _ =>
             is_var j; destruct j as [|j]; cbn [nth_error] in H
         end;
  try discriminate H; inversion H; clear H.

(** The example scores are the principal scores of the standardized
    example prices. *)
Lemma example_principal : principal_scores example_standardized example_scores.
Proof.
  exists example_directions. split; [repeat constructor|].
  split; [|split; [|split]].
  - intros j k vj vk Hj Hk. unfold example_directions in Hj, Hk.
    pick_column Hj; pick_column Hk; subst; cbn [Nat.eqb]; unfold_vectors; field.
  - unfold_vectors. repeat (f_equal; try field).
  - intros j k tj tk Hjk Hj Hk. unfold example_scores in Hj, Hk.
    pick_column Hj; pick_column Hk; subst; try congruence;
      unfold_vectors; field.
  - intros k tk tk' Hk Hk'. unfold example_scores in Hk, Hk'.
    pick_column Hk; pick_column Hk'; subst; unfold_vectors; lra.
Qed.

(** C6, as claimed, fails: on the example table the loading vector of the
    last date has L2 norm [sqrt (4/5)], below 0.9. *)
Lemma rows_not_unit : ~ rows_unit.
Proof.
  intros H.
  specialize (H (fun _ _ => example_scores) example_prices).
  cbv beta in H. rewrite example_standardize in H.
  specialize (H example_principal).
  assert (Hstd : Forall (fun p => col_std p <> 0) example_prices).
  { apply Forall_forall. intros p Hp.
    destruct (@example_std p Hp) as [_ ->]. lra. }
  specialize (H Hstd 4%nat ltac:(cbn; lia)).
  cbv [pca_analysis norm_loadings example_scores row map nth normalize l2] in H.
  set (s1 := sqrt (dot [2; - 2; 0; 0; 0] [2; - 2; 0; 0; 0])) in H.
  set (s2 := sqrt (dot [0; 0; 3 / 2; - 3 / 2; 0] [0; 0; 3 / 2; - 3 / 2; 0])) in H.
  set (s3 := sqrt (dot [3 / 4; 3 / 4; - 3 / 4; - 3 / 4; 0]
                       [3 / 4; 3 / 4; - 3 / 4; - 3 / 4; 0])) in H.
  set (s4 := sqrt (dot [1 / 4; 1 / 4; 1 / 4; 1 / 4; - 1]
                       [1 / 4; 1 / 4; 1 / 4; 1 / 4; - 1])) in H.
  assert (Hsq : s4 * s4 = 5 / 4).
  { unfold s4. rewrite sqrt_sqrt by apply dot_nonneg. unfold_vectors. field. }
  assert (Hs4 : s4 <> 0) by nra.
  assert (E : dot [0 / s1; 0 / s2; 0 / s3; - 1 / s4]
                  [0 / s1; 0 / s2; 0 / s3; - 1 / s4] = 4 / 5).
  { unfold_vectors.
    replace (- 1 / s4 * (- 1 / s4)) with (1 / (s4 * s4)) by (field; assumption).
    rewrite Hsq. replace (1 / (5 / 4)) with (4 / 5) by field.
    unfold Rdiv. ring. }
  rewrite E in H.
  assert (Hlt : sqrt (4 / 5) < 9 / 10).
  { replace (9 / 10) with (sqrt (9 / 10 * (9 / 10)))
      by (apply sqrt_square; lra).
    apply sqrt_lt_1_alt. lra. }
  rewrite Rabs_left in H by lra. lra.
Qed.

Lemma norm_loadings_columns_unit_witness :
  exists column,
    nth_error
      (norm_loadings (pca_analysis (fun _ _ => example_scores) example_prices))
      3 = Some column /\
    column = normalize [1 / 4; 1 / 4; 1 / 4; 1 / 4; - 1] /\
    l2 column = 1 /\
    Rabs (l2 column - 1) <= 1 / 1000000000.
Proof.
  apply (@norm_loadings_columns_unit (fun _ _ => example_scores)
           example_prices 3 [1 / 4; 1 / 4; 1 / 4; 1 / 4; - 1]).
  - reflexivity.
  - unfold_vectors. lra.
Defined.

End FactorFacts.

(** ** Further facts: the ladders of orders *)

Section Ladders.

Variable std : list Q -> Q.
Variable self : strategy.

Lemma open_to_high_raises (sym : string) (e : exn) :
  open_to_high self sym = Raise e -> e = KeyError.
Proof.
  unfold open_to_high, getitem. intros H.
  destruct (assoc label_eqb (sym, "high"%string) (columns (etf_bars self)));
    cbn [bind] in H; [|now inversion H].
  destruct (assoc label_eqb (sym, "open_price"%string) (columns (etf_bars self)));
    cbn [bind] in H; [discriminate H|now inversion H].
Qed.

Lemma order_quantities_raises (n : Z) :
  (n <= 1)%Z -> order_quantities n = Raise ZeroDivisionError.
Proof.
  intros Hn. unfold order_quantities. now rewrite range_nil by lia.
Qed.

(** The two outcomes of [create_sell_orders]: an exception before any
    order is saved, or the whole ladder. *)
Lemma create_sell_orders_cases (sym : string) (n : Z) (saved : list saved_order) :
  create_sell_orders std self sym n saved
  = match order_quantities n, open_to_high self sym with
    | Raise e, _ => (Raise e, saved)
    | Ok _, Raise e => (Raise e, saved)
    | Ok _, Ok _ => (Ok tt, saved ++ sell_ladder std self sym n)
    end.
Proof.
  unfold create_sell_orders, sell_ladder.
  destruct (order_quantities n) as [l|e]; [|reflexivity].
  destruct (open_to_high self sym) as [o2h|e]; [|reflexivity].
  cbv zeta. apply for_each_create.
Qed.

Lemma create_buy_orders_cases (sym : string) (n : Z) (saved : list saved_order) :
  create_buy_orders std self sym n saved
  = match order_quantities n, open_to_high self sym with
    | Raise e, _ => (Raise e, saved)
    | Ok _, Raise e => (Raise e, saved)
    | Ok _, Ok _ => (Ok tt, saved ++ buy_ladder std self sym n)
    end.
Proof.
  unfold create_buy_orders, buy_ladder.
  destruct (order_quantities n) as [l|e]; [|reflexivity].
  destruct (open_to_high self sym) as [o2h|e]; [|reflexivity].
  cbv zeta. apply for_each_create.
Qed.

Lemma map_snd_zip {A B : Type} (a : list A) (b : list B) :
  length a = length b -> map snd (zip a b) = b.
Proof.
  unfold zip. revert b. induction a as [|x a IH]; intros [|y b] H;
    try discriminate H; [reflexivity|].
  cbn [combine map snd]. f_equal. apply IH. now inversion H.
Qed.

Lemma map_fst_zip {A B : Type} (a : list A) (b : list B) :
  length a = length b -> map fst (zip a b) = a.
Proof.
  unfold zip. revert b. induction a as [|x a IH]; intros [|y b] H;
    try discriminate H; [reflexivity|].
  cbn [combine map fst]. f_equal. apply IH. now inversion H.
Qed.

Lemma sell_ladder_quantities (sym : string) (n : Z) (l : list Z) :
  order_quantities n = Ok l -> succeeds (open_to_high self sym) = true ->
  map so_quantity (sell_ladder std self sym n) = l /\
  Forall (fun o => so_symbol o = sym /\ so_instruction o = "SELL"%string)
    (sell_ladder std self sym n).
Proof.
  intros E Hb. unfold sell_ladder. rewrite E.
  destruct (open_to_high self sym) as [o2h|]; [|discriminate Hb]. cbv zeta.
  split.
  - rewrite map_map. cbn [so_quantity]. apply map_snd_zip, linspace_length.
  - apply Forall_forall. intros o Ho. apply in_map_iff in Ho.
    destruct Ho as [pq [<- _]]. now split.
Qed.

Lemma buy_ladder_quantities (sym : string) (n : Z) (l : list Z) :
  order_quantities n = Ok l -> succeeds (open_to_high self sym) = true ->
  map so_quantity (buy_ladder std self sym n) = l /\
  Forall (fun o => so_symbol o = sym /\ so_instruction o = "BUY"%string)
    (buy_ladder std self sym n).
Proof.
  intros E Hb. unfold buy_ladder. rewrite E.
  destruct (open_to_high self sym) as [o2h|]; [|discriminate Hb]. cbv zeta.
  split.
  - rewrite map_map. cbn [so_quantity]. apply map_snd_zip, linspace_length.
  - apply Forall_forall. intros o Ho. apply in_map_iff in Ho.
    destruct Ho as [pq [<- _]]. now split.
Qed.

(** X1: on two shares or more of a symbol that has its bars, selling and
    buying save the same ladder of quantities -- between 1 and 19 orders
    of the symbol, every quantity positive, and together never more than
    the shares to place. *)
Theorem create_orders_within_shares (sym : string) (n : Z)
  (saved : list saved_order) :
  (2 <= n)%Z -> succeeds (open_to_high self sym) = true ->
  exists sold bought,
    create_sell_orders std self sym n saved = (Ok tt, saved ++ sold) /\
    create_buy_orders std self sym n saved = (Ok tt, saved ++ bought) /\
    map so_quantity sold = map so_quantity bought /\
    (1 <= length sold <= 19)%nat /\
    Forall (fun o => so_symbol o = sym /\ so_instruction o = "SELL"%string /\
                     (0 < so_quantity o)%Z) sold /\
    Forall (fun o => so_symbol o = sym /\ so_instruction o = "BUY"%string /\
                     (0 < so_quantity o)%Z) bought /\
    (sum (map so_quantity sold) <= n)%Z.
Proof.
  intros Hn Hb.
  destruct (@order_quantities_invariants n Hn) as [l [E [Hpos [Hlen Hsum]]]].
  destruct (@sell_ladder_quantities sym n l E Hb) as [Qs Fs].
  destruct (@buy_ladder_quantities sym n l E Hb) as [Qb Fb].
  exists (sell_ladder std self sym n), (buy_ladder std self sym n).
  rewrite create_sell_orders_cases, create_buy_orders_cases, E.
  destruct (open_to_high self sym) as [o2h|]; [|discriminate Hb].
  rewrite Qs, Qb. repeat split; try assumption.
  - rewrite <- (length_map so_quantity), Qs. lia.
  - rewrite <- (length_map so_quantity), Qs. lia.
  - rewrite Forall_forall in *. intros o Ho. destruct (Fs o Ho) as [H1 H2].
    repeat split; try assumption. apply Hpos. rewrite <- Qs. now apply in_map.
  - rewrite Forall_forall in *. intros o Ho. destruct (Fb o Ho) as [H1 H2].
    repeat split; try assumption. apply Hpos. rewrite <- Qb. now apply in_map.
Qed.

(** X2: how [create_sell_orders] and [create_buy_orders] fail.  On one
    share or fewer they raise [ZeroDivisionError]; on more, a symbol
    without [high] or [open_price] bars raises [KeyError]; either way not
    a single order has been saved. *)
Theorem create_orders_failures (sym : string) (n : Z)
  (saved : list saved_order) :
  ((n <= 1)%Z ->
   create_sell_orders std self sym n saved = (Raise ZeroDivisionError, saved) /\
   create_buy_orders std self sym n saved = (Raise ZeroDivisionError, saved)) /\
  ((2 <= n)%Z -> succeeds (open_to_high self sym) = false ->
   create_sell_orders std self sym n saved = (Raise KeyError, saved) /\
   create_buy_orders std self sym n saved = (Raise KeyError, saved)) /\
  (forall r saved',
     create_sell_orders std self sym n saved = (r, saved') \/
     create_buy_orders std self sym n saved = (r, saved') ->
     r <> Ok tt -> saved' = saved).
Proof.
  rewrite create_sell_orders_cases, create_buy_orders_cases. split; [|split].
  - intros Hn. now rewrite order_quantities_raises.
  - intros Hn Hb.
    destruct (@order_quantities_invariants n Hn) as [l [E _]]. rewrite E.
    destruct (open_to_high self sym) as [o2h|e] eqn:Eo; [discriminate Hb|].
    now rewrite (open_to_high_raises _ Eo).
  - intros r saved' H Hr.
    destruct (order_quantities n) as [l|e];
      [destruct (open_to_high self sym) as [o2h|e]|];
      destruct H as [H|H]; inversion H; subst; congruence.
Qed.

End Ladders.

(** ** Further facts: the shape of a ladder *)

Section LadderShape.

Lemma range_sorted (a b : Z) : StronglySorted Z.lt (range a b).
Proof.
  remember (Z.to_nat (b - a)) as k eqn:Hk. revert a Hk.
  induction k as [|k IH]; intros a Hk.
  - rewrite range_nil by lia. constructor.
  - rewrite range_cons by lia. constructor.
    + apply IH. lia.
    + apply Forall_forall. intros x Hx. apply range_In in Hx. lia.
Qed.

Lemma seq_sorted (a n : nat) : StronglySorted lt (seq a n).
Proof.
  revert a. induction n as [|n IH]; intros a; cbn [seq]; constructor.
  - apply IH.
  - apply Forall_forall. intros x Hx. apply in_seq in Hx. lia.
Qed.

Lemma sorted_map_filter {A B : Type} (R : A -> A -> Prop) (R' : B -> B -> Prop)
  (f : A -> B) (p : A -> bool) (l : list A) :
  (forall x y, R x y -> R' (f x) (f y)) ->
  StronglySorted R l -> StronglySorted R' (map f (filter p l)).
Proof.
  intros Hf. induction 1 as [|x l Hs IH Hall]; cbn [filter map]; [constructor|].
  destruct (p x); cbn [map]; [|exact IH]. constructor; [exact IH|].
  apply Forall_forall. intros y Hy. apply in_map_iff in Hy.
  destruct Hy as [z [<- Hz]]. apply filter_In in Hz. destruct Hz as [Hz _].
  rewrite Forall_forall in Hall. apply Hf. now apply Hall.
Qed.

Lemma sorted_map {A B : Type} (R : A -> A -> Prop) (R' : B -> B -> Prop)
  (f : A -> B) (l : list A) :
  (forall x y, R x y -> R' (f x) (f y)) ->
  StronglySorted R l -> StronglySorted R' (map f l).
Proof.
  intros Hf. induction 1 as [|x l Hs IH Hall]; cbn [map]; constructor.
  - exact IH.
  - apply Forall_forall. intros y Hy. apply in_map_iff in Hy.
    destruct Hy as [z [<- Hz]]. rewrite Forall_forall in Hall.
    apply Hf. now apply Hall.
Qed.

Lemma sorted_zip {A B : Type} (R1 : A -> A -> Prop) (R2 : B -> B -> Prop)
  (a : list A) (b : list B) :
  StronglySorted R1 a -> StronglySorted R2 b ->
  StronglySorted (fun p q => R1 (fst p) (fst q) /\ R2 (snd p) (snd q))
    (zip a b).
Proof.
  unfold zip. intros Ha. revert b.
  induction Ha as [|x a Hs IH Hall]; intros b Hb; [constructor|].
  destruct Hb as [|y b Hsb Hallb]; cbn [combine]; constructor.
  - now apply IH.
  - apply Forall_forall. intros [x' y'] Hin. cbn [fst snd].
    rewrite Forall_forall in Hall, Hallb. split.
    + apply Hall. eapply in_combine_l. exact Hin.
    + apply Hallb. eapply in_combine_r. exact Hin.
Qed.

(** The quantities of a ladder never decrease. *)
Lemma order_quantities_sorted (n : Z) :
  (2 <= n)%Z ->
  exists l, order_quantities n = Ok l /\ StronglySorted Z.le l.
Proof.
  intros Hn. pose proof (order_quantities_eq Hn) as E. cbv zeta in E.
  eexists. split; [exact E|].
  assert (Hs : (0 < sum (weights (Z.min 20 n)))%Z)
    by (apply weights_nonempty_sum; lia).
  apply (@sorted_map_filter _ _ Z.lt Z.le).
  - intros x y Hxy. apply Z.div_le_mono; [assumption|nia].
  - unfold weights. apply (@sorted_map _ _ Z.lt Z.lt); [intros x y; lia|].
    apply range_sorted.
Qed.

Lemma linspace_ascending (a b : Q) (k : nat) :
  (a <= b)%Q -> StronglySorted Qle (linspace a b k).
Proof.
  intros Hab. destruct k as [|[|k]]; [constructor|repeat constructor|].
  unfold linspace.
  set (step := ((b - a) / inject_Z (Z.of_nat (S (S k)) - 1))%Q).
  assert (Hstep : (0 <= step)%Q).
  { unfold step. apply Qle_shift_div_l.
    - unfold Qlt, inject_Z. cbn [Qnum Qden]. lia.
    - rewrite Qmult_0_l. lra. }
  apply (@sorted_map _ _ lt Qle); [|apply seq_sorted].
  intros i j Hij.
  assert (Hi : (inject_Z (Z.of_nat i) <= inject_Z (Z.of_nat j))%Q).
  { rewrite <- Zle_Qle. lia. }
  apply Qplus_le_r. apply Qmult_le_compat_r; assumption.
Qed.

Lemma linspace_descending (a b : Q) (k : nat) :
  (b <= a)%Q -> StronglySorted (fun x y => y <= x)%Q (linspace a b k).
Proof.
  intros Hab. destruct k as [|[|k]]; [constructor|repeat constructor|].
  unfold linspace.
  set (step := ((b - a) / inject_Z (Z.of_nat (S (S k)) - 1))%Q).
  assert (Hstep : (0 <= - step)%Q).
  { unfold step.
    setoid_replace (- ((b - a) / inject_Z (Z.of_nat (S (S k)) - 1)))%Q
      with ((a - b) / inject_Z (Z.of_nat (S (S k)) - 1))%Q
      by (unfold Qdiv; ring).
    apply Qle_shift_div_l.
    - unfold Qlt, inject_Z. cbn [Qnum Qden]. lia.
    - rewrite Qmult_0_l. lra. }
  apply (@sorted_map _ _ lt (fun x y => y <= x)%Q); [|apply seq_sorted].
  intros i j Hij.
  assert (Hi : (inject_Z (Z.of_nat i) <= inject_Z (Z.of_nat j))%Q).
  { rewrite <- Zle_Qle. lia. }
  apply Qplus_le_r.
  pose proof (Qmult_le_compat_r _ _ (- step) Hi Hstep) as H.
  lra.
Qed.

Lemma fsum_nonneg (l : list Q) :
  Forall (fun x => 0 <= x)%Q l -> (0 <= fsum l)%Q.
Proof.
  induction 1 as [|x l Hx Hl IH]; [apply Qle_refl|].
  cbn [fsum fold_right]. unfold fsum in IH. lra.
Qed.

Lemma fmean_nonneg (l : list Q) :
  Forall (fun x => 0 <= x)%Q l -> (0 <= fmean l)%Q.
Proof.
  intros H. unfold fmean. destruct l as [|x l]; [discriminate|].
  apply Qle_shift_div_l.
  - unfold Qlt, inject_Z. cbn [Qnum Qden length]. lia.
  - rewrite Qmult_0_l. now apply fsum_nonneg.
Qed.

End LadderShape.

Section LadderOrders.

Variable std : list Q -> Q.
Variable self : strategy.

(** X3: when the symbol has bars, no high is below its open and the deviation is
    not negative, the sell orders are saved by rising price and the buy
    orders by falling price, and in both ladders the quantity never
    decreases along the way. *)
Theorem ladders_progress (sym : string) (n : Z) (saved : list saved_order)
  (o2h : list Q) :
  (2 <= n)%Z -> open_to_high self sym = Ok o2h -> o2h <> [] ->
  Forall (fun x => 0 <= x)%Q o2h -> (0 <= std o2h)%Q ->
  exists sold bought,
    create_sell_orders std self sym n saved = (Ok tt, saved ++ sold) /\
    create_buy_orders std self sym n saved = (Ok tt, saved ++ bought) /\
    StronglySorted rising sold /\
    StronglySorted falling bought.
Proof.
  intros Hn Ho _ Hbars Hsd.
  destruct (order_quantities_sorted Hn) as [l [E Hl]].
  pose proof (fmean_nonneg Hbars) as Havg.
  exists (sell_ladder std self sym n), (buy_ladder std self sym n).
  rewrite create_sell_orders_cases, create_buy_orders_cases.
  unfold sell_ladder, buy_ladder. rewrite E, Ho. cbv zeta.
  split; [reflexivity|]. split; [reflexivity|]. split.
  - apply (@sorted_map _ _
             (fun p q => (fst p <= fst q)%Q /\ (snd p <= snd q)%Z) rising).
    + intros p q H. exact H.
    + apply sorted_zip; [|exact Hl]. apply linspace_ascending. lra.
  - apply (@sorted_map _ _
             (fun p q => (fst q <= fst p)%Q /\ (snd p <= snd q)%Z) falling).
    + intros p q H. exact H.
    + apply (@sorted_zip _ _ (fun x y => y <= x)%Q Z.le); [|exact Hl].
      apply linspace_descending. lra.
Qed.

End LadderOrders.

Lemma ladders_progress_witness :
  exists sold bought,
    create_sell_orders (fun _ => 1) one_sellable "AAA" 5 []
    = (Ok tt, [] ++ sold) /\
    create_buy_orders (fun _ => 1) one_sellable "AAA" 5 []
    = (Ok tt, [] ++ bought) /\
    StronglySorted rising sold /\
    StronglySorted falling bought.
Proof.
  apply (@ladders_progress (fun _ => 1) one_sellable "AAA" 5 []
           [11 - 10; 12 - 10])%Q.
  - lia.
  - reflexivity.
  - discriminate.
  - repeat constructor; discriminate.
  - discriminate.
Defined.

Lemma create_orders_within_shares_witness :
  exists sold bought,
    create_sell_orders (fun _ => 1) one_sellable "AAA" 5 []
    = (Ok tt, [] ++ sold) /\
    create_buy_orders (fun _ => 1) one_sellable "AAA" 5 []
    = (Ok tt, [] ++ bought) /\
    map so_quantity sold = map so_quantity bought /\
    (1 <= length sold <= 19)%nat /\
    Forall (fun o => so_symbol o = "AAA"%string /\
                     so_instruction o = "SELL"%string /\
                     (0 < so_quantity o)%Z) sold /\
    Forall (fun o => so_symbol o = "AAA"%string /\
                     so_instruction o = "BUY"%string /\
                     (0 < so_quantity o)%Z) bought /\
    (sum (map so_quantity sold) <= 5)%Z.
Proof.
  apply (@create_orders_within_shares (fun _ => 1) one_sellable "AAA" 5 []).
  - lia.
  - reflexivity.
Defined.

Example one_sellable_ladder :
  map so_quantity (sell_ladder (fun _ => 1) one_sellable "AAA" 5)
  = [1; 1; 2]%Z.
Proof. reflexivity. Qed.

Lemma create_orders_failures_witness :
  create_sell_orders (fun _ => 1) two_sellable "AAA" 1 []
  = (Raise ZeroDivisionError, []) /\
  create_buy_orders (fun _ => 1) two_sellable "CCC" 5 []
  = (Raise KeyError, []).
Proof.
  destruct (@create_orders_failures (fun _ => 1) two_sellable "AAA" 1 [])
    as [H1 _].
  destruct (@create_orders_failures (fun _ => 1) two_sellable "CCC" 5 [])
    as [_ [H2 _]].
  split.
  - apply H1. lia.
  - apply H2; [lia|reflexivity].
Defined.

(** ** Further facts: the sell strategy *)

Section SellSafety.

Variable std : list Q -> Q.
Variable self : strategy.

(** Whatever a loop saves was saved by one of its rounds, also when a
    round ends the loop with an exception. *)
Lemma for_each_invariant {A : Type} (body : A -> action)
  (P : A -> saved_order -> Prop) (l : list A) :
  (forall x saved r saved',
     In x l -> body x saved = (r, saved') ->
     exists new, saved' = saved ++ new /\ Forall (P x) new) ->
  forall saved r saved',
    for_each body l saved = (r, saved') ->
    exists new,
      saved' = saved ++ new /\
      Forall (fun o => exists x, In x l /\ P x o) new.
Proof.
  induction l as [|x l IH]; intros H saved r saved' E; cbn [for_each] in E.
  - inversion E; subst. exists []. split; [now rewrite app_nil_r|constructor].
  - destruct (body x saved) as [[u|e] mid] eqn:Eb.
    + destruct (H x saved (Ok u) mid (or_introl eq_refl) Eb) as [n1 [-> F1]].
      destruct (IH (fun y s r' s' Hy => H y s r' s' (or_intror Hy))
                   _ _ _ E) as [n2 [-> F2]].
      exists (n1 ++ n2). split; [now rewrite app_assoc|].
      apply Forall_app. split.
      * eapply Forall_impl; [|exact F1]. intros o Ho. exists x.
        split; [now left|exact Ho].
      * eapply Forall_impl; [|exact F2]. intros o [y [Hy Ho]]. exists y.
        split; [now right|exact Ho].
    + inversion E; subst.
      destruct (H x saved (Raise e) saved' (or_introl eq_refl) Eb)
        as [n1 [-> F1]].
      exists n1. split; [reflexivity|].
      eapply Forall_impl; [|exact F1]. intros o Ho. exists x.
      split; [now left|exact Ho].
Qed.

Lemma sell_ladder_orders (sym : string) (n : Z) :
  Forall (fun o => so_symbol o = sym /\ so_instruction o = "SELL"%string /\
                   (0 < so_quantity o <= n)%Z)
    (sell_ladder std self sym n).
Proof.
  unfold sell_ladder.
  destruct (order_quantities n) as [l|] eqn:E; [|constructor].
  destruct (open_to_high self sym) as [o2h|]; [|constructor]. cbv zeta.
  destruct (Z_le_gt_dec n 1) as [Hn|Hn].
  { rewrite order_quantities_raises in E by assumption. discriminate E. }
  destruct (@order_quantities_invariants n ltac:(lia)) as [l' [E' [Hp [_ Hs]]]].
  rewrite E in E'. inversion E'; subst l'. clear E'.
  apply Forall_forall. intros o Ho. apply in_map_iff in Ho.
  destruct Ho as [[p q] [<- Hin]]. cbn [so_symbol so_instruction so_quantity fst snd].
  apply in_combine_r in Hin. rewrite Forall_forall in Hp.
  repeat split; [now apply Hp|].
  assert (Hq : (q <= sum l)%Z).
  { clear - Hin Hp. induction l as [|a l IH]; [destruct Hin|].
    rewrite sum_cons. assert (0 <= sum l)%Z.
    { apply sum_nonneg, Forall_forall. intros z Hz.
      assert (0 < z)%Z by (apply Hp; now right). lia. }
    assert (0 < a)%Z by (apply Hp; now left).
    destruct Hin as [->|Hin]; [lia|].
    assert (q <= sum l)%Z; [|lia].
    apply IH; [|assumption]. intros z Hz. apply Hp. now right. }
  lia.
Qed.

(** X4: whatever the snapshot and however the run ends, the sell strategy
    keeps the orders saved before and adds only SELL orders, each for a
    position it holds whose day profit is over 0.01, and each for a
    positive quantity not above the quantity held. *)
Theorem run_sell_strategy_safe (saved saved' : list saved_order)
  (r : result unit) :
  run_sell_strategy std self saved = (r, saved') ->
  exists new,
    saved' = saved ++ new /\
    Forall (fun o =>
              so_instruction o = "SELL"%string /\
              exists p, In p (etf_positions self) /\
                        symbol p = so_symbol o /\
                        (0.01 < currentDayProfitLossPercentage p)%Q /\
                        (0 < so_quantity o <= longQuantity p)%Z) new.
Proof.
  intros E. unfold run_sell_strategy in E.
  destruct (@for_each_invariant position
              (fun asset => create_sell_orders std self (symbol asset)
                              (longQuantity asset))
              (fun p o => so_symbol o = symbol p /\
                          so_instruction o = "SELL"%string /\
                          (0 < so_quantity o <= longQuantity p)%Z)
              (sells self)) with (saved := saved) (r := r) (saved' := saved')
    as [new [Hnew Hall]]; [|exact E|].
  - intros p sv r' sv' Hp Ep. rewrite create_sell_orders_cases in Ep.
    destruct (order_quantities (longQuantity p)) as [l|e];
      [destruct (open_to_high self (symbol p)) as [o2h|e]|];
      inversion Ep; subst;
      try (exists []; split; [now rewrite app_nil_r|constructor]).
    exists (sell_ladder std self (symbol p) (longQuantity p)).
    split; [reflexivity|apply sell_ladder_orders].
  - exists new. split; [exact Hnew|].
    eapply Forall_impl; [|exact Hall].
    intros o [p [Hp [H1 [H2 H3]]]]. split; [exact H2|].
    apply sells_spec in Hp. destruct Hp as [Hin Hpl].
    exists p. repeat split; try assumption; try lia. now symmetry.
Qed.

End SellSafety.

Lemma run_sell_strategy_safe_witness :
  exists new,
    run_sell_strategy (fun _ => 1) one_sellable [] = (Ok tt, [] ++ new) /\
    map (fun o => (so_symbol o, so_instruction o, so_quantity o)) new
    = [("AAA", "SELL", 1); ("AAA", "SELL", 1); ("AAA", "SELL", 2)]%string%Z /\
    Forall (fun o =>
              so_instruction o = "SELL"%string /\
              exists p, In p (etf_positions one_sellable) /\
                        symbol p = so_symbol o /\
                        (0.01 < currentDayProfitLossPercentage p)%Q /\
                        (0 < so_quantity o <= longQuantity p)%Z) new.
Proof.
  destruct (@run_sell_strategy_safe (fun _ => 1) one_sellable []
              (snd (run_sell_strategy (fun _ => 1) one_sellable []))
              (fst (run_sell_strategy (fun _ => 1) one_sellable []))
              (surjective_pairing _)) as [new [E F]].
  exists new. cbn [app] in *. rewrite <- E.
  split; [reflexivity|]. split; [reflexivity|]. rewrite E. exact F.
Defined.

Lemma run_sell_strategy_selects_witness :
  exists orders,
    run_sell_strategy (fun _ => 1) one_sellable [] = (Ok tt, [] ++ orders) /\
    forall s,
      In s (map so_symbol orders) <->
      exists p, In p (etf_positions one_sellable) /\ symbol p = s /\
                (0.01 < currentDayProfitLossPercentage p)%Q.
Proof.
  apply (@run_sell_strategy_selects (fun _ => 1) one_sellable []).
  intros p Hp. apply sells_spec in Hp.
  destruct Hp as [[<-|[<-|[]]] Hlt].
  - split; [cbn; lia|reflexivity].
  - vm_compute in Hlt. discriminate Hlt.
Defined.


(** ** Further facts: the buy strategy *)

Section BuySafety.

Variable std : list Q -> Q.
Variable self : strategy.

Lemma sum_In_le (l : list Z) (q : Z) :
  Forall (fun w => 0 < w)%Z l -> In q l -> (q <= sum l)%Z.
Proof.
  induction 1 as [|a l Ha Hl IH]; intros Hin; [destruct Hin|].
  rewrite sum_cons.
  assert (0 <= sum l)%Z.
  { apply sum_nonneg. eapply Forall_impl; [|exact Hl]. intros; cbn in *; lia. }
  destruct Hin as [->|Hin]; [lia|]. specialize (IH Hin). lia.
Qed.

Lemma buy_ladder_orders (sym : string) (n : Z) :
  Forall (fun o => so_symbol o = sym /\ so_instruction o = "BUY"%string /\
                   (0 < so_quantity o <= n)%Z)
    (buy_ladder std self sym n).
Proof.
  unfold buy_ladder.
  destruct (order_quantities n) as [l|] eqn:E; [|constructor].
  destruct (open_to_high self sym) as [o2h|]; [|constructor]. cbv zeta.
  destruct (Z_le_gt_dec n 1) as [Hn|Hn].
  { rewrite order_quantities_raises in E by assumption. discriminate E. }
  destruct (@order_quantities_invariants n ltac:(lia)) as [l' [E' [Hp [_ Hs]]]].
  rewrite E in E'. inversion E'; subst l'. clear E'.
  apply Forall_forall. intros o Ho. apply in_map_iff in Ho.
  destruct Ho as [[p q] [<- Hin]].
  cbn [so_symbol so_instruction so_quantity fst snd].
  apply in_combine_r in Hin. pose proof (@sum_In_le l q Hp Hin) as Hq.
  rewrite Forall_forall in Hp. specialize (Hp q Hin). repeat split; lia.
Qed.

Lemma map_result_spec {A B : Type} (f : A -> result B) (l : list A)
  (r : list B) :
  map_result f l = Ok r -> Forall2 (fun x y => f x = Ok y) l r.
Proof.
  revert r. induction l as [|x l IH]; intros r H; cbn in H.
  - inversion H. constructor.
  - destruct (f x) as [y|] eqn:E; [|discriminate H]. cbn [bind] in H.
    destruct (map_result f l) as [ys|]; [|discriminate H]. cbn [bind] in H.
    inversion H; subst. constructor; [exact E|now apply IH].
Qed.

(** The rows [run_buy_strategy] hands to [create_buy_orders]: each names
    a possible buy, sized as [int(500 / last price)], the price not being
    zero. *)
Lemma buy_orders_rows (orders : list (string * Z)) :
  buy_orders self = Ok orders ->
  Forall (fun row =>
            In (fst row) (possible_etf_buys self) /\
            let q := regularMarketLastPrice (_td_api self) (fst row) in
            ~ (q == 0)%Q /\ snd row = int_of (500 / q))
    orders.
Proof.
  unfold buy_orders. intros H.
  destruct (_estimate_30_day_return self) as [estimate|] eqn:He;
    [|discriminate H]. cbn [bind] in H.
  destruct (take2 0 10 (map fst (sort_values_desc estimate)))
    as [tickers|] eqn:Et; [|discriminate H]. cbn [bind] in H.
  destruct (map_result (fun q => int_truediv 500 q)
              (map (regularMarketLastPrice (_td_api self)) tickers))
    as [ns|] eqn:En; [|discriminate H]. cbn [bind] in H.
  inversion H; subst orders. clear H.
  assert (Hin : forall t, In t tickers -> In t (possible_etf_buys self)).
  { intros t Ht. destruct (@estimate_spec self estimate He) as [<- _].
    destruct (sort_values_desc_spec estimate) as [_ [_ [_ Hp]]].
    apply (Permutation_in _ (Permutation_map fst Hp)).
    unfold take2 in Et.
    destruct (nth_error (map fst (sort_values_desc estimate)) 0) as [a|] eqn:E0;
      [|discriminate Et].
    destruct (nth_error (map fst (sort_values_desc estimate)) 10) as [b|] eqn:E10;
      [|discriminate Et].
    inversion Et; subst tickers.
    destruct Ht as [<-|[<-|[]]]; eapply nth_error_In; eassumption. }
  apply map_result_spec in En. clear Et He.
  revert ns En Hin. induction tickers as [|t tickers IH]; intros ns En Hin.
  - constructor.
  - cbn [map] in En. inversion En as [|? y ? ys Hy Hys]; subst.
    cbn [zip combine]. constructor.
    + cbn [fst snd]. split; [apply Hin; now left|]. cbv zeta.
      unfold int_truediv, truediv in Hy.
      destruct (Qeq_bool (regularMarketLastPrice (_td_api self) t) 0) eqn:E0;
        [discriminate Hy|]. cbn [bind] in Hy.
      split; [|now inversion Hy].
      intros Hq. apply Qeq_bool_iff in Hq. congruence.
    + apply IH; [exact Hys|]. intros t' Ht'. apply Hin. now right.
Qed.

Lemma int_of_div_negative (a q : Q) :
  (0 <= a)%Q -> (q < 0)%Q -> (int_of (a / q) <= 0)%Z.
Proof.
  destruct a as [an ad]. destruct q as [[|p|p] d]; unfold Qle, Qlt;
    cbn [Qnum Qden]; intros Ha Hq; try lia.
  unfold int_of, Qdiv, Qinv, Qmult. cbn [Qnum Qden].
  replace (an * Z.neg d)%Z with (- (an * Z.pos d))%Z by lia.
  rewrite Z.quot_opp_l by lia.
  assert (0 <= Z.quot (an * Z.pos d) (Z.pos (ad * p)))%Z; [|lia].
  apply Z.quot_pos; lia.
Qed.

Lemma shares_within_budget (q : Q) (k : Z) :
  ~ (q == 0)%Q -> (0 < k <= int_of (500 / q))%Z ->
  (0 < q)%Q /\ (inject_Z k * q <= 500)%Q.
Proof.
  intros Hq [Hk Hle].
  assert (Hpos : (0 < q)%Q).
  { destruct (Qlt_le_dec 0 q) as [H|H]; [exact H|exfalso].
    assert (Hneg : (q < 0)%Q).
    { apply Qle_lteq in H. destruct H as [H|H]; [exact H|]. now elim Hq. }
    assert (int_of (500 / q) <= 0)%Z; [|lia].
    apply int_of_div_negative; [discriminate|exact Hneg]. }
  split; [exact Hpos|].
  assert (H0 : (0 <= 500 / q)%Q).
  { apply Qle_shift_div_l; [exact Hpos|]. rewrite Qmult_0_l. discriminate. }
  rewrite int_of_floor in Hle by exact H0.
  assert (Hk' : (inject_Z k <= 500 / q)%Q).
  { eapply Qle_trans; [|apply Qfloor_le]. rewrite <- Zle_Qle. exact Hle. }
  setoid_replace 500%Q with ((500 / q) * q)%Q by (field; exact Hq).
  apply Qmult_le_compat_r; [exact Hk'|now apply Qlt_le_weak].
Qed.

(** X6: whatever the snapshot and however the run ends, the buy strategy
    keeps the orders saved before and adds only BUY orders, each for one
    of the possible buys, for a positive quantity whose cost at the last
    price, which is positive, is at most 500. *)
Theorem run_buy_strategy_safe (saved saved' : list saved_order)
  (r : result unit) :
  run_buy_strategy std self saved = (r, saved') ->
  exists new,
    saved' = saved ++ new /\
    Forall (fun o =>
              so_instruction o = "BUY"%string /\
              In (so_symbol o) (possible_etf_buys self) /\
              (0 < so_quantity o)%Z /\
              let q := regularMarketLastPrice (_td_api self) (so_symbol o) in
              (0 < q)%Q /\ (inject_Z (so_quantity o) * q <= 500)%Q) new.
Proof.
  intros E. unfold run_buy_strategy in E.
  destruct (buy_orders self) as [orders|e] eqn:Eo.
  2:{ inversion E; subst. exists []. split; [now rewrite app_nil_r|constructor]. }
  pose proof (buy_orders_rows Eo) as Hrows. rewrite Forall_forall in Hrows.
  destruct (@for_each_invariant (string * Z)
              (fun row => create_buy_orders std self (fst row) (snd row))
              (fun row o => so_symbol o = fst row /\
                            so_instruction o = "BUY"%string /\
                            (0 < so_quantity o <= snd row)%Z)
              orders) with (saved := saved) (r := r) (saved' := saved')
    as [new [Hnew Hall]]; [|exact E|].
  - intros row sv r' sv' Hrow Er. rewrite create_buy_orders_cases in Er.
    destruct (order_quantities (snd row)) as [l|e];
      [destruct (open_to_high self (fst row)) as [o2h|e]|];
      inversion Er; subst;
      try (exists []; split; [now rewrite app_nil_r|constructor]).
    exists (buy_ladder std self (fst row) (snd row)).
    split; [reflexivity|apply buy_ladder_orders].
  - exists new. split; [exact Hnew|].
    eapply Forall_impl; [|exact Hall].
    intros o [row [Hrow [H1 [H2 H3]]]].
    destruct (Hrows row Hrow) as [Hin [Hq Hn]]. cbv zeta in *.
    rewrite H1. split; [exact H2|]. split; [exact Hin|].
    split; [lia|]. apply shares_within_budget; [exact Hq|].
    rewrite <- Hn. exact H3.
Qed.

Lemma xs_level1_missing {A : Type} (f : string) (df : DataFrame label A) :
  (forall c, In c (columns df) -> snd (fst c) <> f) ->
  xs_level1 f df = Raise KeyError.
Proof.
  intros Hno. unfold xs_level1.
  match goal with
  | |- context [filter ?p (columns df)] =>
      assert (E : filter p (columns df) = [])
  end.
  { induction (columns df) as [|[[s g] a] cs IH]; [reflexivity|].
    cbn [filter fst snd]. destruct (String.eqb_spec g f) as [E|E].
    - exfalso. apply (Hno (s, g, a)); [now left|exact E].
    - apply IH. intros c' Hc'. apply Hno. now right. }
  now rewrite E.
Qed.

Lemma xs_level1_outcome {A : Type} (f : string) (df : DataFrame label A) :
  xs_level1 f df = Raise KeyError \/
  exists x, xs_level1 f df = Ok x /\
            forall s, getitem String.eqb s (columns x)
                      = getitem label_eqb (s, f) (columns df).
Proof.
  destruct (xs_level1 f df) as [x|e] eqn:E.
  - right. exists x. split; [reflexivity|]. intros s. unfold getitem.
    rewrite (@xs_level1_columns _ _ _ _ E). now rewrite assoc_level1.
  - left. unfold xs_level1 in E.
    match type of E with
    | context [filter ?p (columns df)] =>
        destruct (filter p (columns df)); [now inversion E|discriminate E]
    end.
Qed.

Lemma xs_level1_present {A : Type} (f : string) (df : DataFrame label A) :
  (exists c, In c (columns df) /\ snd (fst c) = f) ->
  exists x, xs_level1 f df = Ok x.
Proof.
  intros [c [Hc Hf]]. unfold xs_level1.
  match goal with
  | |- context [filter ?p (columns df)] =>
      assert (Hin : In c (filter p (columns df)));
      [|destruct (filter p (columns df)); [destruct Hin|now eexists]]
  end.
  apply filter_In. split; [exact Hc|]. now apply String.eqb_eq.
Qed.

(** X7: how the buy strategy fails before any order is saved.  Bars in
    which no column carries the closing prices, or a possible buy without
    closing prices: [KeyError].  With closing prices for every possible
    buy (and in the bars at all), ten possible buys or fewer:
    [IndexError], position 10 of the ranking is not there. *)
Theorem run_buy_strategy_failures (saved : list saved_order) :
  ((forall c, In c (columns (etf_bars self)) ->
              snd (fst c) <> "close_price"%string) ->
   run_buy_strategy std self saved = (Raise KeyError, saved)) /\
  ((exists s, In s (possible_etf_buys self) /\
              history (etf_bars self) s "close_price" = Raise KeyError) ->
   run_buy_strategy std self saved = (Raise KeyError, saved)) /\
  ((exists c, In c (columns (etf_bars self)) /\
              snd (fst c) = "close_price"%string) ->
   (forall s, In s (possible_etf_buys self) ->
              succeeds (history (etf_bars self) s "close_price") = true) ->
   (length (possible_etf_buys self) <= 10)%nat ->
   run_buy_strategy std self saved = (Raise IndexError, saved)).
Proof.
  unfold run_buy_strategy, buy_orders, _estimate_30_day_return.
  split; [|split].
  - intros Hno. now rewrite (@xs_level1_missing _ _ _ Hno).
  - intros [s [Hin Hs]].
    destruct (xs_level1_outcome "close_price" (etf_bars self))
      as [->|[closes [-> Hget]]]; [reflexivity|]. cbn [bind].
    assert (E : select_columns (possible_etf_buys self) (columns closes)
                = Raise KeyError).
    { induction (possible_etf_buys self) as [|n names IH]; [destruct Hin|].
      cbn [select_columns]. rewrite Hget. fold (history (etf_bars self) n
                                                  "close_price").
      destruct (history (etf_bars self) n "close_price") as [c|e] eqn:En.
      - cbn [bind]. destruct Hin as [->|Hin]; [congruence|].
        now rewrite (IH Hin).
      - unfold history, getitem in En.
        destruct (assoc label_eqb (n, "close_price"%string)
                    (columns (etf_bars self))); [discriminate En|].
        inversion En. reflexivity. }
    rewrite E. reflexivity.
  - intros Hsome Hall Hlen.
    destruct (@xs_level1_present _ _ _ Hsome) as [closes Ex].
    destruct (xs_level1_outcome "close_price" (etf_bars self))
      as [Er|[closes' [Ex' Hget]]]; [congruence|].
    rewrite Ex'. cbn [bind].
    assert (E : exists P,
      select_columns (possible_etf_buys self) (columns closes') = Ok P /\
      length P = length (possible_etf_buys self)).
    { clear Hlen. induction (possible_etf_buys self) as [|n names IH].
      - exists []. split; reflexivity.
      - cbn [select_columns]. rewrite Hget.
        fold (history (etf_bars self) n "close_price").
        pose proof (Hall n (or_introl eq_refl)) as Hn.
        destruct (history (etf_bars self) n "close_price") as [c|e];
          [|discriminate Hn].
        destruct IH as [P [-> HP]]; [intros s Hs; apply Hall; now right|].
        exists ((n, c) :: P). split; [reflexivity|]. cbn. now rewrite HP. }
    destruct E as [P [-> HP]]. cbn [bind].
    set (estimate := map (fun c => (fst c, score_30_day (snd c))) P).
    assert (Hl : (length (map fst (sort_values_desc estimate)) <= 10)%nat).
    { destruct (sort_values_desc_spec estimate) as [_ [_ [_ Hp]]].
      rewrite length_map, (Permutation_length Hp). unfold estimate.
      rewrite length_map. lia. }
    unfold take2.
    destruct (nth_error (map fst (sort_values_desc estimate)) 10) as [b|] eqn:E10.
    + assert (nth_error (map fst (sort_values_desc estimate)) 10 <> None)
        by congruence.
      apply nth_error_Some in H. lia.
    + destruct (nth_error (map fst (sort_values_desc estimate)) 0);
        reflexivity.
Qed.

End BuySafety.

Lemma run_buy_strategy_safe_witness :
  exists new,
    snd (run_buy_strategy (fun _ => 1) twelve_buyable []) = [] ++ new /\
    Forall (fun o =>
              so_instruction o = "BUY"%string /\
              In (so_symbol o) (possible_etf_buys twelve_buyable) /\
              (0 < so_quantity o)%Z /\
              let q := regularMarketLastPrice (_td_api twelve_buyable)
                         (so_symbol o) in
              (0 < q)%Q /\ (inject_Z (so_quantity o) * q <= 500)%Q) new.
Proof.
  apply (@run_buy_strategy_safe (fun _ => 1) twelve_buyable []
           (snd (run_buy_strategy (fun _ => 1) twelve_buyable []))
           (fst (run_buy_strategy (fun _ => 1) twelve_buyable []))).
  now destruct (run_buy_strategy (fun _ => 1) twelve_buyable []).
Defined.

Example twelve_buyable_orders :
  fst (run_buy_strategy (fun _ => 1) twelve_buyable []) = Ok tt /\
  map (fun o => (so_symbol o, so_quantity o))
    (snd (run_buy_strategy (fun _ => 1) twelve_buyable []))
  = [("A", 1); ("A", 1); ("A", 2);
     ("K", 1); ("K", 1); ("K", 1); ("K", 1); ("K", 1); ("K", 2)]%string%Z.
Proof. vm_compute. split; reflexivity. Qed.

Lemma run_buy_strategy_failures_witness :
  run_buy_strategy (fun _ => 1) three_candidates []
  = (Raise IndexError, []) /\
  run_buy_strategy (fun _ => 1) two_sellable [] = (Raise KeyError, []).
Proof.
  split.
  - apply (proj2 (proj2 (@run_buy_strategy_failures (fun _ => 1)
                           three_candidates []))).
    + exists (("A", "close_price")%string,
              repeat 1%Q 61 ++ [inject_Z (0 + 1)]).
      split; [now left|reflexivity].
    + intros s [<-|[<-|[<-|[]]]]; reflexivity.
    + cbn. lia.
  - apply (proj1 (@run_buy_strategy_failures (fun _ => 1) two_sellable [])).
    intros c Hc. cbn in Hc.
    destruct Hc as [<-|[<-|[<-|[<-|[]]]]]; discriminate.
Defined.


(** ** Further facts: bracket and pegged orders *)

Section Rounding.

Lemma round_half_even_mono (x y : Q) :
  (x <= y)%Q -> (round_half_even x <= round_half_even y)%Z.
Proof.
  intros H. pose proof (Qfloor_resp_le _ _ H) as Hf.
  unfold round_half_even. cbv zeta.
  destruct (Z.eq_dec (Qfloor x) (Qfloor y)) as [E|E].
  - rewrite <- E.
    destruct (Qcompare_spec (x - inject_Z (Qfloor x)) (1 # 2)) as [Hx|Hx|Hx];
      destruct (Qcompare_spec (y - inject_Z (Qfloor x)) (1 # 2)) as [Hy|Hy|Hy];
      try (destruct (Z.even (Qfloor x)); lia); try lia; exfalso; lra.
  - destruct (x - inject_Z (Qfloor x) ?= 1 # 2)%Q;
      destruct (y - inject_Z (Qfloor y) ?= 1 # 2)%Q;
      try destruct (Z.even (Qfloor x)); try destruct (Z.even (Qfloor y)); lia.
Qed.

Lemma round2_mono (x y : Q) : (x <= y)%Q -> (round2 x <= round2 y)%Q.
Proof.
  intros H. unfold round2.
  assert (Hm : (x * 100 <= y * 100)%Q) by lra.
  apply round_half_even_mono in Hm. rewrite Zle_Qle in Hm.
  unfold Qdiv. apply Qmult_le_compat_r; [exact Hm|discriminate].
Qed.

Lemma round_half_even_eq (x y : Q) :
  (x == y)%Q -> round_half_even x = round_half_even y.
Proof.
  intros H. apply Z.le_antisymm; apply round_half_even_mono;
    rewrite H; apply Qle_refl.
Qed.

Lemma round_half_even_inject (k : Z) : round_half_even (inject_Z k) = k.
Proof.
  unfold round_half_even. cbv zeta. rewrite Qfloor_Z.
  destruct (Qcompare_spec (inject_Z k - inject_Z k) (1 # 2)) as [H|H|H];
    [exfalso; lra|reflexivity|exfalso; lra].
Qed.

(** Rounding to cents leaves an amount of whole cents as it is. *)
Lemma round2_cents (x : Q) : (round2 (round2 x) == round2 x)%Q.
Proof.
  unfold round2 at 1 3.
  rewrite (@round_half_even_eq (round2 x * 100)
             (inject_Z (round_half_even (x * 100)))).
  - now rewrite round_half_even_inject.
  - unfold round2. field.
Qed.

Lemma round2_nonneg (x : Q) : (0 <= x)%Q -> (0 <= round2 x)%Q.
Proof.
  intros H. apply Qle_trans with (round2 0); [discriminate|].
  exact (round2_mono H).
Qed.

End Rounding.

Section Quantiles.

Lemma insert_asc_perm (x : Q) (l : list Q) :
  Permutation (insert_asc x l) (x :: l).
Proof.
  induction l as [|y l IH]; cbn [insert_asc]; [reflexivity|].
  destruct (Qle_bool x y); [reflexivity|]. rewrite IH. apply perm_swap.
Qed.

Lemma sort_asc_perm (l : list Q) : Permutation (sort_asc l) l.
Proof.
  induction l as [|x l IH]; cbn [sort_asc fold_right]; [reflexivity|].
  rewrite insert_asc_perm. constructor. exact IH.
Qed.

Lemma nth_Forall {A : Type} (P : A -> Prop) (l : list A) (n : nat) (d : A) :
  Forall P l -> P d -> P (nth n l d).
Proof.
  intros Hl Hd. destruct (nth_in_or_default n l d) as [H|H].
  - rewrite Forall_forall in Hl. now apply Hl.
  - now rewrite H.
Qed.

Lemma interpolate_nonneg (sorted : list Q) (q : Q) :
  Forall (fun v => 0 <= v)%Q sorted -> (0 <= interpolate sorted q)%Q.
Proof.
  intros H. unfold interpolate. cbv zeta.
  set (pos := (q * inject_Z (Z.of_nat (length sorted) - 1))%Q).
  set (lo := Z.to_nat (Qfloor pos)).
  set (frac := (pos - inject_Z (Qfloor pos))%Q).
  assert (Hf0 : (0 <= frac)%Q)
    by (unfold frac; pose proof (Qfloor_le pos); lra).
  assert (Hf1 : (frac <= 1)%Q).
  { unfold frac. pose proof (Qlt_floor pos) as Hlt.
    rewrite inject_Z_plus in Hlt. change (inject_Z 1) with 1%Q in Hlt. lra. }
  assert (Ha : (0 <= nth lo sorted 0)%Q)
    by (apply (@nth_Forall Q (fun v => 0 <= v)%Q); [exact H|apply Qle_refl]).
  assert (Hb : (0 <= nth (S lo) sorted (nth lo sorted 0))%Q)
    by (apply (@nth_Forall Q (fun v => 0 <= v)%Q); assumption).
  set (a := nth lo sorted 0%Q) in *.
  set (b := nth (S lo) sorted a) in *.
  setoid_replace (a + (b - a) * frac)%Q with (a * (1 - frac) + b * frac)%Q
    by ring.
  assert (0 <= a * (1 - frac))%Q by (apply Qmult_le_0_compat; lra).
  assert (0 <= b * frac)%Q by (apply Qmult_le_0_compat; lra).
  lra.
Qed.

(** A quantile of differences that are not negative is not negative. *)
Lemma quantile_nonneg (x : list Q) (q v : Q) :
  Forall (fun d => 0 <= d)%Q x -> quantile x q = Ok (Some v) -> (0 <= v)%Q.
Proof.
  intros Hx H. unfold quantile in H.
  destruct (negb (Qle_bool 0 q && Qle_bool q 1)); [discriminate H|].
  assert (Hs : Forall (fun d => 0 <= d)%Q (sort_asc x)).
  { rewrite Forall_forall in *. intros d Hd. apply Hx.
    apply (Permutation_in _ (sort_asc_perm x) Hd). }
  destruct (sort_asc x) as [|s0 sorted]; [discriminate H|].
  inversion H; subst v. now apply interpolate_nonneg.
Qed.

Lemma Forall2_skipn {A B : Type} (R : A -> B -> Prop) (n : nat)
  (l : list A) (l' : list B) :
  Forall2 R l l' -> Forall2 R (skipn n l) (skipn n l').
Proof.
  intros H. revert n. induction H as [|a b l l' Hab Hl IH]; intros [|n];
    cbn [skipn]; try constructor; auto.
Qed.

Lemma Forall2_lastn {A B : Type} (R : A -> B -> Prop) (n : nat)
  (l : list A) (l' : list B) :
  Forall2 R l l' -> Forall2 R (lastn n l) (lastn n l').
Proof.
  intros H. unfold lastn. rewrite (Forall2_length H).
  now apply Forall2_skipn.
Qed.

Lemma series_sub_nonneg (a b : list Q) :
  Forall2 Qle b a -> Forall (fun d => 0 <= d)%Q (series_sub a b).
Proof.
  unfold series_sub, zip. induction 1 as [|y x b a Hyx Hba IH];
    cbn [combine map]; constructor; [cbn [fst snd]; lra|exact IH].
Qed.

Lemma Forall2_Qle_trans (a b c : list Q) :
  Forall2 Qle a b -> Forall2 Qle b c -> Forall2 Qle a c.
Proof.
  intros H. revert c. induction H as [|x y a b Hxy Hab IH]; intros c Hc;
    inversion Hc; subst; constructor; [lra|now apply IH].
Qed.

End Quantiles.

(** ** The prices of a bracket order *)

Section BracketPrices.

Lemma lastn_recent (n : nat) (x recent : list Q) :
  last_values n x recent -> lastn n x = recent.
Proof.
  intros [older [-> Hlen]]. unfold lastn. rewrite length_app in *.
  replace (length older + length recent - n)%nat with (length older) by lia.
  rewrite skipn_app, skipn_all, Nat.sub_diag. reflexivity.
Qed.

Lemma insert_asc_In (x y : Q) (l : list Q) :
  In y (insert_asc x l) -> y = x \/ In y l.
Proof.
  intros H. apply (Permutation_in _ (insert_asc_perm x l)) in H.
  destruct H as [H|H]; [now left|now right].
Qed.

Lemma insert_asc_sorted (x : Q) (l : list Q) :
  StronglySorted Qle l -> StronglySorted Qle (insert_asc x l).
Proof.
  induction 1 as [|y l Hs IH Hall]; cbn [insert_asc].
  - repeat constructor.
  - destruct (Qle_bool x y) eqn:E.
    + apply Qle_bool_iff in E. constructor; [now constructor|].
      constructor; [exact E|].
      eapply Forall_impl; [|exact Hall]. intros z Hz. cbn in Hz. lra.
    + assert (Hyx : (y <= x)%Q).
      { apply Qlt_le_weak, Qnot_le_lt. intros H.
        apply Qle_bool_iff in H. congruence. }
      constructor; [exact IH|]. apply Forall_forall. intros z Hz.
      apply insert_asc_In in Hz. destruct Hz as [->|Hz]; [exact Hyx|].
      rewrite Forall_forall in Hall. now apply Hall.
Qed.

Lemma sort_asc_sorted (l : list Q) : StronglySorted Qle (sort_asc l).
Proof.
  induction l as [|x l IH]; cbn [sort_asc fold_right]; [constructor|].
  now apply insert_asc_sorted.
Qed.


(** In ascending order a sample is written in one way only, up to the
    representation of fractions. *)
Lemma sorted_reduced_unique (s1 s2 : list Q) :
  Forall (fun x => Qred x = x) s1 -> Forall (fun x => Qred x = x) s2 ->
  StronglySorted Qle s1 -> StronglySorted Qle s2 -> Permutation s1 s2 ->
  s1 = s2.
Proof.
  revert s2. induction s1 as [|a s1 IH]; intros s2 R1 R2 S1 S2 P.
  - apply Permutation_nil in P. now subst.
  - destruct s2 as [|b s2];
      [apply Permutation_sym, Permutation_nil in P; discriminate P|].
    inversion R1 as [|? ? Ra R1']; inversion R2 as [|? ? Rb R2'];
      inversion S1 as [|? ? S1' A1]; inversion S2 as [|? ? S2' A2]; subst.
    assert (Hab : (a <= b)%Q).
    { assert (Hin : In b (a :: s1))
        by (apply (Permutation_in _ (Permutation_sym P)); now left).
      destruct Hin as [->|Hin]; [apply Qle_refl|].
      rewrite Forall_forall in A1. now apply A1. }
    assert (Hba : (b <= a)%Q).
    { assert (Hin : In a (b :: s2))
        by (apply (Permutation_in _ P); now left).
      destruct Hin as [->|Hin]; [apply Qle_refl|].
      rewrite Forall_forall in A2. now apply A2. }
    assert (E : a = b).
    { rewrite <- Ra, <- Rb. apply Qred_complete. now apply Qle_antisym. }
    subst b. f_equal. apply IH; try assumption.
    now apply Permutation_cons_inv in P.
Qed.

Lemma sorted_map_Qred (s : list Q) :
  StronglySorted Qle s -> StronglySorted Qle (map Qred s).
Proof.
  induction 1 as [|a s Hs IH Hall]; cbn [map]; constructor; [exact IH|].
  rewrite Forall_map. eapply Forall_impl; [|exact Hall].
  intros x Hx. cbn in Hx. now rewrite !Qred_correct.
Qed.

Lemma sorted_unique (s1 s2 : list Q) (i : nat) :
  StronglySorted Qle s1 -> StronglySorted Qle s2 -> Permutation s1 s2 ->
  (nth i s1 0 == nth i s2 0)%Q.
Proof.
  intros S1 S2 P.
  assert (E : map Qred s1 = map Qred s2).
  { apply sorted_reduced_unique.
    - rewrite Forall_map. apply Forall_forall. intros x _.
      apply Qred_complete, Qred_correct.
    - rewrite Forall_map. apply Forall_forall. intros x _.
      apply Qred_complete, Qred_correct.
    - now apply sorted_map_Qred.
    - now apply sorted_map_Qred.
    - now apply Permutation_map. }
  rewrite <- (Qred_correct (nth i s1 0)), <- (Qred_correct (nth i s2 0)).
  rewrite <- (map_nth Qred s1 0 i), <- (map_nth Qred s2 0 i), E.
  reflexivity.
Qed.

(** The position of a quantile has one whole part and one fraction. *)
Lemma position_unique (i j : nat) (t u pos : Q) :
  (inject_Z (Z.of_nat i) + t == pos)%Q -> (0 <= t < 1)%Q ->
  (inject_Z (Z.of_nat j) + u == pos)%Q -> (0 <= u < 1)%Q ->
  i = j /\ (t == u)%Q.
Proof.
  intros Hi Ht Hj Hu.
  assert (Hij : Z.of_nat i = Z.of_nat j).
  { assert (H1 : (inject_Z (Z.of_nat i) < inject_Z (Z.of_nat j + 1))%Q)
      by (rewrite inject_Z_plus; change (inject_Z 1) with 1%Q; lra).
    assert (H2 : (inject_Z (Z.of_nat j) < inject_Z (Z.of_nat i + 1))%Q)
      by (rewrite inject_Z_plus; change (inject_Z 1) with 1%Q; lra).
    rewrite <- Zlt_Qlt in H1, H2. lia. }
  apply Nat2Z.inj in Hij. subst j. split; [reflexivity|lra].
Qed.

(** A sample has one quantile. *)
Lemma linear_quantile_unique (x : list Q) (q v w : Q) :
  linear_quantile x q v -> linear_quantile x q w -> (v == w)%Q.
Proof.
  intros [s [i [t [Ps [Ss [Hpos [Ht Hv]]]]]]]
         [s' [j [u [Ps' [Ss' [Hpos' [Hu Hw]]]]]]].
  destruct (@position_unique i j t u _ Hpos Ht Hpos' Hu) as [<- Etu].
  assert (P : Permutation s s')
    by (rewrite Ps; now apply Permutation_sym).
  rewrite Hv, Hw, Etu, (sorted_unique i Ss Ss' P),
    (sorted_unique (S i) Ss Ss' P).
  reflexivity.
Qed.

(** What the code interpolates is the quantile of the specification. *)
Lemma interpolate_linear_quantile (x : list Q) (q : Q) :
  x <> [] -> (0 <= q <= 1)%Q ->
  linear_quantile x q (interpolate (sort_asc x) q).
Proof.
  intros Hx [Hq0 Hq1].
  pose proof (sort_asc_perm x) as P. pose proof (Permutation_length P) as L.
  set (s := sort_asc x) in *.
  set (n := length x) in *.
  assert (Hn : (1 <= n)%nat)
    by (unfold n; destruct x; [congruence|cbn; lia]).
  set (pos := (q * (inject_Z (Z.of_nat n) - 1))%Q).
  assert (Hn1 : (inject_Z (Z.of_nat n) - 1 == inject_Z (Z.of_nat n - 1))%Q).
  { unfold Zminus. rewrite inject_Z_plus. reflexivity. }
  assert (Hm : (0 <= inject_Z (Z.of_nat n - 1))%Q)
    by (change 0%Q with (inject_Z 0); rewrite <- Zle_Qle; lia).
  assert (Hp0 : (0 <= pos)%Q).
  { unfold pos. rewrite Hn1. now apply Qmult_le_0_compat. }
  assert (Hp1 : (pos <= inject_Z (Z.of_nat n - 1))%Q).
  { unfold pos. rewrite Hn1.
    setoid_replace (inject_Z (Z.of_nat n - 1))
      with (1 * inject_Z (Z.of_nat n - 1))%Q at 2 by ring.
    now apply Qmult_le_compat_r. }
  assert (Hf0 : (0 <= Qfloor pos)%Z).
  { change 0%Z with (Qfloor 0). now apply Qfloor_resp_le. }
  assert (Hf1 : (Qfloor pos <= Z.of_nat n - 1)%Z).
  { rewrite <- (Qfloor_Z (Z.of_nat n - 1)). now apply Qfloor_resp_le. }
  pose proof (Qfloor_le pos) as Hfl. pose proof (Qlt_floor pos) as Hfu.
  rewrite inject_Z_plus in Hfu. change (inject_Z 1) with 1%Q in Hfu.
  exists s, (Z.to_nat (Qfloor pos)), (pos - inject_Z (Qfloor pos))%Q.
  split; [exact P|]. split; [apply sort_asc_sorted|].
  rewrite Z2Nat.id by exact Hf0.
  split; [fold n; unfold pos; ring|]. split; [lra|].
  unfold interpolate. cbv zeta. rewrite L. fold n.
  assert (Epos : (q * inject_Z (Z.of_nat n - 1) == pos)%Q)
    by (unfold pos; now rewrite Hn1).
  set (pos' := (q * inject_Z (Z.of_nat n - 1))%Q) in *.
  assert (Ef : Qfloor pos' = Qfloor pos) by (now rewrite Epos).
  rewrite Ef. set (lo := Z.to_nat (Qfloor pos)).
  destruct (Nat.lt_ge_cases (S lo) n) as [Hlt|Hge].
  - rewrite (nth_indep s (nth lo s 0) 0) by (rewrite L; exact Hlt).
    rewrite Epos. ring.
  - assert (Elo : Qfloor pos = (Z.of_nat n - 1)%Z) by (unfold lo in Hge; lia).
    assert (E0 : (pos == inject_Z (Qfloor pos))%Q).
    { rewrite Elo. apply Qle_antisym; [exact Hp1|].
      rewrite <- Elo. exact Hfl. }
    rewrite Epos.
    setoid_replace (pos - inject_Z (Qfloor pos))%Q with 0%Q by lra.
    ring.
Qed.

Lemma round_half_even_near (y : Q) :
  (- (1 # 2) <= inject_Z (round_half_even y) - y <= 1 # 2)%Q.
Proof.
  unfold round_half_even. cbv zeta.
  pose proof (Qfloor_le y) as Hl. pose proof (Qlt_floor y) as Hu.
  rewrite inject_Z_plus in Hu. change (inject_Z 1) with 1%Q in Hu.
  destruct (Qcompare_spec (y - inject_Z (Qfloor y)) (1 # 2)) as [H|H|H].
  - destruct (Z.even (Qfloor y));
      [|rewrite inject_Z_plus; change (inject_Z 1) with 1%Q]; lra.
  - lra.
  - rewrite inject_Z_plus. change (inject_Z 1) with 1%Q. lra.
Qed.

(** [round2] gives a whole number of cents, none nearer. *)
Lemma round2_rounds_to_cents (x y : Q) :
  (y == x)%Q -> rounds_to_cents x (Some (round2 y)).
Proof.
  intros E. exists (round2 y), (round_half_even (y * 100)).
  split; [reflexivity|]. split; [reflexivity|].
  pose proof (round_half_even_near (y * 100)) as H. unfold round2.
  set (k := inject_Z (round_half_even (y * 100))) in *.
  assert (Ek : (k / 100 - x == (k - y * 100) / 100)%Q) by (rewrite E; field).
  rewrite Ek. split.
  - apply Qle_shift_div_l; [reflexivity|]. lra.
  - apply Qle_shift_div_r; [reflexivity|]. lra.
Qed.


Lemma last_values_nonempty (n : nat) (x recent : list Q) :
  (0 < n)%nat -> x <> [] -> last_values n x recent -> recent <> [].
Proof.
  intros Hn Hx [older [_ Hlen]] ->. destruct x; [congruence|].
  cbn [length] in Hlen. lia.
Qed.

Lemma differences_nonempty (a b : list Q) :
  a <> [] -> b <> [] -> differences a b <> [].
Proof. destruct a, b; cbn; congruence. Qed.

(** The quantile the code takes of a recent sample is the one the
    specification names. *)
Lemma quantile_linear_spec (a b : list Q) (q v : Q) :
  a <> [] -> b <> [] -> (0 <= q <= 1)%Q ->
  linear_quantile (differences a b) q v ->
  (quantile_linear (series_sub a b) q == v)%Q.
Proof.
  intros Ha Hb Hq Hv. change (series_sub a b) with (differences a b).
  apply (@linear_quantile_unique (differences a b) q); [|exact Hv].
  apply interpolate_linear_quantile; [|exact Hq].
  now apply differences_nonempty.
Qed.

(** C2.  With a quote and a bar history for the symbol, [smart_bracket]
    returns, for BUY, price = round(quote - quantile(open - low over the
    last 50 bars, 1 - limit_prob), 2) and profit_price = round(limit_price
    + quantile(high - low, 1 - profit_prob), 2), and for SELL, price =
    round(quote + quantile(high - open, 1 - limit_prob), 2) and
    profit_price = round(limit_price - quantile(high - low, 1 -
    profit_prob), 2).  The samples are the differences over the last 50
    bars, the quantile is the value at position q (n - 1) of the sample in
    ascending order, interpolated linearly, [limit_price] is the price
    before rounding, and rounding, the last step, gives a whole number of
    cents with none nearer. *)
Theorem smart_bracket_prices
  (symbol : string) (quantity : Z) (amount limit_prob profit_prob : Q)
  (bars : DataFrame label Q) (quotes : Series string Q)
  (o h l recent_o recent_h recent_l : list Q)
  (quote q_low q_high q_hilo : Q) :
  history bars symbol "open_price" = Ok o ->
  history bars symbol "high" = Ok h ->
  history bars symbol "low" = Ok l ->
  o <> [] -> length h = length o -> length l = length o ->
  getitem String.eqb symbol quotes = Ok quote -> ~ (quote == 0)%Q ->
  (0 <= 1 - limit_prob <= 1)%Q -> (0 <= 1 - profit_prob <= 1)%Q ->
  last_values 50 o recent_o -> last_values 50 h recent_h ->
  last_values 50 l recent_l ->
  linear_quantile (differences recent_o recent_l) (1 - limit_prob) q_low ->
  linear_quantile (differences recent_h recent_o) (1 - limit_prob) q_high ->
  linear_quantile (differences recent_h recent_l) (1 - profit_prob) q_hilo ->
  (exists order,
     smart_bracket symbol "BUY" quantity amount limit_prob profit_prob
       bars quotes = Ok order /\
     rounds_to_cents (quote - q_low) (bo_price order) /\
     rounds_to_cents (quote - q_low + q_hilo) (bo_profit_price order)) /\
  (exists order,
     smart_bracket symbol "SELL" quantity amount limit_prob profit_prob
       bars quotes = Ok order /\
     rounds_to_cents (quote + q_high) (bo_price order) /\
     rounds_to_cents (quote + q_high - q_hilo) (bo_profit_price order)).
Proof.
  intros Ho Hh Hl Hne Hlh Hll Hq Hq0 Hlp Hpp Ro Rh Rl Qlow Qhigh Qhilo.
  assert (Hh_ne : h <> [])
    by (destruct h; [destruct o; [congruence|discriminate]|discriminate]).
  assert (Hl_ne : l <> [])
    by (destruct l; [destruct o; [congruence|discriminate]|discriminate]).
  assert (Hn : (0 < 50)%nat) by lia.
  pose proof (last_values_nonempty Hn Hne Ro) as No.
  pose proof (last_values_nonempty Hn Hh_ne Rh) as Nh.
  pose proof (last_values_nonempty Hn Hl_ne Rl) as Nl.
  destruct (@smart_bracket_outcome symbol quantity amount limit_prob
              profit_prob bars quotes o h l quote Ho Hh Hl Hne Hlh Hll Hq Hq0
              Hlp Hpp) as [Ebuy Esell].
  rewrite (lastn_recent Ro), (lastn_recent Rh), (lastn_recent Rl)
    in Ebuy, Esell.
  pose proof (quantile_linear_spec No Nl Hlp Qlow) as E1.
  pose proof (quantile_linear_spec Nh No Hlp Qhigh) as E2.
  pose proof (quantile_linear_spec Nh Nl Hpp Qhilo) as E3.
  split; eexists; (split; [eassumption|]); cbn [bo_price bo_profit_price];
    split; apply round2_rounds_to_cents; rewrite ?E1, ?E2, ?E3; reflexivity.
Qed.

End BracketPrices.

Lemma smart_bracket_prices_witness :
  linear_quantile (differences (repeat 10 50) recent_lows) (1 - 0.4) 3.4 /\
  linear_quantile (differences recent_highs (repeat 10 50)) (1 - 0.4) 2.004 /\
  linear_quantile (differences recent_highs recent_lows) (1 - 0.25) 7.004 /\
  (exists order,
     smart_bracket "XYZ" "BUY" 100 1000 0.4 0.25 fine_bars fine_quotes
     = Ok order /\
     rounds_to_cents (10.004 - 3.4) (bo_price order) /\
     rounds_to_cents (10.004 - 3.4 + 7.004) (bo_profit_price order)) /\
  (exists order,
     smart_bracket "XYZ" "SELL" 100 1000 0.4 0.25 fine_bars fine_quotes
     = Ok order /\
     rounds_to_cents (10.004 + 2.004) (bo_price order) /\
     rounds_to_cents (10.004 + 2.004 - 7.004) (bo_profit_price order)) /\
  smart_bracket "XYZ" "BUY" 100 1000 0.4 0.25 fine_bars fine_quotes
  = Ok (mkBracket "XYZ" "BUY" 99 (Some (660 # 100)) "DAY" true
          (Some (1361 # 100)) None) /\
  smart_bracket "XYZ" "SELL" 100 1000 0.4 0.25 fine_bars fine_quotes
  = Ok (mkBracket "XYZ" "SELL" 99 (Some (1201 # 100)) "DAY" true
          (Some (500 # 100)) None).
Proof.
  assert (Q1 : linear_quantile (differences (repeat 10 50) recent_lows)
                 (1 - 0.4) 3.4).
  { exists (sort_asc (differences (repeat 10 50) recent_lows)), 29%nat, 0.4.
    split; [apply sort_asc_perm|]. split; [apply sort_asc_sorted|].
    split; [vm_compute; reflexivity|].
    split; [split; vm_compute; [discriminate|reflexivity]|].
    vm_compute; reflexivity. }
  assert (Q2 : linear_quantile (differences recent_highs (repeat 10 50))
                 (1 - 0.4) 2.004).
  { exists (sort_asc (differences recent_highs (repeat 10 50))), 29%nat, 0.4.
    split; [apply sort_asc_perm|]. split; [apply sort_asc_sorted|].
    split; [vm_compute; reflexivity|].
    split; [split; vm_compute; [discriminate|reflexivity]|].
    vm_compute; reflexivity. }
  assert (Q3 : linear_quantile (differences recent_highs recent_lows)
                 (1 - 0.25) 7.004).
  { exists (sort_asc (differences recent_highs recent_lows)), 36%nat, 0.75.
    split; [apply sort_asc_perm|]. split; [apply sort_asc_sorted|].
    split; [vm_compute; reflexivity|].
    split; [split; vm_compute; [discriminate|reflexivity]|].
    vm_compute; reflexivity. }
  split; [exact Q1|]. split; [exact Q2|]. split; [exact Q3|].
  rewrite <- and_assoc. split; [|split; vm_compute; reflexivity].
  refine (@smart_bracket_prices "XYZ" 100 1000 0.4 0.25 fine_bars fine_quotes
            (repeat 10 60) (repeat 100 10 ++ recent_highs)
            (repeat 1 10 ++ recent_lows) (repeat 10 50) recent_highs
            recent_lows 10.004 3.4 2.004 7.004
            eq_refl eq_refl eq_refl _ eq_refl eq_refl eq_refl _ _ _ _ _ _
            Q1 Q2 Q3).
  - discriminate.
  - intros H. vm_compute in H. discriminate H.
  - split; vm_compute; discriminate.
  - split; vm_compute; discriminate.
  - exists (repeat 10 10). split; reflexivity.
  - exists (repeat 100 10). split; reflexivity.
  - exists (repeat 1 10). split; reflexivity.
Defined.

Section BracketSides.

Lemma lastn_lastn {A : Type} (m n : nat) (l : list A) :
  (m <= n)%nat -> lastn m (lastn n l) = lastn m l.
Proof.
  intros H. unfold lastn. rewrite length_skipn, skipn_skipn. f_equal. lia.
Qed.

Lemma getitem_level0_iloc_last {A : Type} (n : nat) (symbol : string)
  (df : DataFrame label A) :
  getitem_level0 symbol (iloc_last n df)
  = match getitem_level0 symbol df with
    | Ok f => Ok (iloc_last n f)
    | Raise e => Raise e
    end.
Proof.
  unfold getitem_level0. cbn [iloc_last columns index].
  match goal with
  | |- context [filter ?p (map ?g (columns df))] =>
      assert (E : filter p (map g (columns df))
                  = map g (filter p (columns df)))
  end.
  { induction (columns df) as [|[[s f] a] cs IH]; [reflexivity|].
    cbn [map filter fst snd]. destruct (s =? symbol)%string;
      cbn [map fst snd]; now rewrite IH. }
  rewrite E. clear E.
  match goal with
  | |- context [filter ?p (columns df)] =>
      destruct (filter p (columns df)) as [|c cs]; [reflexivity|]
  end.
  cbn [map]. f_equal. unfold iloc_last. cbn [index columns fst snd map].
  f_equal. f_equal. rewrite !map_map. reflexivity.
Qed.

Lemma iloc_last_twice {L A : Type} (m n : nat) (df : DataFrame L A) :
  (m <= n)%nat -> iloc_last m (iloc_last n df) = iloc_last m df.
Proof.
  intros H. unfold iloc_last. cbn [index columns].
  rewrite lastn_lastn by exact H. f_equal. rewrite map_map.
  apply map_ext. intros c. cbn [fst snd]. now rewrite lastn_lastn.
Qed.

(** X8: [smart_bracket] reads the last 50 bars only: on the bars cut to
    their last [n >= 50] rows it returns what it returns on all of
    them. *)
Theorem smart_bracket_window (n : nat)
  (symbol instruction : string) (quantity : Z)
  (amount limit_prob profit_prob : Q)
  (bars : DataFrame label Q) (quotes : Series string Q) :
  (50 <= n)%nat ->
  smart_bracket symbol instruction quantity amount limit_prob profit_prob
    (iloc_last n bars) quotes
  = smart_bracket symbol instruction quantity amount limit_prob profit_prob
      bars quotes.
Proof.
  intros Hn. unfold smart_bracket. cbv zeta.
  rewrite getitem_level0_iloc_last.
  destruct (getitem_level0 symbol bars) as [f|e]; [|reflexivity].
  cbn [bind]. now rewrite iloc_last_twice.
Qed.

(** X9: on bars whose low is never above the open and whose open is never
    above the high, a BUY bracket is priced at or below the rounded quote
    with its profit price at or above the price, and a SELL bracket at or
    above the rounded quote with its profit price at or below the
    price. *)
Theorem smart_bracket_sides
  (symbol instruction : string) (quantity : Z)
  (amount limit_prob profit_prob : Q)
  (bars : DataFrame label Q) (quotes : Series string Q)
  (o h l : list Q) (quote : Q) (order : bracket_order) (p pp : Q) :
  history bars symbol "open_price" = Ok o ->
  history bars symbol "high" = Ok h ->
  history bars symbol "low" = Ok l ->
  Forall2 Qle l o -> Forall2 Qle o h ->
  getitem String.eqb symbol quotes = Ok quote ->
  smart_bracket symbol instruction quantity amount limit_prob profit_prob
    bars quotes = Ok order ->
  bo_price order = Some p -> bo_profit_price order = Some pp ->
  (instruction = "BUY"%string /\ (p <= round2 quote)%Q /\ (p <= pp)%Q) \/
  (instruction = "SELL"%string /\ (round2 quote <= p)%Q /\ (pp <= p)%Q).
Proof.
  intros Ho Hh Hl Hlo Hoh Hq H Hp Hpp.
  pose proof (Forall2_Qle_trans Hlo Hoh) as Hlh.
  assert (Nlow : Forall (fun d => 0 <= d)%Q
                   (series_sub (lastn 50 o) (lastn 50 l)))
    by (apply series_sub_nonneg; now apply Forall2_lastn).
  assert (Nhigh : Forall (fun d => 0 <= d)%Q
                    (series_sub (lastn 50 h) (lastn 50 o)))
    by (apply series_sub_nonneg; now apply Forall2_lastn).
  assert (Nhilo : Forall (fun d => 0 <= d)%Q
                    (series_sub (lastn 50 h) (lastn 50 l)))
    by (apply series_sub_nonneg; now apply Forall2_lastn).
  unfold smart_bracket in H. cbv zeta in H.
  rewrite (@getitem_level0_history bars symbol _ _ Ho) in H. cbn [bind] in H.
  rewrite (@getitem_window bars symbol _ 50 _ Ho),
          (@getitem_window bars symbol _ 50 _ Hl),
          (@getitem_window bars symbol _ 50 _ Hh) in H. cbn [bind] in H.
  rewrite Hq in H. cbn [bind] in H.
  destruct (instruction =? "BUY")%string eqn:Eb.
  - apply String.eqb_eq in Eb. left. split; [exact Eb|].
    destruct (quantile (series_sub (lastn 50 o) (lastn 50 l)) (1 - limit_prob))
      as [[v1|]|] eqn:E1; try discriminate H; cbn [bind] in H;
      destruct (quantile (series_sub (lastn 50 h) (lastn 50 l))
                  (1 - profit_prob))
        as [[v2|]|] eqn:E2; try discriminate H; cbn [bind] in H;
      destruct (int_div amount quote); try discriminate H; cbn [bind] in H;
      inversion H; subst order; cbn in Hp, Hpp; try discriminate.
    injection Hp as <-. injection Hpp as <-.
    pose proof (@quantile_nonneg _ _ _ Nlow E1). pose proof (@quantile_nonneg _ _ _ Nhilo E2).
    split; apply round2_mono; lra.
  - destruct (instruction =? "SELL")%string eqn:Es.
    + apply String.eqb_eq in Es. right. split; [exact Es|].
      destruct (quantile (series_sub (lastn 50 h) (lastn 50 o))
                  (1 - limit_prob))
        as [[v1|]|] eqn:E1; try discriminate H; cbn [bind] in H;
        destruct (quantile (series_sub (lastn 50 h) (lastn 50 l))
                    (1 - profit_prob))
          as [[v2|]|] eqn:E2; try discriminate H; cbn [bind] in H;
        destruct (int_div amount quote); try discriminate H; cbn [bind] in H;
        inversion H; subst order; cbn in Hp, Hpp; try discriminate.
      injection Hp as <-. injection Hpp as <-.
      pose proof (@quantile_nonneg _ _ _ Nhigh E1).
      pose proof (@quantile_nonneg _ _ _ Nhilo E2).
      split; apply round2_mono; lra.
    + cbn [bind] in H. destruct (int_div amount quote); discriminate H.
Qed.

(** X10: how [smart_bracket] fails.  No bars for the symbol, or bars and no
    quote: [KeyError].  With bars and a quote that is not zero, an
    instruction other than BUY and SELL: [UnboundLocalError]; BUY or SELL
    with [1 - limit_prob] outside of [0, 1]: [ValueError]. *)
Theorem smart_bracket_failures
  (symbol instruction : string) (quantity : Z)
  (amount limit_prob profit_prob : Q)
  (bars : DataFrame label Q) (quotes : Series string Q) :
  let outcome :=
    smart_bracket symbol instruction quantity amount limit_prob profit_prob
      bars quotes in
  ((forall c, In c (columns bars) -> fst (fst c) <> symbol) ->
   outcome = Raise KeyError) /\
  (forall o h l,
     history bars symbol "open_price" = Ok o ->
     history bars symbol "high" = Ok h ->
     history bars symbol "low" = Ok l ->
     (getitem String.eqb symbol quotes = Raise KeyError ->
      outcome = Raise KeyError) /\
     (forall quote,
        getitem String.eqb symbol quotes = Ok quote -> ~ (quote == 0)%Q ->
        (instruction <> "BUY"%string -> instruction <> "SELL"%string ->
         outcome = Raise UnboundLocalError) /\
        (instruction = "BUY"%string \/ instruction = "SELL"%string ->
         ~ (0 <= 1 - limit_prob <= 1)%Q ->
         outcome = Raise ValueError))).
Proof.
  intros outcome. unfold outcome, smart_bracket. cbv zeta. split.
  - intros Hno. unfold getitem_level0.
    match goal with
    | |- context [filter ?p (columns bars)] =>
        assert (E : filter p (columns bars) = [])
    end.
    { induction (columns bars) as [|[[s f] a] cs IH]; [reflexivity|].
      cbn [filter fst]. destruct (String.eqb_spec s symbol) as [E|E].
      - exfalso. apply (Hno (s, f, a)); [now left|exact E].
      - apply IH. intros c' Hc'. apply Hno. now right. }
    rewrite E. reflexivity.
  - intros o h l Ho Hh Hl.
    rewrite (@getitem_level0_history bars symbol _ _ Ho). cbn [bind].
    rewrite (@getitem_window bars symbol _ 50 _ Ho),
            (@getitem_window bars symbol _ 50 _ Hl),
            (@getitem_window bars symbol _ 50 _ Hh). cbn [bind].
    split; [intros ->; reflexivity|].
    intros quote -> Hq0. cbn [bind].
    rewrite (@int_div_nonzero amount quote Hq0). split.
    + intros Hb Hs. apply String.eqb_neq in Hb, Hs. rewrite Hb, Hs.
      reflexivity.
    + intros Hi Hlp.
      assert (Hv : forall x, quantile x (1 - limit_prob) = Raise ValueError).
      { intros x. unfold quantile.
        destruct (Qle_bool 0 (1 - limit_prob) && Qle_bool (1 - limit_prob) 1)
          eqn:E; [|reflexivity].
        exfalso. apply Hlp. apply andb_prop in E. destruct E as [E0 E1].
        apply Qle_bool_iff in E0, E1. now split. }
      destruct Hi as [-> | ->].
      * change (("BUY" =? "BUY")%string) with true. cbv iota.
        rewrite Hv. reflexivity.
      * change (("SELL" =? "BUY")%string) with false.
        change (("SELL" =? "SELL")%string) with true. cbv iota.
        rewrite Hv. reflexivity.
Qed.

End BracketSides.

Lemma smart_bracket_window_witness :
  length (index sixty_bars) = 60%nat /\
  length (index (iloc_last 50 sixty_bars)) = 50%nat /\
  smart_bracket "XYZ" "BUY" 100 1000 0.4 0.25 (iloc_last 50 sixty_bars)
    example_quotes
  = smart_bracket "XYZ" "BUY" 100 1000 0.4 0.25 sixty_bars example_quotes.
Proof.
  split; [reflexivity|]. split; [reflexivity|].
  apply (@smart_bracket_window 50 "XYZ" "BUY" 100 1000 0.4 0.25 sixty_bars
           example_quotes).
  lia.
Defined.

Lemma smart_bracket_sides_witness :
  ("BUY"%string = "BUY"%string /\
   (800 # 100 <= round2 10)%Q /\ (800 # 100 <= 1200 # 100)%Q) \/
  ("BUY"%string = "SELL"%string /\
   (round2 10 <= 800 # 100)%Q /\ (1200 # 100 <= 800 # 100)%Q).
Proof.
  apply (@smart_bracket_sides "XYZ" "BUY" 100 1000 0.5 0.5 example_bars
           example_quotes [10; 10; 10] [11; 12; 13] [9; 8; 7] 10
           (mkBracket "XYZ" "BUY" 100 (Some (800 # 100)) "DAY" true
              (Some (1200 # 100)) None)
           (800 # 100) (1200 # 100));
    try reflexivity.
  - repeat constructor; discriminate.
  - repeat constructor; discriminate.
Defined.

Lemma smart_bracket_failures_witness :
  smart_bracket "XYZ" "HOLD" 100 1000 0.5 0.5 example_bars example_quotes
  = Raise UnboundLocalError /\
  smart_bracket "XYZ" "SELL" 100 1000 1.5 0.5 example_bars example_quotes
  = Raise ValueError /\
  smart_bracket "ABC" "SELL" 100 1000 0.5 0.5 example_bars example_quotes
  = Raise KeyError.
Proof.
  assert (Hq : ~ (10 == 0)%Q) by discriminate.
  split; [|split].
  - destruct (proj2 (@smart_bracket_failures "XYZ" "HOLD" 100 1000 0.5 0.5
                       example_bars example_quotes)
                [10; 10; 10] [11; 12; 13] [9; 8; 7] eq_refl eq_refl eq_refl)
      as [_ H].
    destruct (H 10 eq_refl Hq) as [H1 _]. apply H1; discriminate.
  - destruct (proj2 (@smart_bracket_failures "XYZ" "SELL" 100 1000 1.5 0.5
                       example_bars example_quotes)
                [10; 10; 10] [11; 12; 13] [9; 8; 7] eq_refl eq_refl eq_refl)
      as [_ H].
    destruct (H 10 eq_refl Hq) as [_ H2]. apply H2; [now right|].
    intros [H0 _]. vm_compute in H0. now apply H0.
  - apply (proj1 (@smart_bracket_failures "ABC" "SELL" 100 1000 0.5 0.5
                    example_bars example_quotes)).
    intros c Hc. cbn in Hc.
    destruct Hc as [<-|[<-|[<-|[<-|[]]]]]; discriminate.
Defined.


Section PeggedOrders.

Lemma getitem_missing {A : Type} (k : string) (l : list (string * A)) :
  ~ In k (map fst l) -> getitem String.eqb k l = Raise KeyError.
Proof.
  intros H. unfold getitem.
  assert (E : assoc String.eqb k l = None).
  { induction l as [|[k' a] l IH]; [reflexivity|]. cbn [assoc].
    destruct (String.eqb_spec k k') as [->|Hne].
    - exfalso. apply H. now left.
    - apply IH. intros Hin. apply H. now right. }
  now rewrite E.
Qed.

Lemma getitem_present {A : Type} (k : string) (l : list (string * A)) :
  In k (map fst l) -> exists a, getitem String.eqb k l = Ok a.
Proof.
  intros H. unfold getitem.
  induction l as [|[k' a] l IH]; [destruct H|]. cbn [assoc].
  destruct (String.eqb_spec k k') as [->|Hne]; [now eexists|].
  apply IH. destruct H as [H|H]; [cbn in H; congruence|exact H].
Qed.



(** X12: how [auto_pegged] fails.  A symbol without a quote, or a quoted
    symbol with a reference symbol without a quote: [KeyError].  With
    both quotes above zero, an instruction other than BUY and SELL:
    [UnboundLocalError]. *)
Theorem auto_pegged_failures
  (symbol instruction : string) (amount : Q) (ref_symbol : string)
  (quotes : Series string Q) :
  let outcome := auto_pegged symbol instruction amount ref_symbol quotes in
  (~ In symbol (map fst quotes) -> outcome = Raise KeyError) /\
  (In symbol (map fst quotes) -> ~ In ref_symbol (map fst quotes) ->
   outcome = Raise KeyError) /\
  (forall quote ref_quote,
     getitem String.eqb symbol quotes = Ok quote ->
     getitem String.eqb ref_symbol quotes = Ok ref_quote ->
     (0 < quote)%Q -> (0 < ref_quote)%Q ->
     instruction <> "BUY"%string -> instruction <> "SELL"%string ->
     outcome = Raise UnboundLocalError).
Proof.
  intros outcome. unfold outcome, auto_pegged. split; [|split].
  - intros H. now rewrite (@getitem_missing _ _ _ H).
  - intros Hin H. rewrite (@getitem_missing _ _ _ H).
    destruct (@getitem_present _ _ _ Hin) as [quote ->]. reflexivity.
  - intros quote ref_quote -> -> Hq0 Hr0 Hb Hs. cbn [bind].
    assert (Hqn : ~ (quote == 0)%Q)
      by (intros E; rewrite E in Hq0; discriminate).
    rewrite (@int_div_nonzero amount quote Hqn). cbn [bind].
    destruct (Qeq_bool ref_quote 0) eqn:E0.
    { apply Qeq_bool_iff in E0. rewrite E0 in Hr0. discriminate Hr0. }
    cbn [bind]. apply String.eqb_neq in Hb, Hs. rewrite Hb, Hs.
    destruct (Qle_bool (quote / ref_quote) 1); reflexivity.
Qed.

End PeggedOrders.


Lemma auto_pegged_failures_witness :
  auto_pegged "ABC" "SELL" 1000 "REF" [("PEG", 25); ("REF", 10)]%string
  = Raise KeyError /\
  auto_pegged "PEG" "HOLD" 1000 "REF" [("PEG", 25); ("REF", 10)]%string
  = Raise UnboundLocalError.
Proof.
  split.
  - apply (proj1 (@auto_pegged_failures "ABC" "SELL" 1000 "REF"
                    [("PEG", 25); ("REF", 10)]%string)).
    cbn. intros [H|[H|[]]]; discriminate H.
  - apply (proj2 (proj2 (@auto_pegged_failures "PEG" "HOLD" 1000 "REF"
                           [("PEG", 25); ("REF", 10)]%string)) 25 10);
      try reflexivity; discriminate.
Defined.

(** ** Further facts: [easy_bracket] and the strategies built on it *)

Section EasyBrackets.


Lemma percent_down (x : Q) : (0 <= x)%Q -> (x * (1 + - 0.3 / 100) <= x)%Q.
Proof.
  intros H.
  setoid_replace (x * (1 + - 0.3 / 100))%Q with (x - x * (3 # 1000))%Q
    by field.
  assert (0 <= x * (3 # 1000))%Q
    by (apply Qmult_le_0_compat; [exact H|discriminate]).
  lra.
Qed.

Lemma percent_up (x : Q) : (0 <= x)%Q -> (x <= x * (1 + 0.3 / 100))%Q.
Proof.
  intros H.
  setoid_replace (x * (1 + 0.3 / 100))%Q with (x + x * (3 # 1000))%Q
    by field.
  assert (0 <= x * (3 # 1000))%Q
    by (apply Qmult_le_0_compat; [exact H|discriminate]).
  lra.
Qed.

(** X14: with the percentages left to their defaults and a quote that is
    not negative, a BUY bracket is priced at or below the rounded quote
    with its profit price at or above the price, and a SELL bracket at or
    above the rounded quote with its profit price at or below the
    price. *)
Theorem easy_bracket_sides
  (symbol instruction : string) (quantity : option Z) (amount : Q)
  (quotes : Series string Q) (quote : Q) (order : bracket_order) :
  getitem String.eqb symbol quotes = Ok quote -> (0 <= quote)%Q ->
  easy_bracket symbol instruction quantity amount None None quotes
  = Returns order ->
  exists p pp,
    bo_price order = Some p /\ bo_profit_price order = Some pp /\
    ((instruction = "BUY"%string /\ (p <= round2 quote)%Q /\ (p <= pp)%Q) \/
     (instruction = "SELL"%string /\ (round2 quote <= p)%Q /\ (pp <= p)%Q)).
Proof.
  intros Hq Hq0 H. unfold easy_bracket in H. rewrite Hq in H.
  cbn [of_result and_then] in H. cbv zeta in H.
  destruct (instruction =? "SELL")%string eqn:Es.
  - apply String.eqb_eq in Es. cbn [change_factor and_then] in H.
    set (p := round2 (quote * (1 + 0.3 / 100))) in *.
    set (pp := round2 (p * (1 + - 0.3 / 100))) in *.
    destruct (match quantity with
              | Some q => Returns q
              | None => of_result (int_div amount quote)
              end) as [n| |]; try discriminate H.
    cbn [and_then] in H. inversion H; subst order. cbn.
    exists p, pp. split; [reflexivity|]. split; [reflexivity|]. right.
    split; [exact Es|].
    assert (Hp0 : (0 <= p)%Q).
    { unfold p. apply round2_nonneg.
      apply Qmult_le_0_compat; [exact Hq0|discriminate]. }
    split.
    + unfold p. apply round2_mono. now apply percent_up.
    + apply Qle_trans with (round2 p).
      * unfold pp. apply round2_mono. now apply percent_down.
      * unfold p. rewrite round2_cents. apply Qle_refl.
  - destruct (instruction =? "BUY")%string eqn:Eb;
      cbn [change_factor and_then] in H; [|discriminate H].
    apply String.eqb_eq in Eb.
    set (p := round2 (quote * (1 + - 0.3 / 100))) in *.
    set (pp := round2 (p * (1 + 0.3 / 100))) in *.
    destruct (match quantity with
              | Some q => Returns q
              | None => of_result (int_div amount quote)
              end) as [n| |]; try discriminate H.
    cbn [and_then] in H. inversion H; subst order. cbn.
    exists p, pp. split; [reflexivity|]. split; [reflexivity|]. left.
    split; [exact Eb|].
    assert (Hp0 : (0 <= p)%Q).
    { unfold p. apply round2_nonneg.
      setoid_replace (quote * (1 + - 0.3 / 100))%Q with (quote * (997 # 1000))%Q
        by field.
      apply Qmult_le_0_compat; [exact Hq0|discriminate]. }
    split.
    + unfold p. apply round2_mono. now apply percent_down.
    + apply Qle_trans with (round2 p).
      * unfold p. rewrite round2_cents. apply Qle_refl.
      * unfold pp. apply round2_mono. now apply percent_up.
Qed.

(** X15: how [easy_bracket] fails.  A symbol without a quote: [KeyError].
    With a quote, an instruction other than BUY and SELL and one of the
    two percentages not given: [TypeError]. *)
Theorem easy_bracket_failures
  (symbol instruction : string) (quantity : option Z) (amount : Q)
  (limit_percent profit_percent : option Q) (quotes : Series string Q) :
  let outcome :=
    easy_bracket symbol instruction quantity amount limit_percent
      profit_percent quotes in
  (~ In symbol (map fst quotes) -> outcome = Raises KeyError) /\
  (In symbol (map fst quotes) ->
   instruction <> "BUY"%string -> instruction <> "SELL"%string ->
   limit_percent = None \/ profit_percent = None ->
   outcome = RaisesTypeError).
Proof.
  intros outcome. unfold outcome, easy_bracket. split.
  - intros H. now rewrite (@getitem_missing _ _ _ H).
  - intros Hin Hb Hs Hnone.
    destruct (@getitem_present _ _ _ Hin) as [quote ->].
    cbn [of_result and_then]. apply String.eqb_neq in Hb, Hs.
    rewrite Hb, Hs. cbv zeta.
    destruct limit_percent as [lp|]; [|reflexivity].
    destruct profit_percent as [pp|];
      [destruct Hnone; discriminate|reflexivity].
Qed.

(** X16: the four strategies of strategies.py raise a [TypeError] on every
    input: their first call passes [orders.easy_bracket] the keywords
    [percent] and [bars], and [orders.smart_bracket] the keyword
    [probability], which these functions have no parameter for. *)
Theorem strategies_raise_type_error
  (symbol : string) (bias : Q) (bars : DataFrame label Q)
  (quotes : Series string Q) :
  easy_volatility symbol bars quotes = RaisesTypeError /\
  long_brackets symbol bars quotes = RaisesTypeError /\
  short_brackets symbol bars quotes = RaisesTypeError /\
  smart_volatility symbol bias bars quotes = RaisesTypeError.
Proof. repeat split. Qed.

End EasyBrackets.


Lemma easy_bracket_sides_witness :
  exists p pp,
    Some (997 # 100) = Some p /\ Some (1000 # 100) = Some pp /\
    (("BUY"%string = "BUY"%string /\ (p <= round2 10)%Q /\ (p <= pp)%Q) \/
     ("BUY"%string = "SELL"%string /\ (round2 10 <= p)%Q /\ (pp <= p)%Q)).
Proof.
  apply (@easy_bracket_sides "XYZ" "BUY" None 1000 example_quotes 10
           (mkBracket "XYZ" "BUY" 100 (Some (997 # 100)) "DAY" true
              (Some (1000 # 100)) None)).
  - reflexivity.
  - discriminate.
  - reflexivity.
Defined.

Lemma easy_bracket_failures_witness :
  easy_bracket "XYZ" "HOLD" None 1000 None None example_quotes
  = RaisesTypeError.
Proof.
  apply (proj2 (@easy_bracket_failures "XYZ" "HOLD" None 1000 None None
                  example_quotes)).
  - now left.
  - discriminate.
  - discriminate.
  - now left.
Defined.


(** ** Further facts: the differentials *)

Section DifferentialFacts.

Variable bars : DataFrame label Q.
Hypothesis Hwf : price_table bars.

(** The five cells of one symbol at one date of the result, from the
    prices at that date and the close before it. *)
Lemma differential_cells (s : string) (j : nat) :
  In s (symbols_of bars) -> (S j < length (index bars))%nat ->
  let data := mkFrame (skipn 1 (index bars)) (filled_columns bars) in
  exists o h l c pc,
    cell_at bars (s, "open_price"%string) (S j) = Some o /\
    cell_at bars (s, "high"%string) (S j) = Some h /\
    cell_at bars (s, "low"%string) (S j) = Some l /\
    cell_at bars (s, "close_price"%string) (S j) = Some c /\
    cell_at bars (s, "close_price"%string) j = Some pc /\
    cell_at data (s, "cc"%string) j = Some (rel c pc) /\
    cell_at data (s, "co"%string) j = Some (rel o pc) /\
    cell_at data (s, "oc"%string) j = Some (rel c o) /\
    cell_at data (s, "high"%string) j = Some (rel h o) /\
    cell_at data (s, "low"%string) j = Some (rel l o).
Proof.
  intros Hs Hj data.
  assert (Po : In "open_price"%string price_types) by (cbn; tauto).
  assert (Ph : In "high"%string price_types) by (cbn; tauto).
  assert (Pl : In "low"%string price_types) by (cbn; tauto).
  assert (Pc : In "close_price"%string price_types) by (cbn; tauto).
  destruct (@lookup_differential bars Hwf (@removelast Q) _ _ s Hs Pc Pc)
    as [c [c' [Ec [Ec' [Lc [_ Dcc]]]]]].
  rewrite Ec in Ec'. inversion Ec'; subst c'. clear Ec'.
  destruct (@lookup_differential bars Hwf (@removelast Q) _ _ s Hs Po Pc)
    as [o [c' [Eo [Ec' [Lo [_ Dco]]]]]].
  rewrite Ec in Ec'. inversion Ec'; subst c'. clear Ec'.
  destruct (@lookup_differential bars Hwf (skipn 1) _ _ s Hs Pc Po)
    as [c' [o' [Ec' [Eo' [_ [_ Doc]]]]]].
  rewrite Ec in Ec'. rewrite Eo in Eo'.
  inversion Ec'; inversion Eo'; subst c' o'. clear Ec' Eo'.
  destruct (@lookup_differential bars Hwf (skipn 1) _ _ s Hs Ph Po)
    as [h [o' [Eh [Eo' [Lh [_ Dhigh]]]]]].
  rewrite Eo in Eo'. inversion Eo'; subst o'. clear Eo'.
  destruct (@lookup_differential bars Hwf (skipn 1) _ _ s Hs Pl Po)
    as [l [o' [El [Eo' [Ll [_ Dlow]]]]]].
  rewrite Eo in Eo'. inversion Eo'; subst o'. clear Eo'.
  unfold data, cell_at. cbn [columns].
  rewrite Eo, Eh, El, Ec, (filled_cc Hwf), Dcc, (filled_co Hwf), Dco,
    (filled_oc Hwf), Doc, (filled_high Hwf), Dhigh, (filled_low Hwf), Dlow.
  destruct (@nth_error_in_range _ o (S j) ltac:(lia)) as [oi Hoi].
  destruct (@nth_error_in_range _ h (S j) ltac:(lia)) as [hi Hhi].
  destruct (@nth_error_in_range _ l (S j) ltac:(lia)) as [li Hli].
  destruct (@nth_error_in_range _ c (S j) ltac:(lia)) as [ci Hci].
  destruct (@nth_error_in_range _ c j ltac:(lia)) as [pc Hpc].
  exists oi, hi, li, ci, pc.
  assert (Hprev : nth_error (removelast c) j = Some pc).
  { rewrite nth_error_removelast by lia. exact Hpc. }
  repeat split; try assumption;
    apply nth_error_zip_with; rewrite ?nth_error_tail; assumption.
Qed.

Lemma rel_value (x y v : Q) :
  rel x y = Some v -> ~ (y == 0)%Q /\ v = ((x - y) / y)%Q.
Proof.
  unfold rel, cdiv. destruct (Qeq_bool y 0) eqn:E; [discriminate|].
  intros H. inversion H. split; [|reflexivity].
  intros Hy. apply Qeq_bool_iff in Hy. congruence.
Qed.

Lemma cell_agree {A : Type} (df : DataFrame label A) (lab : label) (i : nat)
  (a b : A) :
  cell_at df lab i = Some a -> cell_at df lab i = Some b -> a = b.
Proof. intros Ha Hb. rewrite Ha in Hb. now inversion Hb. Qed.

(** X17: on a price table the differentials of one symbol at one date
    compose: wherever the three cells are numbers, the change from the
    close before to the open, followed by the change from the open to
    the close, is the change from the close before to the close:
    (1 + co) * (1 + oc) = 1 + cc. *)
Theorem calc_differentials_compose :
  exists data,
    calc_differentials bars = Ok data /\
    forall s j cc co oc,
      In s (symbols_of bars) -> (S j < length (index bars))%nat ->
      cell_at data (s, "cc"%string) j = Some (Some cc) ->
      cell_at data (s, "co"%string) j = Some (Some co) ->
      cell_at data (s, "oc"%string) j = Some (Some oc) ->
      ((1 + co) * (1 + oc) == 1 + cc)%Q.
Proof.
  exists (mkFrame (skipn 1 (index bars)) (filled_columns bars)).
  split; [apply (calc_differentials_eq Hwf)|].
  intros s j cc co oc Hs Hj Hcc Hco Hoc.
  destruct (@differential_cells s j Hs Hj)
    as [o [h [l [c [pc [_ [_ [_ [_ [_ [Dcc [Dco [Doc _]]]]]]]]]]]]].
  pose proof (@cell_agree _ _ _ _ _ _ Hcc Dcc) as E1.
  pose proof (@cell_agree _ _ _ _ _ _ Hco Dco) as E2.
  pose proof (@cell_agree _ _ _ _ _ _ Hoc Doc) as E3.
  symmetry in E1, E2, E3.
  apply rel_value in E1, E2, E3.
  destruct E1 as [Hpc ->]. destruct E2 as [_ ->]. destruct E3 as [Ho ->].
  field. split; assumption.
Qed.

(** X18: on a price table, at a date where the open is above zero and the
    close lies between the low and the high, the differentials of the
    symbol lie in the same order: low <= oc <= high. *)
Theorem calc_differentials_range :
  exists data,
    calc_differentials bars = Ok data /\
    forall s j o h l c lo oc hi,
      In s (symbols_of bars) -> (S j < length (index bars))%nat ->
      cell_at bars (s, "open_price"%string) (S j) = Some o ->
      cell_at bars (s, "high"%string) (S j) = Some h ->
      cell_at bars (s, "low"%string) (S j) = Some l ->
      cell_at bars (s, "close_price"%string) (S j) = Some c ->
      (0 < o)%Q -> (l <= c <= h)%Q ->
      cell_at data (s, "low"%string) j = Some lo ->
      cell_at data (s, "oc"%string) j = Some oc ->
      cell_at data (s, "high"%string) j = Some hi ->
      exists x y z,
        lo = Some x /\ oc = Some y /\ hi = Some z /\ (x <= y <= z)%Q.
Proof.
  exists (mkFrame (skipn 1 (index bars)) (filled_columns bars)).
  split; [apply (calc_differentials_eq Hwf)|].
  intros s j o h l c lo oc hi Hs Hj Ho Hh Hl Hc Hpos Hlch Hlo Hoc Hhi.
  destruct (@differential_cells s j Hs Hj)
    as [o' [h' [l' [c' [pc [Eo [Eh [El [Ec [_ [_ [_ [Doc [Dhigh Dlow]]]]]]]]]]]]]].
  rewrite <- (@cell_agree _ _ _ _ _ _ Ho Eo) in *. rewrite <- (@cell_agree _ _ _ _ _ _ Hh Eh) in *.
  rewrite <- (@cell_agree _ _ _ _ _ _ Hl El) in *. rewrite <- (@cell_agree _ _ _ _ _ _ Hc Ec) in *.
  rewrite (@cell_agree _ _ _ _ _ _ Hlo Dlow), (@cell_agree _ _ _ _ _ _ Hoc Doc), (@cell_agree _ _ _ _ _ _ Hhi Dhigh).
  assert (Hn : Qeq_bool o 0 = false).
  { destruct (Qeq_bool o 0) eqn:E; [|reflexivity].
    apply Qeq_bool_iff in E. rewrite E in Hpos. discriminate Hpos. }
  unfold rel, cdiv. rewrite Hn.
  exists ((l - o) / o)%Q, ((c - o) / o)%Q, ((h - o) / o)%Q.
  repeat split; unfold Qdiv; apply Qmult_le_compat_r;
    try lra; apply Qlt_le_weak, Qinv_lt_0_compat, Hpos.
Qed.

End DifferentialFacts.

Section MissingField.

Lemma loc_field_outcome {A : Type} (f : string) (df : DataFrame label A) :
  loc_field f df = Raise KeyError \/ exists v, loc_field f df = Ok v.
Proof.
  unfold loc_field. destruct (loc_level1 f df); [now left|right].
  now eexists.
Qed.

(** X19: a table of bars in which no column holds one of the four price
    types is refused with a [KeyError]. *)
Theorem calc_differentials_missing_field (bars : DataFrame label Q)
  (f : string) :
  In f price_types ->
  (forall c, In c (columns bars) -> snd (fst c) <> f) ->
  calc_differentials bars = Raise KeyError.
Proof.
  intros Hf Hno.
  assert (E : loc_field f bars = Raise KeyError).
  { unfold loc_field, loc_level1.
    match goal with
    | |- context [filter ?p (columns bars)] =>
        assert (E : filter p (columns bars) = [])
    end.
    { induction (columns bars) as [|[[s g] a] cs IH]; [reflexivity|].
      cbn [filter fst snd]. destruct (String.eqb_spec g f) as [E|E].
      - exfalso. apply (Hno (s, g, a)); [now left|exact E].
      - apply IH. intros c' Hc'. apply Hno. now right. }
    rewrite E. reflexivity. }
  unfold calc_differentials.
  destruct (loc_field_outcome "open_price" bars) as [Eo|[o Eo]];
    [now rewrite Eo|].
  destruct (loc_field_outcome "close_price" bars) as [Ec|[c Ec]];
    [now rewrite Eo, Ec|].
  destruct (loc_field_outcome "high" bars) as [Eh|[h Eh]];
    [now rewrite Eo, Ec, Eh|].
  destruct (loc_field_outcome "low" bars) as [El|[l El]];
    [now rewrite Eo, Ec, Eh, El|].
  exfalso. cbn in Hf. destruct Hf as [<-|[<-|[<-|[<-|[]]]]]; congruence.
Qed.

End MissingField.

Lemma calc_differentials_compose_witness :
  exists data,
    calc_differentials two_bars = Ok data /\
    ((1 + (105 - 100) / 100) * (1 + (110 - 105) / 105)
     == 1 + (110 - 100) / 100)%Q.
Proof.
  destruct (@calc_differentials_compose two_bars two_bars_price_table)
    as [data [E H]].
  exists data. split; [exact E|].
  inversion E; subst data.
  apply (H "AAA"%string 0%nat); try reflexivity.
  - now left.
  - cbn. lia.
Defined.

Lemma calc_differentials_range_witness :
  exists data,
    calc_differentials two_bars = Ok data /\
    exists x y z,
      cell_at data ("AAA", "low")%string 0 = Some (Some x) /\
      cell_at data ("AAA", "oc")%string 0 = Some (Some y) /\
      cell_at data ("AAA", "high")%string 0 = Some (Some z) /\
      (x <= y <= z)%Q.
Proof.
  destruct (@calc_differentials_range two_bars two_bars_price_table)
    as [data [E H]].
  exists data. split; [exact E|].
  inversion E; subst data.
  destruct (H "AAA"%string 0%nat 105 112 104 110
              (rel 104 105) (rel 110 105) (rel 112 105))
    as [x [y [z [Hx [Hy [Hz Hle]]]]]];
    try reflexivity.
  - now left.
  - cbn. lia.
  - split; discriminate.
  - exists x, y, z. rewrite <- Hx, <- Hy, <- Hz.
    repeat split; try reflexivity; apply Hle.
Defined.

Lemma calc_differentials_missing_field_witness :
  calc_differentials
    (mkFrame [0; 1]%Z
       [(("AAA", "open_price"), [100; 105]); (("AAA", "high"), [101; 112]);
        (("AAA", "close_price"), [100; 110])]%string)
  = Raise KeyError.
Proof.
  apply (@calc_differentials_missing_field _ "low").
  - cbn. tauto.
  - intros c Hc. cbn in Hc. destruct Hc as [<-|[<-|[<-|[]]]]; discriminate.
Defined.


(** ** Further facts: the standardized table of [pca_analysis] *)

Section Standardized.

Import Reals Lra Factor.
Local Open Scope R_scope.

Lemma rsum_affine (a b : R) (x : list R) :
  rsum (map (fun v => a * v + b) x) = a * rsum x + INR (length x) * b.
Proof.
  induction x as [|v x IH]; [cbn; lra|].
  cbn [map rsum fold_right length]. fold (rsum (map (fun v => a * v + b) x)).
  fold (rsum x). rewrite IH, S_INR. lra.
Qed.

Lemma rsum_scale (a : R) (f : R -> R) (x : list R) :
  rsum (map (fun v => a * f v) x) = a * rsum (map f x).
Proof.
  induction x as [|v x IH]; [cbn; lra|].
  cbn [map rsum fold_right]. fold (rsum (map (fun v => a * f v) x)).
  fold (rsum (map f x)). rewrite IH. lra.
Qed.

Lemma col_mean_affine (a b : R) (x : list R) :
  x <> [] ->
  col_mean (map (fun v => a * v + b) x) = a * col_mean x + b.
Proof.
  intros Hx. unfold col_mean. rewrite rsum_affine, length_map.
  assert (INR (length x) <> 0).
  { apply not_0_INR. destruct x; [congruence|discriminate]. }
  field. assumption.
Qed.

Lemma col_std_affine (a b : R) (x : list R) :
  0 <= a -> x <> [] ->
  col_std (map (fun v => a * v + b) x) = a * col_std x.
Proof.
  intros Ha Hx. unfold col_std. rewrite col_mean_affine by exact Hx.
  rewrite map_map, length_map.
  rewrite (map_ext
             (fun v => (a * v + b - (a * col_mean x + b))
                       * (a * v + b - (a * col_mean x + b)))
             (fun v => (a * a) * ((v - col_mean x) * (v - col_mean x))))
    by (intros v; ring).
  rewrite (rsum_scale (a * a)
             (fun v => (v - col_mean x) * (v - col_mean x))).
  unfold Rdiv. rewrite Rmult_assoc.
  rewrite sqrt_mult_alt by nra. now rewrite sqrt_square.
Qed.

Lemma col_std_nonneg (x : list R) : 0 <= col_std x.
Proof. unfold col_std. apply sqrt_pos. Qed.

Lemma col_std_not_nil (x : list R) : col_std x <> 0 -> x <> [].
Proof.
  intros H E. apply H. rewrite E. unfold col_std. cbn.
  replace (0 / (0 - 1)) with 0 by (unfold Rdiv; ring). apply sqrt_0.
Qed.

Lemma standardize_as_affine (x : list R) :
  standardize x
  = map (fun v => / col_std x * v + - col_mean x / col_std x) x.
Proof.
  unfold standardize. apply map_ext. intros v. unfold Rdiv. ring.
Qed.

(** X20: the table handed to the principal component fit is standardized:
    a column whose deviation is not zero has mean 0 and deviation 1
    after the first line of [pca_analysis]. *)
Theorem standardize_columns (x : list R) :
  col_std x <> 0 ->
  col_mean (standardize x) = 0 /\ col_std (standardize x) = 1.
Proof.
  intros Hs. pose proof (col_std_not_nil Hs) as Hx.
  pose proof (col_std_nonneg x) as H0.
  rewrite standardize_as_affine. split.
  - rewrite col_mean_affine by exact Hx. field. exact Hs.
  - rewrite col_std_affine; [field; exact Hs| |exact Hx].
    apply Rlt_le, Rinv_0_lt_compat. lra.
Qed.

(** X21: the standardized column does not depend on the unit or the
    offset of the prices: a column multiplied by a factor above zero and
    shifted by a constant is standardized to the same values, as long as
    it is not constant. *)
Theorem standardize_units (a b : R) (x : list R) :
  0 < a -> col_std x <> 0 ->
  standardize (map (fun v => a * v + b) x) = standardize x.
Proof.
  intros Ha Hs. pose proof (col_std_not_nil Hs) as Hx.
  unfold standardize. rewrite col_mean_affine by exact Hx.
  rewrite col_std_affine by (lra || exact Hx).
  rewrite map_map. apply map_ext. intros v. field. split; [exact Hs|lra].
Qed.

Lemma one_two_three_std : col_std [1; 2; 3] = 1.
Proof.
  unfold col_std, col_mean. cbn [map rsum fold_right length INR].
  replace ((((1 - (1 + (2 + (3 + 0))) / (1 + 1 + 1))
             * (1 - (1 + (2 + (3 + 0))) / (1 + 1 + 1))
             + ((2 - (1 + (2 + (3 + 0))) / (1 + 1 + 1))
                * (2 - (1 + (2 + (3 + 0))) / (1 + 1 + 1))
                + ((3 - (1 + (2 + (3 + 0))) / (1 + 1 + 1))
                   * (3 - (1 + (2 + (3 + 0))) / (1 + 1 + 1)) + 0)))
            / (1 + 1 + 1 - 1))) with 1 by field.
  apply sqrt_1.
Qed.

Lemma standardize_columns_witness :
  col_mean (standardize [1; 2; 3]) = 0 /\
  col_std (standardize [1; 2; 3]) = 1.
Proof.
  apply (@standardize_columns [1; 2; 3]).
  rewrite one_two_three_std. apply R1_neq_R0.
Defined.

Example one_two_three_standardized :
  standardize [1; 2; 3] = [- 1 / 1; 0 / 1; 1 / 1].
Proof.
  rewrite (@standardize_known [1; 2; 3] 2 1);
    [|unfold col_mean; cbn; field|exact one_two_three_std].
  cbn [map]. repeat f_equal; lra.
Qed.

Lemma standardize_units_witness :
  standardize (map (fun v => 2 * v + 5) [1; 2; 3]) = standardize [1; 2; 3] /\
  standardize (map (fun v => 2 * v + 5) [1; 2; 3]) = [- 1 / 1; 0 / 1; 1 / 1].
Proof.
  assert (E : standardize (map (fun v => 2 * v + 5) [1; 2; 3])
              = standardize [1; 2; 3]).
  { apply (@standardize_units 2 5 [1; 2; 3]).
    - apply Rlt_0_2.
    - rewrite one_two_three_std. apply R1_neq_R0. }
  split; [exact E|]. rewrite E. exact one_two_three_standardized.
Defined.

End Standardized.


(** ** Further facts: what a ladder leaves out, and where it is priced *)

Section LadderCoverage.

Lemma floor_shares_ge (n d : Z) (ws : list Z) :
  (0 < d)%Z ->
  (n * sum ws
   <= d * sum (map (fun w => n * w / d) ws)
      + (d - 1) * Z.of_nat (length ws))%Z.
Proof.
  intros Hd. induction ws as [|w ws IH]; [cbn; lia|].
  cbn [map length]. rewrite !sum_cons, Nat2Z.inj_succ.
  pose proof (Z.div_mod (n * w) d ltac:(lia)) as Hdm.
  pose proof (Z.mod_pos_bound (n * w) d Hd) as Hm. lia.
Qed.

(** X22: on two shares or more the quantities of a ladder leave out fewer
    shares than there are weights: at most [min(20, n) - 2] of the [n]
    shares, so at most 18, stay without an order. *)
Theorem order_quantities_residual (n : Z) :
  (2 <= n)%Z ->
  exists l,
    order_quantities n = Ok l /\
    (n - (Z.min 20 n - 2) <= sum l <= n)%Z /\
    (n - 18 <= sum l)%Z.
Proof.
  intros Hn. pose proof (order_quantities_eq Hn) as E. cbv zeta in E.
  set (cap := Z.min 20 n) in *. set (ws := weights cap) in *.
  set (f := fun w => (n * w / sum ws)%Z) in *.
  assert (Hs : (0 < sum ws)%Z) by (apply weights_nonempty_sum; lia).
  eexists. split; [exact E|].
  rewrite (sum_map_filter_nonzero f ws).
  pose proof (@floor_shares_le n (sum ws) ws Hs ltac:(lia)) as Hle.
  pose proof (@floor_shares_ge n (sum ws) ws Hs) as Hge.
  assert (Hlen : Z.of_nat (length ws) = (cap - 1)%Z).
  { unfold ws, weights. rewrite length_map, range_length. lia. }
  rewrite Hlen in Hge. fold f in Hle, Hge.
  set (total := sum (map f ws)) in *.
  assert (Hcap : (2 <= cap <= 20)%Z) by (unfold cap; lia).
  assert (H1 : (total <= n)%Z) by nia.
  assert (H2 : (n - (cap - 2) <= total)%Z) by nia.
  repeat split; lia.
Qed.

Lemma linspace_convex (a b : Q) (k : nat) :
  Forall (fun x => exists t, (0 <= t <= 1)%Q /\ (x == a + t * (b - a))%Q)
    (linspace a b k).
Proof.
  destruct k as [|[|k]]; [constructor| |].
  - constructor; [|constructor]. exists 0%Q. split; [split; discriminate|ring].
  - unfold linspace. apply Forall_forall. intros x Hx.
    apply in_map_iff in Hx. destruct Hx as [i [<- Hi]]. apply in_seq in Hi.
    set (m := inject_Z (Z.of_nat (S (S k)) - 1)).
    assert (Hm : (0 < m)%Q)
      by (unfold m, Qlt, inject_Z; cbn [Qnum Qden]; lia).
    assert (Him : (inject_Z (Z.of_nat i) <= m)%Q)
      by (unfold m; rewrite <- Zle_Qle; lia).
    assert (Hi0 : (0 <= inject_Z (Z.of_nat i))%Q)
      by (change 0%Q with (inject_Z 0); rewrite <- Zle_Qle; lia).
    exists (inject_Z (Z.of_nat i) / m)%Q. split; [split|].
    + apply Qle_shift_div_l; [exact Hm|]. now rewrite Qmult_0_l.
    + apply Qle_shift_div_r; [exact Hm|]. now rewrite Qmult_1_l.
    + field. intros E. rewrite E in Hm. discriminate Hm.
Qed.

Lemma linspace_between (a b : Q) (k : nat) :
  (a <= b)%Q -> Forall (fun x => a <= x <= b)%Q (linspace a b k).
Proof.
  intros Hab. eapply Forall_impl; [|apply linspace_convex].
  intros x [t [[Ht0 Ht1] ->]].
  assert (H0 : (0 <= t * (b - a))%Q) by (apply Qmult_le_0_compat; lra).
  assert (H1 : (t * (b - a) <= 1 * (b - a))%Q)
    by (apply Qmult_le_compat_r; lra).
  lra.
Qed.

Lemma linspace_between_desc (a b : Q) (k : nat) :
  (b <= a)%Q -> Forall (fun x => b <= x <= a)%Q (linspace a b k).
Proof.
  intros Hab. eapply Forall_impl; [|apply linspace_convex].
  intros x [t [[Ht0 Ht1] ->]].
  assert (H0 : (0 <= t * (a - b))%Q) by (apply Qmult_le_0_compat; lra).
  assert (H1 : (t * (a - b) <= 1 * (a - b))%Q)
    by (apply Qmult_le_compat_r; lra).
  setoid_replace (t * (b - a))%Q with (- (t * (a - b)))%Q by ring.
  lra.
Qed.

End LadderCoverage.

Section LadderPrices.

Variable std : list Q -> Q.
Variable self : strategy.

(** X23: when the symbol has bars, no high is below its open and the
    deviation is not negative, no sell order is priced below the ask and
    no buy order above it: the sell prices lie between ask + 0.1 avg and
    ask + avg + 2 std, the buy prices between ask - (avg + 2 std) and
    ask - 0.1 avg, with avg the mean of high - open. *)
Theorem ladders_price_band (sym : string) (n : Z) (saved : list saved_order)
  (o2h : list Q) :
  (2 <= n)%Z -> open_to_high self sym = Ok o2h -> o2h <> [] ->
  Forall (fun x => 0 <= x)%Q o2h -> (0 <= std o2h)%Q ->
  let ask := askPrice (_td_api self) sym in
  let avg := fmean o2h in
  let sd := std o2h in
  exists sold bought,
    create_sell_orders std self sym n saved = (Ok tt, saved ++ sold) /\
    create_buy_orders std self sym n saved = (Ok tt, saved ++ bought) /\
    Forall (fun o => ask <= ask + 0.1 * avg <= so_price o /\
                     so_price o <= ask + (avg + 2 * sd))%Q sold /\
    Forall (fun o => ask - (avg + 2 * sd) <= so_price o /\
                     so_price o <= ask - 0.1 * avg <= ask)%Q bought.
Proof.
  intros Hn Ho _ Hbars Hsd ask avg sd.
  destruct (@order_quantities_invariants n Hn) as [l [E _]].
  pose proof (fmean_nonneg Hbars) as Havg. fold avg in Havg.
  assert (Hav : (0 <= 0.1 * avg)%Q)
    by (apply Qmult_le_0_compat; [discriminate|exact Havg]).
  exists (sell_ladder std self sym n), (buy_ladder std self sym n).
  rewrite create_sell_orders_cases, create_buy_orders_cases.
  unfold sell_ladder, buy_ladder. rewrite E, Ho. cbv zeta.
  fold ask. fold avg. fold sd.
  split; [reflexivity|]. split; [reflexivity|]. split.
  - apply Forall_forall. intros o Hin. apply in_map_iff in Hin.
    destruct Hin as [[p q] [<- Hin]]. cbn [so_price fst].
    apply in_combine_l in Hin.
    pose proof (@linspace_between (ask + 0.1 * avg) (ask + (avg + 2 * sd))
                  (length l) ltac:(unfold sd; lra)) as Hb.
    rewrite Forall_forall in Hb. specialize (Hb p Hin). lra.
  - apply Forall_forall. intros o Hin. apply in_map_iff in Hin.
    destruct Hin as [[p q] [<- Hin]]. cbn [so_price fst].
    apply in_combine_l in Hin.
    pose proof (@linspace_between_desc (ask - 0.1 * avg)
                  (ask - (avg + 2 * sd)) (length l)
                  ltac:(unfold sd; lra)) as Hb.
    rewrite Forall_forall in Hb. specialize (Hb p Hin). lra.
Qed.

End LadderPrices.

Lemma order_quantities_residual_witness :
  exists l,
    order_quantities 100 = Ok l /\
    (100 - (Z.min 20 100 - 2) <= sum l <= 100)%Z /\
    (100 - 18 <= sum l)%Z.
Proof. apply (@order_quantities_residual 100). lia. Defined.

Lemma ladders_price_band_witness :
  exists sold bought,
    create_sell_orders (fun _ => 1) one_sellable "AAA" 5 []
    = (Ok tt, [] ++ sold) /\
    create_buy_orders (fun _ => 1) one_sellable "AAA" 5 []
    = (Ok tt, [] ++ bought) /\
    Forall (fun o => 10 <= 10 + 0.1 * fmean [11 - 10; 12 - 10] <= so_price o /\
                     so_price o <= 10 + (fmean [11 - 10; 12 - 10] + 2 * 1))%Q
      sold /\
    Forall (fun o => 10 - (fmean [11 - 10; 12 - 10] + 2 * 1) <= so_price o /\
                     so_price o <= 10 - 0.1 * fmean [11 - 10; 12 - 10] <= 10)%Q
      bought.
Proof.
  apply (@ladders_price_band (fun _ => 1) one_sellable "AAA" 5 []
           [11 - 10; 12 - 10])%Q.
  - lia.
  - reflexivity.
  - discriminate.
  - repeat constructor; discriminate.
  - discriminate.
Defined.


(** ** Further facts: the strategy object and the script *)

Section AccountFacts.

Lemma mem_In (s : string) (l : list string) : mem s l = true <-> In s l.
Proof.
  unfold mem. rewrite existsb_exists. split.
  - intros [x [Hx E]]. apply String.eqb_eq in E. now subst.
  - intros H. exists s. split; [exact H|apply String.eqb_refl].
Qed.

Lemma mem_not_In (s : string) (l : list string) :
  negb (mem s l) = true <-> ~ In s l.
Proof.
  rewrite negb_true_iff, <- not_true_iff_false. now rewrite mem_In.
Qed.

Lemma unique_In (s : string) (l : list string) : In s (unique l) <-> In s l.
Proof.
  induction l as [|x l IH]; [reflexivity|]. cbn [unique In].
  rewrite filter_In, IH. split.
  - intros [H|[H _]]; [now left|now right].
  - intros [H|H]; [now left|].
    destruct (String.eqb_spec s x) as [->|Hne]; [now left|right].
    split; [exact H|reflexivity].
Qed.

Lemma unique_NoDup (l : list string) : NoDup (unique l).
Proof.
  induction l as [|x l IH]; [constructor|]. cbn [unique]. constructor.
  - rewrite filter_In. intros [_ H].
    rewrite String.eqb_refl in H. discriminate H.
  - now apply NoDup_filter.
Qed.

Variable td_api : TDAmeritradeAPI.
Variable acct : snapshot.
Variable bars : DataFrame label Q.

Lemma possible_etf_buys_spec (s : string) :
  In s (possible_etf_buys (__init__ td_api acct bars)) <->
  In s (map (fun c => fst (fst c)) (columns bars)) /\
  ~ In s (get_simple_open_orders acct) /\
  ~ In s (map symbol (get_positions acct)).
Proof.
  cbn [__init__ possible_etf_buys]. unfold _get_possible_etf_buys, etfs.
  cbv zeta. rewrite !filter_In, unique_In, !mem_not_In.
  assert (Hp : forall l : list string,
             In s (if (0 <? length l)%nat then l else []) <-> In s l)
    by (intros [|x l]; reflexivity).
  assert (Hq : In s (if (0 <? length (get_positions acct))%nat
                     then map symbol (get_positions acct) else [])
               <-> In s (map symbol (get_positions acct)))
    by (destruct (get_positions acct); reflexivity).
  rewrite Hp, Hq. tauto.
Qed.

Lemma etf_positions_spec (p : position) :
  In p (etf_positions (__init__ td_api acct bars)) <->
  In p (get_positions acct) /\
  In (symbol p) (map (fun c => fst (fst c)) (columns bars)) /\
  ~ exists t, In t (get_trades acct) /\ tr_symbol t = symbol p /\
              tr_instruction t = "BUY"%string.
Proof.
  cbn [__init__ etf_positions]. unfold _get_sellable_etf_positions, etfs.
  cbv zeta. rewrite filter_In, !andb_true_iff, mem_not_In, !mem_In, unique_In.
  assert (Ht : In (symbol p)
                 (map tr_symbol
                    (filter (fun t => (tr_instruction t =? "BUY")%string)
                       (get_trades acct)))
               <-> exists t, In t (get_trades acct) /\ tr_symbol t = symbol p /\
                             tr_instruction t = "BUY"%string).
  { rewrite in_map_iff. split.
    - intros [t [E Hin]]. apply filter_In in Hin. destruct Hin as [Hin Hb].
      apply String.eqb_eq in Hb. now exists t.
    - intros [t [Hin [E Hb]]]. exists t. split; [exact E|].
      apply filter_In. split; [exact Hin|]. now apply String.eqb_eq. }
  rewrite Ht. split.
  - intros [Hin [[_ He] Hn]]. tauto.
  - intros [Hin [He Hn]]. repeat split; try assumption.
    now apply in_map.
Qed.

(** X24: in the object that [__init__] fills, the possible buys are the
    symbols of the bars with no open order and no position, each once;
    the sellable positions are the positions in symbols of the bars with
    no BUY among the trades of the last 35 days; and no symbol is both a
    possible buy and a sellable position. *)
Theorem init_buys_and_sells_apart :
  let self := __init__ td_api acct bars in
  (forall s, In s (possible_etf_buys self) <->
             In s (map (fun c => fst (fst c)) (columns bars)) /\
             ~ In s (get_simple_open_orders acct) /\
             ~ In s (map symbol (get_positions acct))) /\
  NoDup (possible_etf_buys self) /\
  (forall p, In p (etf_positions self) <->
             In p (get_positions acct) /\
             In (symbol p) (map (fun c => fst (fst c)) (columns bars)) /\
             ~ exists t, In t (get_trades acct) /\ tr_symbol t = symbol p /\
                         tr_instruction t = "BUY"%string) /\
  (forall s, In s (possible_etf_buys self) ->
             ~ In s (map symbol (etf_positions self))).
Proof.
  intros self. split; [exact possible_etf_buys_spec|]. split; [|split].
  - unfold self. cbn [__init__ possible_etf_buys].
    unfold _get_possible_etf_buys. cbv zeta.
    do 2 apply NoDup_filter. apply unique_NoDup.
  - exact etf_positions_spec.
  - intros s Hs Hin. apply possible_etf_buys_spec in Hs.
    destruct Hs as [_ [_ Hn]]. apply Hn.
    apply in_map_iff in Hin. destruct Hin as [p [<- Hp]].
    apply etf_positions_spec in Hp. apply in_map. tauto.
Qed.

End AccountFacts.

Section Script.

Variable std : list Q -> Q.

(** Where the orders of a run of the sell strategy come from. *)
Lemma sell_orders_origin (self : strategy) (saved saved' : list saved_order)
  (r : result unit) :
  run_sell_strategy std self saved = (r, saved') ->
  exists new,
    saved' = saved ++ new /\
    Forall (fun o => so_instruction o = "SELL"%string /\
                     In (so_symbol o) (map symbol (etf_positions self))) new.
Proof.
  intros E. unfold run_sell_strategy in E.
  destruct (@for_each_invariant position
              (fun asset => create_sell_orders std self (symbol asset)
                              (longQuantity asset))
              (fun p o => so_symbol o = symbol p /\
                          so_instruction o = "SELL"%string)
              (sells self)) with (saved := saved) (r := r) (saved' := saved')
    as [new [Hnew Hall]]; [|exact E|].
  - intros p sv r' sv' Hp Ep. rewrite create_sell_orders_cases in Ep.
    destruct (order_quantities (longQuantity p)) as [l|e];
      [destruct (open_to_high self (symbol p)) as [o2h|e]|];
      inversion Ep; subst;
      try (exists []; split; [now rewrite app_nil_r|constructor]).
    exists (sell_ladder std self (symbol p) (longQuantity p)).
    split; [reflexivity|].
    eapply Forall_impl; [|apply sell_ladder_orders]. cbn. tauto.
  - exists new. split; [exact Hnew|].
    eapply Forall_impl; [|exact Hall].
    intros o [p [Hp [H1 H2]]]. split; [exact H2|].
    apply sells_spec in Hp. rewrite H1. apply in_map. tauto.
Qed.

(** Where the orders of a run of the buy strategy come from. *)
Lemma buy_orders_origin (self : strategy) (saved saved' : list saved_order)
  (r : result unit) :
  run_buy_strategy std self saved = (r, saved') ->
  exists new,
    saved' = saved ++ new /\
    Forall (fun o => so_instruction o = "BUY"%string /\
                     In (so_symbol o) (possible_etf_buys self)) new.
Proof.
  intros E. unfold run_buy_strategy in E.
  destruct (buy_orders self) as [orders|e] eqn:Eo.
  2:{ inversion E; subst. exists []. split; [now rewrite app_nil_r|constructor]. }
  pose proof (@buy_orders_rows self orders Eo) as Hrows.
  rewrite Forall_forall in Hrows.
  destruct (@for_each_invariant (string * Z)
              (fun row => create_buy_orders std self (fst row) (snd row))
              (fun row o => so_symbol o = fst row /\
                            so_instruction o = "BUY"%string)
              orders) with (saved := saved) (r := r) (saved' := saved')
    as [new [Hnew Hall]]; [|exact E|].
  - intros row sv r' sv' Hrow Er. rewrite create_buy_orders_cases in Er.
    destruct (order_quantities (snd row)) as [l|e];
      [destruct (open_to_high self (fst row)) as [o2h|e]|];
      inversion Er; subst;
      try (exists []; split; [now rewrite app_nil_r|constructor]).
    exists (buy_ladder std self (fst row) (snd row)).
    split; [reflexivity|].
    eapply Forall_impl; [|apply buy_ladder_orders]. cbn. tauto.
  - exists new. split; [exact Hnew|].
    eapply Forall_impl; [|exact Hall].
    intros o [row [Hrow [H1 H2]]]. split; [exact H2|].
    rewrite H1. now apply Hrows.
Qed.

(** X25: however the script ends, it keeps the orders saved before, every
    order it adds is a BUY for a possible buy or a SELL for a sellable
    position, and, on an object filled by [__init__], it never adds a
    BUY and a SELL for the same symbol. *)
Theorem main_never_crosses (td_api : TDAmeritradeAPI) (acct : snapshot)
  (bars : DataFrame label Q) (saved saved' : list saved_order)
  (r : result unit) :
  let self := __init__ td_api acct bars in
  main std self saved = (r, saved') ->
  exists new,
    saved' = saved ++ new /\
    Forall (fun o =>
              (so_instruction o = "BUY"%string /\
               In (so_symbol o) (possible_etf_buys self)) \/
              (so_instruction o = "SELL"%string /\
               In (so_symbol o) (map symbol (etf_positions self)))) new /\
    forall o o', In o new -> In o' new ->
      so_instruction o = "BUY"%string -> so_instruction o' = "SELL"%string ->
      so_symbol o <> so_symbol o'.
Proof.
  intros self E.
  assert (Hkinds : exists new,
    saved' = saved ++ new /\
    Forall (fun o =>
              (so_instruction o = "BUY"%string /\
               In (so_symbol o) (possible_etf_buys self)) \/
              (so_instruction o = "SELL"%string /\
               In (so_symbol o) (map symbol (etf_positions self)))) new).
  { unfold main in E.
    destruct (run_buy_strategy std self saved) as [[u|e] s1] eqn:Eb.
    - destruct (@buy_orders_origin self saved s1 (Ok u) Eb) as [n1 [-> F1]].
      destruct (@sell_orders_origin self _ saved' r E) as [n2 [-> F2]].
      exists (n1 ++ n2). split; [now rewrite app_assoc|].
      apply Forall_app. split; (eapply Forall_impl; [|eassumption]);
        intros o Ho; [now left|now right].
    - inversion E; subst.
      destruct (@buy_orders_origin self saved saved' (Raise e) Eb)
        as [n1 [-> F1]].
      exists n1. split; [reflexivity|].
      eapply Forall_impl; [|exact F1]. intros o Ho. now left. }
  destruct Hkinds as [new [Hnew Hall]]. exists new.
  split; [exact Hnew|]. split; [exact Hall|].
  intros o o' Ho Ho' Hb Hs Heq. rewrite Forall_forall in Hall.
  destruct (Hall o Ho) as [[_ Hin]|[H _]]; [|congruence].
  destruct (Hall o' Ho') as [[H _]|[_ Hin']]; [congruence|].
  destruct (@init_buys_and_sells_apart td_api acct bars) as [_ [_ [_ Hd]]].
  apply (Hd (so_symbol o) Hin). now rewrite Heq.
Qed.

End Script.

Example example_account_strategy :
  possible_etf_buys
    (__init__ (mkAPI (fun _ => 10) (fun _ => 10)) example_account
       example_etf_bars)
  = ["DDD"%string] /\
  map symbol
    (etf_positions
       (__init__ (mkAPI (fun _ => 10) (fun _ => 10)) example_account
          example_etf_bars))
  = ["AAA"%string].
Proof. split; reflexivity. Qed.


Example twelve_strategy_orders :
  fst (main (fun _ => 1) twelve_strategy []) = Ok tt /\
  map (fun o => (so_symbol o, so_instruction o, so_quantity o))
    (snd (main (fun _ => 1) twelve_strategy []))
  = [("B", "BUY", 1); ("B", "BUY", 1); ("B", "BUY", 1); ("B", "BUY", 1);
     ("B", "BUY", 1); ("B", "BUY", 2);
     ("L", "BUY", 1); ("L", "BUY", 1); ("L", "BUY", 1); ("L", "BUY", 1);
     ("L", "BUY", 1); ("L", "BUY", 2);
     ("A", "SELL", 1); ("A", "SELL", 1); ("A", "SELL", 2)]%string%Z.
Proof. vm_compute. split; reflexivity. Qed.

Lemma main_never_crosses_witness :
  exists new,
    snd (main (fun _ => 1) twelve_strategy []) = [] ++ new /\
    Forall (fun o =>
              (so_instruction o = "BUY"%string /\
               In (so_symbol o) (possible_etf_buys twelve_strategy)) \/
              (so_instruction o = "SELL"%string /\
               In (so_symbol o) (map symbol (etf_positions twelve_strategy))))
      new /\
    forall o o', In o new -> In o' new ->
      so_instruction o = "BUY"%string -> so_instruction o' = "SELL"%string ->
      so_symbol o <> so_symbol o'.
Proof.
  apply (@main_never_crosses (fun _ => 1) (_td_api twelve_buyable)
           twelve_account (etf_bars twelve_buyable) []
           (snd (main (fun _ => 1) twelve_strategy []))
           (fst (main (fun _ => 1) twelve_strategy []))).
  exact (surjective_pairing (main (fun _ => 1) twelve_strategy [])).
Defined.
